(** * near-sdk-js, [packages/near-sdk-js/src/utils.ts]

    A shallow embedding of the utility module of near-sdk-js: the tagged
    value serializer and deserializer ([serialize], [deserialize]), the
    options-driven retrieval facade ([getValueWithOptions],
    [serializeValueWithOptions]), the account identifier validator
    ([validateAccountId]), [assert], [concat] and the text codec classes
    ([TextEncoder], [TextDecoder]) with the helpers [encode], [decode],
    [bytes] and [str].

    Conventions of the embedding.
    - A JavaScript string is the list of its UTF-16 code units
      ([jsstring]); [lit] turns a Rocq literal into such a list.
    - A [Uint8Array] is a list of bytes.
    - A JavaScript run-time value is a term of [jsvalue]; functions, symbols
      and class instances other than [Date] are outside the embedding.
    - A call that can throw returns a [result].
    - What utils.ts takes from its surroundings is a parameter: the host
      codec [Env] (declared in the source) and the number and date
      conversions of the JavaScript engine ([Engine]).  The algorithms of
      [JSON.stringify] and [JSON.parse], to which the source hands its
      replacer and reviver, are written out after ECMA-262. *)

From Stdlib Require Import Ascii String List NArith ZArith Bool Lia.
From Stdlib.Strings Require Import Byte.
Import ListNotations.

(** ** Strings, bytes, results *)

Abbreviation jschar := N (only parsing).
Abbreviation jsstring := (list N) (only parsing).
Definition Uint8Array := list byte.

Definition lit (s : string) : jsstring :=
  map N_of_ascii (list_ascii_of_string s).

(** A literal of JSON text, written with an apostrophe for each quotation
    mark. *)
Definition json (s : string) : jsstring :=
  map (fun c => if (c =? 39)%N then 34%N else c) (lit s).

Definition jsstring_eqb (a b : jsstring) : bool :=
  if list_eq_dec N.eq_dec a b then true else false.

Inductive error : Type :=
| SyntaxError (msg : jsstring)
| TypeError (msg : jsstring)
| RangeError (msg : jsstring)
| Error (msg : jsstring).

Inductive result (A : Type) : Type :=
| Ok (a : A)
| Throw (e : error).

Arguments Ok {A} a.
Arguments Throw {A} e.

(** What parsing text gives: a value and the text after it, a syntax
    error, or the end of the recursion bound. *)
Inductive parsed (A : Type) : Type :=
| Parsed (a : A) (rest : jsstring)
| Malformed
| Exhausted.

Arguments Parsed {A} a rest.
Arguments Malformed {A}.
Arguments Exhausted {A}.

Definition bind {A B} (r : result A) (k : A -> result B) : result B :=
  match r with
  | Ok a => k a
  | Throw e => Throw e
  end.

Notation "x <- r ;; k" := (bind r (fun x => k))
  (at level 61, r at next level, right associativity).

(** ** Regular expressions

    [RegExp.prototype.test] for patterns built from character classes,
    concatenation, alternation and repetition, anchored at both ends
    ([^...$] without flags): the test succeeds exactly when the whole
    string is in the language of the pattern. *)

Inductive regex : Type :=
| RNever
| REmpty
| RClass (p : jschar -> bool)
| RSeq (r1 r2 : regex)
| RAlt (r1 r2 : regex)
| RStar (r : regex).

Definition RPlus (r : regex) : regex := RSeq r (RStar r).

Fixpoint nullable (r : regex) : bool :=
  match r with
  | RNever => false
  | REmpty => true
  | RClass _ => false
  | RSeq r1 r2 => nullable r1 && nullable r2
  | RAlt r1 r2 => nullable r1 || nullable r2
  | RStar _ => true
  end.

Fixpoint deriv (c : jschar) (r : regex) : regex :=
  match r with
  | RNever => RNever
  | REmpty => RNever
  | RClass p => if p c then REmpty else RNever
  | RSeq r1 r2 =>
      if nullable r1
      then RAlt (RSeq (deriv c r1) r2) (deriv c r2)
      else RSeq (deriv c r1) r2
  | RAlt r1 r2 => RAlt (deriv c r1) (deriv c r2)
  | RStar r1 => RSeq (deriv c r1) (RStar r1)
  end.

Fixpoint regex_test (r : regex) (s : jsstring) : bool :=
  match s with
  | [] => nullable r
  | c :: s' => regex_test (deriv c r) s'
  end.

(** The language of a pattern, for reasoning. *)
Inductive lang : regex -> jsstring -> Prop :=
| lang_empty : lang REmpty []
| lang_class p c : p c = true -> lang (RClass p) [c]
| lang_seq r1 r2 s1 s2 : lang r1 s1 -> lang r2 s2 -> lang (RSeq r1 r2) (s1 ++ s2)
| lang_alt_l r1 r2 s : lang r1 s -> lang (RAlt r1 r2) s
| lang_alt_r r1 r2 s : lang r2 s -> lang (RAlt r1 r2) s
| lang_star_nil r : lang (RStar r) []
| lang_star_app r s1 s2 :
    lang r s1 -> lang (RStar r) s2 -> lang (RStar r) (s1 ++ s2).

(** ** Constants of utils.ts *)

Definition TYPE_KEY : jsstring := lit "typeInfo".

Module TypeBrand.
Definition BIGINT : jsstring := lit "bigint".
Definition DATE : jsstring := lit "date".
End TypeBrand.

Definition ERR_INCONSISTENT_STATE : jsstring :=
  lit "The collection is an inconsistent state. Did previous smart contract execution terminate unexpectedly?".
Definition ERR_INDEX_OUT_OF_BOUNDS : jsstring := lit "Index out of bounds".

Definition in_range (lo hi : string) (c : jschar) : bool :=
  match list_ascii_of_string lo, list_ascii_of_string hi with
  | [a], [b] => (N_of_ascii a <=? c)%N && (c <=? N_of_ascii b)%N
  | _, _ => false
  end.

Definition is_char (a : string) (c : jschar) : bool := in_range a a c.

(** [[a-z\d]], [[-_]] and [\.] *)
Definition cls_lower_digit (c : jschar) : bool :=
  in_range "a" "z" c || in_range "0" "9" c.
Definition cls_hyphen_underscore (c : jschar) : bool :=
  is_char "-" c || is_char "_" c.
Definition cls_dot (c : jschar) : bool := is_char "." c.

(** [([a-z\d]+[-_])*[a-z\d]+], which the pattern uses twice. *)
Definition re_label : regex :=
  RSeq (RStar (RSeq (RPlus (RClass cls_lower_digit)) (RClass cls_hyphen_underscore)))
       (RPlus (RClass cls_lower_digit)).

(** [/^(([a-z\d]+[-_])*[a-z\d]+\.)*([a-z\d]+[-_])*[a-z\d]+$/] *)
Definition ACCOUNT_ID_REGEX : regex :=
  RSeq (RStar (RSeq re_label (RClass cls_dot))) re_label.

Definition validateAccountId (accountId : jsstring) : bool :=
  (2 <=? length accountId) && (length accountId <=? 64)
  && regex_test ACCOUNT_ID_REGEX accountId.

(** The grammar of account identifiers in the words of the protocol: labels
    separated by dots; a label is one or more groups joined by single
    hyphens or underscores; a group is one or more lowercase letters or
    digits.  An empty piece of a split is an empty label, or a separator at
    the start or the end of a label or next to another. *)
Fixpoint split_on (p : jschar -> bool) (s : jsstring) : list jsstring :=
  match s with
  | [] => [[]]
  | c :: r =>
      if p c then [] :: split_on p r
      else match split_on p r with
           | piece :: pieces => (c :: piece) :: pieces
           | [] => [[c]]
           end
  end.

Definition valid_group (g : jsstring) : bool :=
  negb (jsstring_eqb g []) && forallb cls_lower_digit g.

Definition valid_label (l : jsstring) : bool :=
  forallb valid_group (split_on cls_hyphen_underscore l).

Definition account_id_grammar (s : jsstring) : bool :=
  forallb valid_label (split_on cls_dot s).

(** No character of the class occurs in the string. *)
Definition free_of (p : jschar -> bool) (s : jsstring) : Prop :=
  forallb (fun c => negb (p c)) s = true.

(** Pieces of a language joined by one separator each. *)
Definition separated (piece : regex) (p : jschar -> bool) : regex :=
  RSeq (RStar (RSeq piece (RClass p))) piece.

(** ** Decimal and other digit strings *)

Definition ch (a : string) : jschar :=
  match list_ascii_of_string a with
  | c :: _ => N_of_ascii c
  | [] => 0%N
  end.

Fixpoint digits_fuel (fuel : nat) (n : N) (acc : jsstring) : jsstring :=
  let acc' := (ch "0" + n mod 10)%N :: acc in
  match fuel with
  | O => acc'
  | S f => if (n / 10 =? 0)%N then acc' else digits_fuel f (n / 10)%N acc'
  end.

(** The decimal digits of [n], most significant first, no leading zero. *)
Definition decimal_of_N (n : N) : jsstring :=
  digits_fuel (N.to_nat (N.size n)) n [].

(** The decimal string of a number, by its digits. *)
Inductive is_decimal : N -> jsstring -> Prop :=
| decimal_digit d : (d < 10)%N -> is_decimal d [(ch "0" + d)%N]
| decimal_more n d s :
    is_decimal n s -> (0 < n)%N -> (d < 10)%N ->
    is_decimal (10 * n + d) (s ++ [(ch "0" + d)%N]).

(** [BigInt.prototype.toString()], radix 10. *)
Definition BigInt_toString (z : Z) : jsstring :=
  match z with
  | Zneg p => ch "-" :: decimal_of_N (Npos p)
  | _ => decimal_of_N (Z.to_N z)
  end.

Definition digit_of (radix : N) (c : jschar) : option N :=
  let d :=
    if in_range "0" "9" c then Some (c - ch "0")%N
    else if in_range "a" "z" c then Some (c - ch "a" + 10)%N
    else if in_range "A" "Z" c then Some (c - ch "A" + 10)%N
    else None in
  match d with
  | Some v => if (v <? radix)%N then Some v else None
  | None => None
  end.

Fixpoint digits_value (radix : N) (s : jsstring) (acc : N) : option N :=
  match s with
  | [] => Some acc
  | c :: s' =>
      match digit_of radix c with
      | Some d => digits_value radix s' (radix * acc + d)%N
      | None => None
      end
  end.

(** One or more digits of the radix. *)
Definition parse_digits (radix : N) (s : jsstring) : option N :=
  match s with
  | [] => None
  | _ => digits_value radix s 0%N
  end.

(** [StrWhiteSpaceChar]: WhiteSpace and LineTerminator of ECMA-262. *)
Definition is_StrWhiteSpaceChar (c : jschar) : bool :=
  existsb (N.eqb c)
    [9; 10; 11; 12; 13; 32; 160; 5760; 8232; 8233; 8239; 8287; 12288; 65279]%N
  || ((8192 <=? c) && (c <=? 8202))%N.

Fixpoint drop_while (p : jschar -> bool) (s : jsstring) : jsstring :=
  match s with
  | c :: s' => if p c then drop_while p s' else s
  | [] => []
  end.

Definition trim (s : jsstring) : jsstring :=
  rev (drop_while is_StrWhiteSpaceChar (rev (drop_while is_StrWhiteSpaceChar s))).

(** [StringToBigInt]: [None] where the specification answers undefined. *)
Definition StringToBigInt (s : jsstring) : option Z :=
  let nat_of r ds := option_map Z.of_N (parse_digits r ds) in
  match trim s with
  | [] => Some 0%Z
  | c :: rest =>
      if is_char "+" c then nat_of 10%N rest
      else if is_char "-" c then option_map Z.opp (nat_of 10%N rest)
      else
        match rest with
        | p :: ds =>
            if is_char "0" c && (is_char "x" p || is_char "X" p) then nat_of 16%N ds
            else if is_char "0" c && (is_char "o" p || is_char "O" p) then nat_of 8%N ds
            else if is_char "0" c && (is_char "b" p || is_char "B" p) then nat_of 2%N ds
            else nat_of 10%N (c :: rest)
        | [] => nat_of 10%N [c]
        end
  end.

(** ** The host and the engine *)

(** [interface Env] of the source: the codec the host provides. *)
Class Env : Type := {
  uint8array_to_latin1_string : Uint8Array -> jsstring;
  uint8array_to_utf8_string : Uint8Array -> jsstring;
  latin1_string_to_uint8array : jsstring -> Uint8Array;
  utf8_string_to_uint8array : jsstring -> Uint8Array;
}.

(** The conversions of the JavaScript engine that utils.ts reaches through
    [JSON], [BigInt] and [Date] and that depend on binary floating point or
    are left to the implementation.  A time value is an integer number of
    milliseconds since the epoch. *)
Class Engine : Type := {
  (** the Number type *)
  number : Type;
  (** neither NaN nor an infinity *)
  Number_isFinite : number -> bool;
  (** finite and without fractional part *)
  Number_isIntegral : number -> bool;
  (** [ToBoolean]: false for NaN and the two zeros *)
  Number_toBoolean : number -> bool;
  (** [Number::toString], radix 10 *)
  Number_toString : number -> jsstring;
  (** truncation of a finite number toward zero *)
  Number_truncate : number -> Z;
  (** the Number a JSON number token denotes *)
  Number_ofLiteral : jsstring -> number;
  (** [Date.prototype.toISOString] at a valid time value *)
  Date_toISOString : Z -> jsstring;
  (** [Date.parse]; [None] is NaN *)
  Date_parse : jsstring -> option Z;
  (** [Date.prototype.toString]; [None] is the invalid date *)
  Date_toString : option Z -> jsstring;
  (** the message of the SyntaxError that [JSON.parse] throws on a text
      that is not JSON, which ECMA-262 leaves to the implementation *)
  JSON_parse_message : jsstring -> jsstring;
  (** what the host codec answers when [encode] is handed [undefined],
      the result of [JSON.stringify] at a value without JSON form *)
  utf8_undefined_to_uint8array : result Uint8Array;
}.

Section Utils.
Context {env : Env} {engine : Engine}.

(** ** Values *)

Unset Elimination Schemes.
Inductive jsvalue : Type :=
| VUndefined
| VNull
| VBool (b : bool)
| VNum (n : number)
| VStr (s : jsstring)
| VBigInt (z : Z)
| VDate (t : option Z)
| VArr (elems : list jsvalue)
| VObj (props : list (jsstring * jsvalue)).
Set Elimination Schemes.

Definition typeof (v : jsvalue) : jsstring :=
  match v with
  | VUndefined => lit "undefined"
  | VNull | VDate _ | VArr _ | VObj _ => lit "object"
  | VBool _ => lit "boolean"
  | VNum _ => lit "number"
  | VStr _ => lit "string"
  | VBigInt _ => lit "bigint"
  end.

Definition ToBoolean (v : jsvalue) : bool :=
  match v with
  | VUndefined | VNull => false
  | VBool b => b
  | VNum n => Number_toBoolean n
  | VStr s => negb (jsstring_eqb s [])
  | VBigInt z => negb (z =? 0)%Z
  | VDate _ | VArr _ | VObj _ => true
  end.

(** [a ?? b] *)
Definition nullish (a b : jsvalue) : jsvalue :=
  match a with
  | VUndefined | VNull => b
  | _ => a
  end.

Definition index_key (i : nat) : jsstring := decimal_of_N (N.of_nat i).

(** [Object.keys] of an object; the own enumerable string keys. *)
Definition Object_keys (v : jsvalue) : list jsstring :=
  match v with
  | VObj props => map fst props
  | VArr elems => map index_key (seq 0 (length elems))
  | VStr s => map index_key (seq 0 (length s))
  | _ => []
  end.

Fixpoint lookup (k : jsstring) (props : list (jsstring * jsvalue)) : option jsvalue :=
  match props with
  | [] => None
  | (k', v) :: rest => if jsstring_eqb k k' then Some v else lookup k rest
  end.

Definition has_own (k : jsstring) (props : list (jsstring * jsvalue)) : bool :=
  match lookup k props with Some _ => true | None => false end.

(** An array index: a canonical decimal string below 2^32 - 1. *)
Definition array_index (k : jsstring) : option N :=
  match parse_digits 10%N k with
  | Some i =>
      if jsstring_eqb (decimal_of_N i) k && (i <? 4294967295)%N
      then Some i else None
  | None => None
  end.

(** [o[k]] on the values of the embedding (own properties only). *)
Definition Get (o : jsvalue) (k : jsstring) : jsvalue :=
  match o with
  | VObj props =>
      match lookup k props with Some v => v | None => VUndefined end
  | VArr elems =>
      match array_index k with
      | Some i => nth (N.to_nat i) elems VUndefined
      | None => VUndefined
      end
  | _ => VUndefined
  end.

(** ** assert *)

(** The falsy values of ECMA-262 among the values of the embedding. *)
Inductive falsy : jsvalue -> Prop :=
| falsy_undefined : falsy VUndefined
| falsy_null : falsy VNull
| falsy_false : falsy (VBool false)
| falsy_number n : Number_toBoolean n = false -> falsy (VNum n)
| falsy_empty : falsy (VStr [])
| falsy_zero : falsy (VBigInt 0).

Definition assert (expression : jsvalue) (message : jsstring) : result unit :=
  if negb (ToBoolean expression)
  then Throw (Error (lit "assertion failed: " ++ message))
  else Ok tt.

(** ** Conversions of values *)

Fixpoint join (sep : jsstring) (parts : list jsstring) : jsstring :=
  match parts with
  | [] => []
  | [p] => p
  | p :: rest => p ++ sep ++ join sep rest
  end.

Fixpoint sequence {A} (rs : list (result A)) : result (list A) :=
  match rs with
  | [] => Ok []
  | r :: rest => a <- r ;; l <- sequence rest ;; Ok (a :: l)
  end.

Definition not_primitive : error :=
  TypeError (lit "Cannot convert object to primitive value").

(** [ToString].  A plain object answers through [Object.prototype.toString]
    unless an own property hides it: the properties of a parsed object are
    data, never callable, and then neither [toString] nor the inherited
    [valueOf] yields a primitive. *)
Fixpoint ToString (v : jsvalue) : result jsstring :=
  match v with
  | VUndefined => Ok (lit "undefined")
  | VNull => Ok (lit "null")
  | VBool b => Ok (if b then lit "true" else lit "false")
  | VNum n => Ok (Number_toString n)
  | VStr s => Ok s
  | VBigInt z => Ok (BigInt_toString z)
  | VDate t => Ok (Date_toString t)
  | VArr elems =>
      parts <- sequence
        (map (fun e => match e with
                       | VUndefined | VNull => Ok []
                       | _ => ToString e
                       end) elems) ;;
      Ok (join (lit ",") parts)
  | VObj props =>
      if has_own (lit "toString") props then Throw not_primitive
      else Ok (lit "[object Object]")
  end.

(** [BigInt(value)]: [ToPrimitive] with hint number, then [NumberToBigInt]
    on a Number and [ToBigInt] on the rest. *)
Definition NumberToBigInt (n : number) : result jsvalue :=
  if Number_isIntegral n then Ok (VBigInt (Number_truncate n))
  else Throw (RangeError (lit "The number cannot be converted to a BigInt because it is not an integer")).

Definition BigInt_of_string (s : jsstring) : result jsvalue :=
  match StringToBigInt s with
  | Some z => Ok (VBigInt z)
  | None => Throw (SyntaxError (lit "Cannot convert " ++ s ++ lit " to a BigInt"))
  end.

Definition BigInt (v : jsvalue) : result jsvalue :=
  match v with
  | VUndefined => Throw (TypeError (lit "Cannot convert undefined to a BigInt"))
  | VNull => Throw (TypeError (lit "Cannot convert null to a BigInt"))
  | VBool b => Ok (VBigInt (if b then 1 else 0))
  | VNum n => NumberToBigInt n
  | VStr s => BigInt_of_string s
  | VBigInt z => Ok (VBigInt z)
  | VDate (Some t) => Ok (VBigInt t)
  | VDate None => Throw (RangeError (lit "The number NaN cannot be converted to a BigInt because it is not an integer"))
  | VArr _ | VObj _ => s <- ToString v ;; BigInt_of_string s
  end.

(** [TimeClip] *)
Definition TimeClip (t : option Z) : option Z :=
  match t with
  | Some z => if (Z.abs z <=? 8640000000000000)%Z then Some z else None
  | None => None
  end.

Definition time_of_number (n : number) : option Z :=
  if Number_isFinite n then Some (Number_truncate n) else None.

(** [new Date(value)] *)
Definition new_Date (v : jsvalue) : result jsvalue :=
  match v with
  | VDate t => Ok (VDate t)
  | VUndefined => Ok (VDate None)
  | VNull => Ok (VDate (Some 0%Z))
  | VBool b => Ok (VDate (Some (if b then 1 else 0)%Z))
  | VNum n => Ok (VDate (TimeClip (time_of_number n)))
  | VStr s => Ok (VDate (TimeClip (Date_parse s)))
  | VBigInt _ => Throw (TypeError (lit "Cannot convert a BigInt value to a number"))
  | VArr _ | VObj _ => s <- ToString v ;; Ok (VDate (TimeClip (Date_parse s)))
  end.

(** [Date.prototype.toISOString] *)
Definition toISOString (t : option Z) : result jsstring :=
  match t with
  | Some z => Ok (Date_toISOString z)
  | None => Throw (RangeError (lit "Invalid time value"))
  end.

(** [Date.prototype.toJSON] *)
Definition Date_toJSON (t : option Z) : result jsvalue :=
  match t with
  | Some z => Ok (VStr (Date_toISOString z))
  | None => Ok VNull
  end.

(** ** JSON text *)

Definition is_high_surrogate (c : jschar) : bool := ((55296 <=? c) && (c <=? 56319))%N.
Definition is_low_surrogate (c : jschar) : bool := ((56320 <=? c) && (c <=? 57343))%N.

Definition hex_digit (d : N) : jschar :=
  if (d <? 10)%N then (ch "0" + d)%N else (ch "a" + (d - 10))%N.

(** [UnicodeEscape]: a backslash, [u] and four lowercase hexadecimal digits. *)
Definition unicode_escape (c : jschar) : jsstring :=
  [ch "\"; ch "u";
   hex_digit (c / 4096 mod 16); hex_digit (c / 256 mod 16);
   hex_digit (c / 16 mod 16); hex_digit (c mod 16)]%N.

Definition quote_char (c : jschar) : jsstring :=
  if (c =? 8)%N then [ch "\"; ch "b"]
  else if (c =? 9)%N then [ch "\"; ch "t"]
  else if (c =? 10)%N then [ch "\"; ch "n"]
  else if (c =? 12)%N then [ch "\"; ch "f"]
  else if (c =? 13)%N then [ch "\"; ch "r"]
  else if (c =? 34)%N then [ch "\"; 34%N]
  else if (c =? ch "\")%N then [ch "\"; ch "\"]
  else if (c <? 32)%N || is_low_surrogate c || is_high_surrogate c
  then unicode_escape c
  else [c].

(** The code points of the string, one after the other: a surrogate pair
    passes as it is, a lone surrogate is escaped. *)
Fixpoint quote_body (s : jsstring) : jsstring :=
  match s with
  | [] => []
  | c :: r =>
      if is_high_surrogate c then
        match r with
        | l :: r' =>
            if is_low_surrogate l then c :: l :: quote_body r'
            else quote_char c ++ quote_body r
        | [] => quote_char c
        end
      else quote_char c ++ quote_body r
  end.

(** [QuoteJSONString] *)
Definition QuoteJSONString (s : jsstring) : jsstring :=
  34%N :: quote_body s ++ [34%N].

Definition is_json_ws (c : jschar) : bool :=
  (c =? 9)%N || (c =? 10)%N || (c =? 13)%N || (c =? 32)%N.

Definition skip_ws (s : jsstring) : jsstring := drop_while is_json_ws s.

Definition is_digit (c : jschar) : bool := in_range "0" "9" c.

Definition is_number_char (c : jschar) : bool :=
  is_digit c || is_char "-" c || is_char "+" c || is_char "." c
  || is_char "e" c || is_char "E" c.

Fixpoint span (p : jschar -> bool) (s : jsstring) : jsstring * jsstring :=
  match s with
  | c :: r => if p c then let (a, b) := span p r in (c :: a, b) else ([], s)
  | [] => ([], [])
  end.

(** The number tokens of JSON: an optional minus sign; a zero, or a digit
    from 1 to 9 and further digits; optionally a point and digits;
    optionally [e] or [E], an optional sign and digits. *)
Definition json_exponent (s : jsstring) : bool :=
  match s with
  | [] => true
  | c :: r =>
      (is_char "e" c || is_char "E" c) &&
      let ds := match r with
                | g :: r' => if is_char "+" g || is_char "-" g then r' else r
                | [] => []
                end in
      negb (jsstring_eqb ds []) && forallb is_digit ds
  end.

Definition json_fraction (s : jsstring) : bool :=
  match s with
  | c :: r =>
      if is_char "." c then
        let (ds, r') := span is_digit r in
        negb (jsstring_eqb ds []) && json_exponent r'
      else json_exponent s
  | [] => true
  end.

Definition json_number (tok : jsstring) : bool :=
  let t := match tok with
           | c :: r => if is_char "-" c then r else tok
           | [] => []
           end in
  match t with
  | c :: r =>
      if is_char "0" c then json_fraction r
      else is_digit c && json_fraction (snd (span is_digit r))
  | [] => false
  end.

Definition hex4 (a b c d : jschar) : option jschar :=
  match digit_of 16 a, digit_of 16 b, digit_of 16 c, digit_of 16 d with
  | Some x, Some y, Some z, Some w => Some (x * 4096 + y * 256 + z * 16 + w)%N
  | _, _, _, _ => None
  end.

Definition simple_escape (e : jschar) : option jschar :=
  if (e =? 34)%N then Some 34%N
  else if is_char "\" e then Some (ch "\")
  else if is_char "/" e then Some (ch "/")
  else if is_char "b" e then Some 8%N
  else if is_char "f" e then Some 12%N
  else if is_char "n" e then Some 10%N
  else if is_char "r" e then Some 13%N
  else if is_char "t" e then Some 9%N
  else None.

Definition consed (c : jschar) (r : option (jsstring * jsstring)) :
  option (jsstring * jsstring) :=
  match r with
  | Some (str, rest) => Some (c :: str, rest)
  | None => None
  end.

(** A JSON string after its opening quote: the characters and what follows
    the closing quote. *)
Fixpoint parse_string (s : jsstring) : option (jsstring * jsstring) :=
  match s with
  | [] => None
  | c :: r =>
      if (c =? 34)%N then Some ([], r)
      else if is_char "\" c then
        match r with
        | [] => None
        | e :: r1 =>
            if is_char "u" e then
              match r1 with
              | h1 :: h2 :: h3 :: h4 :: r2 =>
                  match hex4 h1 h2 h3 h4 with
                  | Some u => consed u (parse_string r2)
                  | None => None
                  end
              | _ => None
              end
            else
              match simple_escape e with
              | Some u => consed u (parse_string r1)
              | None => None
              end
        end
      else if (c <? 32)%N then None
      else consed c (parse_string r)
  end.

Fixpoint strip_prefix (p s : jsstring) : option jsstring :=
  match p, s with
  | [], _ => Some s
  | a :: p', b :: s' => if (a =? b)%N then strip_prefix p' s' else None
  | _ :: _, [] => None
  end.

(** Own property keys are ordered: array indices ascending, then the other
    keys in the order of their creation. *)
Fixpoint replace_prop (k : jsstring) (v : jsvalue) (props : list (jsstring * jsvalue)) :=
  match props with
  | [] => []
  | (k', v') :: rest =>
      if jsstring_eqb k k' then (k', v) :: rest
      else (k', v') :: replace_prop k v rest
  end.

Fixpoint insert_index (i : N) (k : jsstring) (v : jsvalue) (props : list (jsstring * jsvalue)) :=
  match props with
  | [] => [(k, v)]
  | (k', v') :: rest =>
      match array_index k' with
      | Some j =>
          if (j <? i)%N then (k', v') :: insert_index i k v rest
          else (k, v) :: props
      | None => (k, v) :: props
      end
  end.

(** [CreateDataProperty] on an ordinary object. *)
Definition CreateDataProperty (props : list (jsstring * jsvalue)) (kv : jsstring * jsvalue) :=
  let (k, v) := kv in
  if has_own k props then replace_prop k v props
  else match array_index k with
       | Some i => insert_index i k v props
       | None => props ++ [(k, v)]
       end.

Definition literal_or_number (s : jsstring) : parsed jsvalue :=
  match strip_prefix (lit "null") s, strip_prefix (lit "true") s,
        strip_prefix (lit "false") s with
  | Some rest, _, _ => Parsed VNull rest
  | _, Some rest, _ => Parsed (VBool true) rest
  | _, _, Some rest => Parsed (VBool false) rest
  | _, _, _ =>
      let (tok, rest) := span is_number_char s in
      if json_number tok then Parsed (VNum (Number_ofLiteral tok)) rest
      else Malformed
  end.

Fixpoint parse_value (fuel : nat) (s : jsstring) : parsed jsvalue :=
  match fuel with
  | O => Exhausted
  | S f =>
      match skip_ws s with
      | [] => Malformed
      | c :: r =>
          if is_char "{" c then
            match skip_ws r with
            | [] => Malformed
            | c' :: r' =>
                if is_char "}" c' then Parsed (VObj []) r'
                else
                  match parse_members f (c' :: r') with
                  | Parsed ms rest =>
                      Parsed (VObj (fold_left CreateDataProperty ms [])) rest
                  | Malformed => Malformed
                  | Exhausted => Exhausted
                  end
            end
          else if is_char "[" c then
            match skip_ws r with
            | [] => Malformed
            | c' :: r' =>
                if is_char "]" c' then Parsed (VArr []) r'
                else
                  match parse_elements f (c' :: r') with
                  | Parsed vs rest => Parsed (VArr vs) rest
                  | Malformed => Malformed
                  | Exhausted => Exhausted
                  end
            end
          else if (c =? 34)%N then
            match parse_string r with
            | Some (str, rest) => Parsed (VStr str) rest
            | None => Malformed
            end
          else literal_or_number (c :: r)
      end
  end
with parse_elements (fuel : nat) (s : jsstring) : parsed (list jsvalue) :=
  match fuel with
  | O => Exhausted
  | S f =>
      match parse_value f s with
      | Parsed v r =>
          match skip_ws r with
          | [] => Malformed
          | c :: r' =>
              if is_char "," c then
                match parse_elements f r' with
                | Parsed vs rest => Parsed (v :: vs) rest
                | other => other
                end
              else if is_char "]" c then Parsed [v] r'
              else Malformed
          end
      | Malformed => Malformed
      | Exhausted => Exhausted
      end
  end
with parse_members (fuel : nat) (s : jsstring) : parsed (list (jsstring * jsvalue)) :=
  match fuel with
  | O => Exhausted
  | S f =>
      match skip_ws s with
      | [] => Malformed
      | q :: r0 =>
          if (q =? 34)%N then
            match parse_string r0 with
            | None => Malformed
            | Some (k, r1) =>
                match skip_ws r1 with
                | [] => Malformed
                | colon :: r2 =>
                    if is_char ":" colon then
                      match parse_value f r2 with
                      | Parsed v r3 =>
                          match skip_ws r3 with
                          | [] => Malformed
                          | c :: r4 =>
                              if is_char "," c then
                                match parse_members f r4 with
                                | Parsed ms rest => Parsed ((k, v) :: ms) rest
                                | other => other
                                end
                              else if is_char "}" c then Parsed [(k, v)] r4
                              else Malformed
                          end
                      | Malformed => Malformed
                      | Exhausted => Exhausted
                      end
                    else Malformed
                end
            end
          else Malformed
      end
  end.

(** The JSON text as a value, before any reviver: one value, white space
    around it, nothing else. *)
Definition parse_text (text : jsstring) : parsed jsvalue :=
  match parse_value (2 * length text + 1) text with
  | Parsed v rest =>
      match skip_ws rest with
      | [] => Parsed v []
      | _ :: _ => Malformed
      end
  | other => other
  end.

(** ** JSON.parse with a reviver *)

(** [InternalizeJSONProperty]: the members first, in key order, each
    replaced by its revived form (or removed when that is [undefined]; in
    an array this leaves a hole, which reads as [undefined]); then the
    reviver on the node itself. *)
Fixpoint InternalizeJSONProperty (reviver : jsstring -> jsvalue -> result jsvalue)
    (name : jsstring) (val : jsvalue) : result jsvalue :=
  match val with
  | VArr elems =>
      elems' <-
        (fix walk (i : nat) (l : list jsvalue) : result (list jsvalue) :=
           match l with
           | [] => Ok []
           | e :: rest =>
               e' <- InternalizeJSONProperty reviver (index_key i) e ;;
               rest' <- walk (S i) rest ;;
               Ok (e' :: rest')
           end) 0 elems ;;
      reviver name (VArr elems')
  | VObj props =>
      props' <-
        (fix walk (l : list (jsstring * jsvalue)) : result (list (jsstring * jsvalue)) :=
           match l with
           | [] => Ok []
           | (k, e) :: rest =>
               e' <- InternalizeJSONProperty reviver k e ;;
               rest' <- walk rest ;;
               Ok (match e' with
                   | VUndefined => rest'
                   | _ => (k, e') :: rest'
                   end)
           end) props ;;
      reviver name (VObj props')
  | _ => reviver name val
  end.

Definition stack_exceeded : error :=
  RangeError (lit "Maximum call stack size exceeded").

Definition JSON_parse (text : jsstring)
    (reviver : jsstring -> jsvalue -> result jsvalue) : result jsvalue :=
  match parse_text text with
  | Parsed unfiltered _ => InternalizeJSONProperty reviver [] unfiltered
  | Malformed => Throw (SyntaxError (JSON_parse_message text))
  | Exhausted => Throw stack_exceeded
  end.

(** ** JSON.stringify with a replacer function *)

Definition somes {A} (l : list (option A)) : list A :=
  flat_map (fun o => match o with Some a => [a] | None => [] end) l.

(** [SerializeJSONObject] and [SerializeJSONArray], given the serializer
    of a property of the holder. *)
Definition SerializeJSONObject
    (property : jsstring -> jsvalue -> result (option jsstring))
    (value : jsvalue) : result (option jsstring) :=
  partial <- sequence
    (map (fun P =>
            strP <- property P value ;;
            Ok (option_map (fun str => QuoteJSONString P ++ lit ":" ++ str) strP))
         (Object_keys value)) ;;
  Ok (Some (lit "{" ++ join (lit ",") (somes partial) ++ lit "}")).

Definition SerializeJSONArray
    (property : jsstring -> jsvalue -> result (option jsstring))
    (value : jsvalue) : result (option jsstring) :=
  partial <- sequence
    (map (fun P =>
            strP <- property P value ;;
            Ok (match strP with Some str => str | None => lit "null" end))
         (Object_keys value)) ;;
  Ok (Some (lit "[" ++ join (lit ",") partial ++ lit "]")).

(** [SerializeJSONProperty]: read the property, let a [Date] answer through
    its [toJSON], hand holder, key and value to the replacer, and write out
    what comes back.  [fuel] bounds the depth of the recursion. *)
Fixpoint SerializeJSONProperty (fuel : nat)
    (replacer : jsvalue -> jsstring -> jsvalue -> result jsvalue)
    (key : jsstring) (holder : jsvalue) : result (option jsstring) :=
  match fuel with
  | O => Throw stack_exceeded
  | S f =>
      let value := Get holder key in
      value <- match value with
               | VDate t => Date_toJSON t
               | _ => Ok value
               end ;;
      value <- replacer holder key value ;;
      match value with
      | VUndefined => Ok None
      | VNull => Ok (Some (lit "null"))
      | VBool b => Ok (Some (if b then lit "true" else lit "false"))
      | VStr s => Ok (Some (QuoteJSONString s))
      | VNum n =>
          Ok (Some (if Number_isFinite n then Number_toString n else lit "null"))
      | VBigInt _ => Throw (TypeError (lit "Do not know how to serialize a BigInt"))
      | VArr _ => SerializeJSONArray (SerializeJSONProperty f replacer) value
      | VDate _ | VObj _ => SerializeJSONObject (SerializeJSONProperty f replacer) value
      end
  end.

Definition JSON_stringify (fuel : nat) (value : jsvalue)
    (replacer : jsvalue -> jsstring -> jsvalue -> result jsvalue) : result (option jsstring) :=
  SerializeJSONProperty fuel replacer [] (VObj [([], value)]).

(** ** utils.ts *)

(** [new Uint8Array(length)]: zeros. *)
Definition Uint8Array_new (length : nat) : Uint8Array := repeat x00 length.

(** [target.set(source, offset)]: the target with the source copied in at
    the offset; a RangeError when the source does not fit. *)
Definition Uint8Array_set (target source : Uint8Array) (offset : nat) :
  result Uint8Array :=
  if length source + offset <=? length target then
    Ok (firstn offset target ++ source ++ skipn (offset + length source) target)
  else Throw (RangeError (lit "offset is out of bounds")).

Definition concat (array1 array2 : Uint8Array) : result Uint8Array :=
  let mergedArray := Uint8Array_new (length array1 + length array2) in
  mergedArray <- Uint8Array_set mergedArray array1 0 ;;
  mergedArray <- Uint8Array_set mergedArray array2 (length array1) ;;
  Ok mergedArray.

Definition encode (s : jsstring) : Uint8Array := utf8_string_to_uint8array s.
Definition decode (a : Uint8Array) : jsstring := uint8array_to_utf8_string a.
Definition bytes (s : jsstring) : Uint8Array := latin1_string_to_uint8array s.
Definition str (a : Uint8Array) : jsstring := uint8array_to_latin1_string a.

(** [class TextEncoder] *)
Definition TextEncoder_encode (s : jsstring) : Uint8Array := utf8_string_to_uint8array s.

(** [class TextDecoder]: the constructor, whose argument defaults to
    ["utf-8"], and [decode]. *)
Record TextDecoder : Type := { encoding : jsstring }.

Definition new_TextDecoder (encoding : option jsstring) : TextDecoder :=
  {| encoding := match encoding with Some e => e | None => lit "utf-8" end |}.

Definition TextDecoder_decode (this : TextDecoder) (a : Uint8Array) : result jsstring :=
  if jsstring_eqb (encoding this) (lit "utf-8") then Ok (uint8array_to_utf8_string a)
  else if jsstring_eqb (encoding this) (lit "latin1") then Ok (uint8array_to_latin1_string a)
  else Throw (Error (lit "unsupported encoding: " ++ encoding this)).

(** The replacer of [serialize]; [this] is the holder of the property. *)
Definition replacer (this : jsvalue) (key : jsstring) (value : jsvalue) : result jsvalue :=
  match value with
  | VBigInt z =>
      Ok (VObj [(lit "value", VStr (BigInt_toString z));
                (TYPE_KEY, VStr TypeBrand.BIGINT)])
  | _ =>
      match Get this key with
      | VDate t =>
          iso <- toISOString t ;;
          Ok (VObj [(lit "value", VStr iso); (TYPE_KEY, VStr TypeBrand.DATE)])
      | _ => Ok value
      end
  end.

(** How deep [JSON.stringify] descends into a value under [replacer]: an
    envelope adds one level. *)
Fixpoint value_depth (v : jsvalue) : nat :=
  match v with
  | VArr elems => S (fold_right (fun e d => Nat.max (value_depth e) d) 0 elems)
  | VObj props => S (fold_right (fun kv d => Nat.max (value_depth (snd kv)) d) 0 props)
  | VBigInt _ | VDate _ => 1
  | _ => 0
  end.

Definition serialize (valueToSerialize : jsvalue) : result Uint8Array :=
  text <- JSON_stringify (S (value_depth valueToSerialize)) valueToSerialize replacer ;;
  match text with
  | Some s => Ok (encode s)
  | None => utf8_undefined_to_uint8array
  end.

Definition includes (l : list jsstring) (k : jsstring) : bool :=
  existsb (jsstring_eqb k) l.

(** [v === s] for a string [s], as the [switch] of the reviver compares. *)
Definition is_string (s : jsstring) (v : jsvalue) : bool :=
  match v with
  | VStr s' => jsstring_eqb s' s
  | _ => false
  end.

Definition is_null (v : jsvalue) : bool :=
  match v with VNull => true | _ => false end.

(** The test of the reviver of [deserialize]. *)
Definition envelope_shaped (value : jsvalue) : bool :=
  negb (is_null value)
  && jsstring_eqb (typeof value) (lit "object")
  && (length (Object_keys value) =? 2)
  && forallb (fun key => includes [lit "value"; TYPE_KEY] key) (Object_keys value).

Definition reviver (_ : jsstring) (value : jsvalue) : result jsvalue :=
  if envelope_shaped value then
    let tag := Get value TYPE_KEY in
    if is_string TypeBrand.BIGINT tag then BigInt (Get value (lit "value"))
    else if is_string TypeBrand.DATE tag then new_Date (Get value (lit "value"))
    else Ok value
  else Ok value.

Definition deserialize (valueToDeserialize : Uint8Array) : result jsvalue :=
  JSON_parse (decode valueToDeserialize) reviver.

(** [GetOptions] of types/collections, as the facade reads it: an absent
    [defaultValue] reads as [undefined], an absent function as [None]. *)
Record GetOptions : Type := {
  reconstructor : option (jsvalue -> result jsvalue);
  defaultValue : jsvalue;
  serializer : option (jsvalue -> result Uint8Array);
  deserializer : option (Uint8Array -> result jsvalue);
}.

(** What a call of the facade did: the arguments it handed to the
    reconstructor, in order, and what it returned or threw. *)
Record outcome : Type := {
  reconstructed : list jsvalue;
  returned : result jsvalue;
}.

(** [value] is [None] for [null]; [options] is [None] when the argument is
    left out, and the default of the parameter takes its place. *)
Definition getValueWithOptions (value : option Uint8Array)
    (options : option GetOptions) : outcome :=
  let options :=
    match options with
    | Some o => o
    | None => {| reconstructor := None; defaultValue := VUndefined;
                 serializer := None; deserializer := Some deserialize |}
    end in
  match value with
  | None => {| reconstructed := []; returned := Ok (nullish (defaultValue options) VNull) |}
  | Some value =>
      match deserialize value with
      | Throw e => {| reconstructed := []; returned := Throw e |}
      | Ok deserialized =>
          match deserialized with
          | VUndefined | VNull =>
              {| reconstructed := [];
                 returned := Ok (nullish (defaultValue options) VNull) |}
          | _ =>
              match reconstructor options with
              | Some reconstruct =>
                  {| reconstructed := [deserialized];
                     returned := reconstruct deserialized |}
              | None => {| reconstructed := []; returned := Ok deserialized |}
              end
          end
      end
  end.

(** The parameter is destructured: with the argument left out the default
    [{ serializer: serialize }] is taken apart, otherwise the argument. *)
Definition serializeValueWithOptions (value : jsvalue)
    (options : option GetOptions) : result Uint8Array :=
  let serializer :=
    match options with
    | Some o => serializer o
    | None => Some serialize
    end in
  match serializer with
  | Some f => f value
  | None => Throw (TypeError (lit "serializer is not a function"))
  end.

(** The options object [{}]. *)
Definition no_options : GetOptions :=
  {| reconstructor := None; defaultValue := VUndefined;
     serializer := None; deserializer := None |}.

Definition with_deserializer (d : option (Uint8Array -> result jsvalue))
    (o : GetOptions) : GetOptions :=
  {| reconstructor := reconstructor o; defaultValue := defaultValue o;
     serializer := serializer o; deserializer := d |}.

(** The mapping [{ "value": v, "typeInfo": tag }]. *)
Definition envelope (v : jsvalue) (tag : jsvalue) : jsvalue :=
  VObj [(lit "value", v); (TYPE_KEY, tag)].

(** A plain mapping that has the shape of an envelope. *)
Definition envelope_like : jsvalue :=
  envelope (VStr (lit "5")) (VStr (lit "bigint")).

(** ** The values of the round trip *)

(** A key may follow the keys [before] it in the order of own properties:
    it is new, and an array index follows smaller array indices only. *)
Definition key_fits (before : list jsstring) (k : jsstring) : bool :=
  negb (includes before k)
  && match array_index k with
     | Some i =>
         forallb (fun k' => match array_index k' with
                            | Some j => (j <? i)%N
                            | None => false
                            end) before
     | None => true
     end.

Fixpoint own_order (before keys : list jsstring) : bool :=
  match keys with
  | [] => true
  | k :: rest => key_fits before k && own_order (before ++ [k]) rest
  end.

(** The values built from null, booleans, numbers, strings, big integers,
    timestamps, arrays and mappings, with a condition on the numbers, on
    the timestamps and on the mappings. *)
Unset Elimination Schemes.
Inductive built (num_ok : number -> Prop) (big_ok : Z -> Prop)
    (date_ok : option Z -> Prop)
    (obj_ok : list (jsstring * jsvalue) -> Prop) : jsvalue -> Prop :=
| built_null : built num_ok big_ok date_ok obj_ok VNull
| built_bool b : built num_ok big_ok date_ok obj_ok (VBool b)
| built_num n : num_ok n -> built num_ok big_ok date_ok obj_ok (VNum n)
| built_str s : built num_ok big_ok date_ok obj_ok (VStr s)
| built_bigint z : big_ok z -> built num_ok big_ok date_ok obj_ok (VBigInt z)
| built_date t : date_ok t -> built num_ok big_ok date_ok obj_ok (VDate t)
| built_arr elems :
    (N.of_nat (length elems) <= 4294967295)%N ->
    Forall (built num_ok big_ok date_ok obj_ok) elems ->
    built num_ok big_ok date_ok obj_ok (VArr elems)
| built_obj props :
    own_order [] (map fst props) = true ->
    obj_ok props ->
    Forall (fun kv => built num_ok big_ok date_ok obj_ok (snd kv)) props ->
    built num_ok big_ok date_ok obj_ok (VObj props).
Set Elimination Schemes.

(** The supported values of the specification. *)
Definition supported : jsvalue -> Prop :=
  built (fun _ => True) (fun _ => True) (fun _ => True) (fun _ => True).

(** A mapping that the reviver converts: of the envelope shape, with one
    of the two tags. *)
Definition tagged (v : jsvalue) : bool :=
  envelope_shaped v
  && (is_string TypeBrand.BIGINT (Get v TYPE_KEY)
      || is_string TypeBrand.DATE (Get v TYPE_KEY)).

(** A number that JSON text carries: finite, written as a JSON number
    token, and denoted by that token (every finite number but the negative
    zero, which is written as [0]). *)
Definition number_exact (n : number) : Prop :=
  Number_isFinite n = true
  /\ json_number (Number_toString n) = true
  /\ Number_ofLiteral (Number_toString n) = n.

(** A valid timestamp, which [Date.parse] reads back from its ISO form. *)
Definition date_exact (t : option Z) : Prop :=
  exists z, t = Some z
            /\ (Z.abs z <= 8640000000000000)%Z
            /\ Date_parse (Date_toISOString z) = Some z.

(** The supported values that survive the round trip: exact numbers, valid
    timestamps, and no mapping that the reviver converts. *)
Definition exact : jsvalue -> Prop :=
  built number_exact (fun _ => True) date_exact
    (fun props => tagged (VObj props) = false).

(** The values that JSON text denotes. *)
Definition textual : jsvalue -> Prop :=
  built number_exact (fun _ => False) (fun _ => False) (fun _ => True).

(** What may follow a value in JSON text, as far as a number token is
    concerned. *)
Definition delimited (rest : jsstring) : Prop :=
  match rest with
  | [] => True
  | c :: _ => is_number_char c = false
  end.

(** The value as [JSON.stringify] hands it to the text, envelopes in the
    place of big integers and timestamps. *)
Fixpoint tagged_form (v : jsvalue) : jsvalue :=
  match v with
  | VBigInt z => envelope (VStr (BigInt_toString z)) (VStr TypeBrand.BIGINT)
  | VDate (Some t) => envelope (VStr (Date_toISOString t)) (VStr TypeBrand.DATE)
  | VArr elems => VArr (map tagged_form elems)
  | VObj props => VObj (map (fun kv => (fst kv, tagged_form (snd kv))) props)
  | _ => v
  end.

(** The JSON text of a value without envelopes to add. *)
Fixpoint json_text (v : jsvalue) : jsstring :=
  match v with
  | VNull => lit "null"
  | VBool b => if b then lit "true" else lit "false"
  | VNum n => Number_toString n
  | VStr s => QuoteJSONString s
  | VArr elems => lit "[" ++ join (lit ",") (map json_text elems) ++ lit "]"
  | VObj props =>
      lit "{"
      ++ join (lit ",")
           (map (fun kv => QuoteJSONString (fst kv) ++ lit ":" ++ json_text (snd kv)) props)
      ++ lit "}"
  | VUndefined | VBigInt _ | VDate _ => []
  end.

(** The first character of the text of a value. *)
Definition value_head (s : jsstring) : Prop :=
  match s with
  | c :: _ => is_json_ws c = false /\ is_char "]" c = false /\ is_char "}" c = false
  | [] => False
  end.

(** The text of a member of a mapping. *)
Definition member_text (kv : jsstring * jsvalue) : jsstring :=
  QuoteJSONString (fst kv) ++ lit ":" ++ json_text (snd kv).

(** Reading the text of a value gives the value and leaves the rest. *)
Definition parses (t : jsvalue) : Prop :=
  textual t
  /\ forall fuel rest,
       2 * length (json_text t) + 1 <= fuel -> delimited rest ->
       parse_value fuel (json_text t ++ rest) = Parsed t rest.

(** Writing a property that holds the value gives its text. *)
Definition writes (v : jsvalue) : Prop :=
  forall fuel key holder,
    value_depth v < fuel -> Get holder key = v ->
    SerializeJSONProperty fuel replacer key holder
    = Ok (Some (json_text (tagged_form v))).

(** ** Further notions *)

(** The host codec returns the text of the value unchanged. *)
Definition codec_carries (v : jsvalue) : Prop :=
  forall text,
    JSON_stringify (S (value_depth v)) v replacer = Ok (Some text) ->
    decode (encode text) = text.

(** An invalid [Date] somewhere in the value. *)
Fixpoint has_invalid_date (v : jsvalue) : bool :=
  match v with
  | VDate None => true
  | VArr elems => existsb has_invalid_date elems
  | VObj props => existsb (fun kv => has_invalid_date (snd kv)) props
  | _ => false
  end.

Definition invalid_time : error := RangeError (lit "Invalid time value").

(** The values that parsing JSON text gives. *)
Unset Elimination Schemes.
Inductive json_value : jsvalue -> Prop :=
| json_null : json_value VNull
| json_bool b : json_value (VBool b)
| json_num n : json_value (VNum n)
| json_str s : json_value (VStr s)
| json_arr elems : Forall json_value elems -> json_value (VArr elems)
| json_obj props :
    Forall (fun kv => json_value (snd kv)) props -> json_value (VObj props).
Set Elimination Schemes.

(** No mapping in the value is one that the reviver converts. *)
Fixpoint no_tagged (v : jsvalue) : bool :=
  match v with
  | VArr elems => forallb no_tagged elems
  | VObj props =>
      negb (tagged (VObj props)) && forallb (fun kv => no_tagged (snd kv)) props
  | _ => true
  end.

(** Exactly two keys, both among ["value"] and ["typeInfo"]: the shape of
    an envelope in the words of the specification. *)
Definition envelope_keys (props : list (jsstring * jsvalue)) : Prop :=
  length props = 2
  /\ Forall (fun kv => fst kv = lit "value" \/ fst kv = TYPE_KEY) props.

(** The members of a mapping after the bottom-up pass of [JSON.parse]:
    the same keys, each value revived. *)
Definition members_revived (props revived : list (jsstring * jsvalue)) : Prop :=
  Forall2 (fun kv kv' =>
             fst kv' = fst kv
             /\ InternalizeJSONProperty reviver (fst kv) (snd kv) = Ok (snd kv'))
    props revived.

(** The node of a value at the end of a path of keys. *)
Definition at_path (t : jsvalue) (path : list jsstring) : jsvalue :=
  fold_left Get path t.

(** No node above the end of the path is a mapping that the reviver
    converts. *)
Fixpoint enclosed_plainly (t : jsvalue) (path : list jsstring) : bool :=
  match path with
  | [] => true
  | k :: rest => negb (tagged t) && enclosed_plainly (Get t k) rest
  end.

(** The outcome of decoding the node at a path of the text of the bytes:
    what [deserialize] returns or throws where the node is the whole
    text, and, where [deserialize] returns, the node at the path of its
    result. *)
Definition decoded_at (b : Uint8Array) (path : list jsstring)
    (outcome : result jsvalue) : Prop :=
  (path = [] -> deserialize b = outcome)
  /\ (forall r, deserialize b = Ok r -> outcome = Ok (at_path r path)).

(** A character that a JSON string holds as it is. *)
Definition plain_char (c : jschar) : bool :=
  (32 <=? c)%N && negb (c =? 34)%N && negb (c =? 92)%N && (c <? 55296)%N.

(** The characters of account identifiers, and those between two runs of
    letters and digits. *)
Definition cls_account (c : jschar) : bool :=
  cls_lower_digit c || cls_hyphen_underscore c || cls_dot c.

Definition cls_separator (c : jschar) : bool :=
  cls_hyphen_underscore c || cls_dot c.

End Utils.

(** ** A reference host and engine

    One host and one engine, for running the functions on examples.  The
    host codec is UTF-8 (an unpaired surrogate becomes U+FFFD) and Latin-1.
    The numbers of the engine are the whole numbers, the negative zero, NaN
    and the infinities; a whole number is written out in full, and a token
    with a fraction or an exponent is read as NaN.  Dates follow the
    proleptic Gregorian calendar in UTC; [Date.parse] reads the date-time
    format of ECMA-262 and answers NaN on anything else. *)

Module Reference.

Definition byte_of (n : N) : byte :=
  match Byte.of_N n with
  | Some b => b
  | None => x00
  end.

Definition replacement : list N := [239; 191; 189]%N.

Fixpoint utf8_encode (s : jsstring) : list N :=
  match s with
  | [] => []
  | c :: r =>
      if is_high_surrogate c then
        match r with
        | l :: r' =>
            if is_low_surrogate l then
              let cp := (65536 + (c - 55296) * 1024 + (l - 56320))%N in
              [240 + cp / 262144; 128 + cp / 4096 mod 64;
               128 + cp / 64 mod 64; 128 + cp mod 64]%N ++ utf8_encode r'
            else replacement ++ utf8_encode r
        | [] => replacement
        end
      else if is_low_surrogate c then replacement ++ utf8_encode r
      else if (c <? 128)%N then c :: utf8_encode r
      else if (c <? 2048)%N then [192 + c / 64; 128 + c mod 64]%N ++ utf8_encode r
      else [224 + c / 4096; 128 + c / 64 mod 64; 128 + c mod 64]%N ++ utf8_encode r
  end.

Definition continuation (b : N) : bool := ((128 <=? b) && (b <? 192))%N.

Fixpoint utf8_decode (b : list N) : jsstring :=
  match b with
  | [] => []
  | b0 :: r =>
      if (b0 <? 128)%N then b0 :: utf8_decode r
      else if ((194 <=? b0) && (b0 <? 224))%N then
        match r with
        | b1 :: r' =>
            if continuation b1
            then ((b0 - 192) * 64 + (b1 - 128))%N :: utf8_decode r'
            else 65533%N :: utf8_decode r
        | _ => 65533%N :: utf8_decode r
        end
      else if ((224 <=? b0) && (b0 <? 240))%N then
        match r with
        | b1 :: b2 :: r' =>
            let cp := ((b0 - 224) * 4096 + (b1 - 128) * 64 + (b2 - 128))%N in
            if continuation b1 && continuation b2 && (2048 <=? cp)%N
               && negb (is_high_surrogate cp || is_low_surrogate cp)
            then cp :: utf8_decode r'
            else 65533%N :: utf8_decode r
        | _ => 65533%N :: utf8_decode r
        end
      else if ((240 <=? b0) && (b0 <? 245))%N then
        match r with
        | b1 :: b2 :: b3 :: r' =>
            let cp := ((b0 - 240) * 262144 + (b1 - 128) * 4096
                       + (b2 - 128) * 64 + (b3 - 128))%N in
            if continuation b1 && continuation b2 && continuation b3
               && (65536 <=? cp)%N && (cp <? 1114112)%N
            then (55296 + (cp - 65536) / 1024)%N
                 :: (56320 + (cp - 65536) mod 1024)%N :: utf8_decode r'
            else 65533%N :: utf8_decode r
        | _ => 65533%N :: utf8_decode r
        end
      else 65533%N :: utf8_decode r
  end.

#[export] Instance host : Env := {|
  uint8array_to_latin1_string a := map Byte.to_N a;
  uint8array_to_utf8_string a := utf8_decode (map Byte.to_N a);
  latin1_string_to_uint8array s := map (fun c => byte_of (c mod 256)) s;
  utf8_string_to_uint8array s := map byte_of (utf8_encode s);
|}.

Inductive ref_number : Type :=
| RInt (z : Z)
| RNegZero
| RNaN
| RInf (negative : bool).

Definition ref_ofLiteral (tok : jsstring) : ref_number :=
  match tok with
  | [] => RNaN
  | c :: r =>
      if is_char "-" c then
        match parse_digits 10 r with
        | Some 0%N => RNegZero
        | Some n => RInt (- Z.of_N n)
        | None => RNaN
        end
      else
        match parse_digits 10 tok with
        | Some n => RInt (Z.of_N n)
        | None => RNaN
        end
  end.

Definition ref_toString (n : ref_number) : jsstring :=
  match n with
  | RInt z => BigInt_toString z
  | RNegZero => lit "0"
  | RNaN => lit "NaN"
  | RInf negative => if negative then lit "-Infinity" else lit "Infinity"
  end.

(** The calendar: day numbers count from 1 January 1970. *)
Definition civil_from_days (day : Z) : Z * Z * Z :=
  let z := (day + 719468)%Z in
  let era := (z / 146097)%Z in
  let doe := (z - era * 146097)%Z in
  let yoe := ((doe - doe / 1460 + doe / 36524 - doe / 146096) / 365)%Z in
  let doy := (doe - (365 * yoe + yoe / 4 - yoe / 100))%Z in
  let mp := ((5 * doy + 2) / 153)%Z in
  let d := (doy - (153 * mp + 2) / 5 + 1)%Z in
  let m := (if mp <? 10 then mp + 3 else mp - 9)%Z in
  let y := (yoe + era * 400 + (if m <=? 2 then 1 else 0))%Z in
  (y, m, d).

Definition days_from_civil (y m d : Z) : Z :=
  let y' := (if m <=? 2 then y - 1 else y)%Z in
  let era := (y' / 400)%Z in
  let yoe := (y' - era * 400)%Z in
  let mp := (if 2 <? m then m - 3 else m + 9)%Z in
  let doy := ((153 * mp + 2) / 5 + d - 1)%Z in
  let doe := (yoe * 365 + yoe / 4 - yoe / 100 + doy)%Z in
  (era * 146097 + doe - 719468)%Z.

Definition days_in_month (y m : Z) : Z :=
  (days_from_civil (if m =? 12 then y + 1 else y) (if m =? 12 then 1 else m + 1) 1
   - days_from_civil y m 1)%Z.

(** [n] in decimal, with zeros in front up to [width] digits. *)
Definition padded (width : nat) (n : Z) : jsstring :=
  let ds := decimal_of_N (Z.to_N n) in
  repeat (ch "0") (width - length ds) ++ ds.

Definition year_text (y : Z) : jsstring :=
  if ((0 <=? y) && (y <=? 9999))%Z then padded 4 y
  else (if (y <? 0)%Z then ch "-" else ch "+") :: padded 6 (Z.abs y).

Definition clock_text (ms : Z) : jsstring :=
  padded 2 (ms / 3600000) ++ lit ":" ++ padded 2 (ms / 60000 mod 60)
  ++ lit ":" ++ padded 2 (ms / 1000 mod 60).

Definition ref_toISOString (t : Z) : jsstring :=
  let '(y, m, d) := civil_from_days (t / 86400000) in
  let ms := (t mod 86400000)%Z in
  year_text y ++ lit "-" ++ padded 2 m ++ lit "-" ++ padded 2 d ++ lit "T"
  ++ clock_text ms ++ lit "." ++ padded 3 (ms mod 1000) ++ lit "Z".

(** Exactly [n] digits at the head of the text. *)
Fixpoint fixed_digits (n : nat) (s : jsstring) (acc : Z) : option (Z * jsstring) :=
  match n with
  | O => Some (acc, s)
  | S n' =>
      match s with
      | c :: r =>
          if is_digit c then fixed_digits n' r (10 * acc + Z.of_N (c - ch "0"))
          else None
      | [] => None
      end
  end.

(** The character, if the text starts with it. *)
Definition expect (a : string) (s : jsstring) : option jsstring :=
  match s with
  | c :: r => if is_char a c then Some r else None
  | [] => None
  end.

Definition parse_year (s : jsstring) : option (Z * jsstring) :=
  match s with
  | c :: r =>
      if is_char "+" c then fixed_digits 6 r 0
      else if is_char "-" c then
        match fixed_digits 6 r 0 with
        | Some (0%Z, _) => None
        | Some (y, rest) => Some ((- y)%Z, rest)
        | None => None
        end
      else fixed_digits 4 s 0
  | [] => None
  end.

(** An optional field behind a separator; the default when the text does
    not go on with the separator. *)
Definition optional_field (sep : string) (width : nat) (default : Z)
    (s : jsstring) : option (Z * jsstring) :=
  match expect sep s with
  | Some r => fixed_digits width r 0
  | None => Some (default, s)
  end.

(** The time of day in milliseconds, after the [T]. *)
Definition parse_clock (s : jsstring) : option (Z * jsstring) :=
  match fixed_digits 2 s 0 with
  | Some (h, s1) =>
      match expect ":" s1 with
      | Some s2 =>
          match fixed_digits 2 s2 0 with
          | Some (mi, s3) =>
              match optional_field ":" 2 0 s3 with
              | Some (sec, s4) =>
                  match optional_field "." 3 0 s4 with
                  | Some (ms, s5) =>
                      if ((h <=? 23) && (mi <=? 59) && (sec <=? 59))%Z
                         || ((h =? 24) && (mi =? 0) && (sec =? 0) && (ms =? 0))%Z
                      then Some ((h * 3600000 + mi * 60000 + sec * 1000 + ms)%Z, s5)
                      else None
                  | None => None
                  end
              | None => None
              end
          | None => None
          end
      | None => None
      end
  | None => None
  end.

(** The offset from UTC in milliseconds: [Z], or a sign, hours and
    minutes; local time, which is UTC here, without any. *)
Definition parse_offset (s : jsstring) : option Z :=
  match s with
  | [] => Some 0%Z
  | c :: r =>
      if is_char "Z" c then match r with [] => Some 0%Z | _ => None end
      else if is_char "+" c || is_char "-" c then
        match fixed_digits 2 r 0 with
        | Some (h, r1) =>
            match expect ":" r1 with
            | Some r2 =>
                match fixed_digits 2 r2 0 with
                | Some (mi, []) =>
                    if ((h <=? 23) && (mi <=? 59))%Z then
                      Some ((if is_char "-" c then -1 else 1) * (h * 3600000 + mi * 60000))%Z
                    else None
                | _ => None
                end
            | None => None
            end
        | None => None
        end
      else None
  end.

Definition ref_Date_parse (s : jsstring) : option Z :=
  match parse_year s with
  | Some (y, s1) =>
      match optional_field "-" 2 1 s1 with
      | Some (m, s2) =>
          match optional_field "-" 2 1 s2 with
          | Some (d, s3) =>
              if ((1 <=? m) && (m <=? 12) && (1 <=? d) && (d <=? days_in_month y m))%Z then
                let day := days_from_civil y m d in
                match expect "T" s3 with
                | Some s4 =>
                    match parse_clock s4 with
                    | Some (ms, s5) =>
                        match parse_offset s5 with
                        | Some off => Some (day * 86400000 + ms - off)%Z
                        | None => None
                        end
                    | None => None
                    end
                | None =>
                    match s3 with
                    | [] => Some (day * 86400000)%Z
                    | _ => None
                    end
                end
              else None
          | None => None
          end
      | None => None
      end
  | None => None
  end.

Definition three_letters (names : string) (i : Z) : jsstring :=
  firstn 3 (skipn (3 * Z.to_nat i) (lit names)).

Definition ref_Date_toString (t : option Z) : jsstring :=
  match t with
  | None => lit "Invalid Date"
  | Some t =>
      let day := (t / 86400000)%Z in
      let '(y, m, d) := civil_from_days day in
      three_letters "ThuFriSatSunMonTueWed" (day mod 7) ++ lit " "
      ++ three_letters "JanFebMarAprMayJunJulAugSepOctNovDec" (m - 1) ++ lit " "
      ++ padded 2 d ++ lit " "
      ++ (if (y <? 0)%Z then lit "-" else []) ++ padded 4 (Z.abs y) ++ lit " "
      ++ clock_text (t mod 86400000)
      ++ lit " GMT+0000 (Coordinated Universal Time)"
  end.

(** The wording of the syntax errors of [JSON.parse]: one for a text that
    ends before its first token, one for every other text. *)
Definition ref_JSON_parse_message (text : jsstring) : jsstring :=
  match skip_ws text with
  | [] => lit "Unexpected end of JSON input"
  | _ :: _ => lit "Unexpected token in JSON"
  end.

#[export] Instance engine : Engine := {|
  number := ref_number;
  Number_isFinite n := match n with RInt _ | RNegZero => true | _ => false end;
  Number_isIntegral n := match n with RInt _ | RNegZero => true | _ => false end;
  Number_toBoolean n :=
    match n with
    | RInt z => negb (z =? 0)%Z
    | RNegZero | RNaN => false
    | RInf _ => true
    end;
  Number_toString := ref_toString;
  Number_truncate n := match n with RInt z => z | _ => 0%Z end;
  Number_ofLiteral := ref_ofLiteral;
  Date_toISOString := ref_toISOString;
  Date_parse := ref_Date_parse;
  Date_toString := ref_Date_toString;
  JSON_parse_message := ref_JSON_parse_message;
  utf8_undefined_to_uint8array :=
    Ok (map byte_of (utf8_encode (lit "undefined")));
|}.

(** Inputs of the examples. *)

Definition one : Uint8Array := encode (lit "1").

Definition two_deserializer (_ : Uint8Array) : result jsvalue := Ok (VNum (RInt 2)).

Definition null_bytes : Uint8Array := encode (lit "null").

Definition default_options (D : jsvalue) : GetOptions :=
  {| reconstructor := None; defaultValue := D;
     serializer := None; deserializer := None |}.

Definition unknown_tag : list (jsstring * jsvalue) :=
  [(lit "value", VStr (lit "1")); (TYPE_KEY, VStr (lit "decimal"))].

Definition not_an_integer : Uint8Array :=
  encode (json "{'value':'x','typeInfo':'bigint'}").

Definition blank : Uint8Array := encode [32; 10; 9]%N.

Definition envelope_like_bytes : Uint8Array :=
  encode (json "{'value':'5','typeInfo':'bigint'}").

Definition envelope_like_members : list (jsstring * jsvalue) :=
  [(lit "value", VStr (lit "5")); (TYPE_KEY, VStr TypeBrand.BIGINT)].

Definition unknown_tag_bytes : Uint8Array :=
  encode (json "{'typeInfo':'decimal','value':{'value':'5','typeInfo':'bigint'}}").

Definition unknown_tag_read : list (jsstring * jsvalue) :=
  [(TYPE_KEY, VStr (lit "decimal"));
   (lit "value", VObj [(lit "value", VStr (lit "5")); (TYPE_KEY, VStr (lit "bigint"))])].

Definition unknown_tag_revived : list (jsstring * jsvalue) :=
  [(TYPE_KEY, VStr (lit "decimal")); (lit "value", VBigInt 5)].

Definition nested_unknown_tag : Uint8Array :=
  encode (json "{'a':[{'value':1,'typeInfo':5}]}").

Definition reversed_envelope : Uint8Array :=
  encode (json "{'typeInfo':'bigint','value':true}").

Definition not_a_date : Uint8Array :=
  encode (json "{'value':'x','typeInfo':'date'}").

Definition hexadecimal : Uint8Array :=
  encode (json "{'value':' 0x10 ','typeInfo':'bigint'}").

Definition plain_json : Uint8Array :=
  encode (json "{'typeInfo':'bigint','a':[1,'x',{'value':'5'}]}").

Definition plain_tree : jsvalue :=
  VObj [(TYPE_KEY, VStr (lit "bigint"));
        (lit "a", VArr [VNum (RInt 1); VStr (lit "x");
                        VObj [(lit "value", VStr (lit "5"))]])].

Definition nested_envelopes : Uint8Array :=
  encode (json "[{'value':{'value':'5','typeInfo':'bigint'},'typeInfo':'bigint'}]").

Definition wrapping : GetOptions :=
  {| reconstructor := Some (fun v => Ok (VArr [v])); defaultValue := VStr (lit "none");
     serializer := None; deserializer := None |}.

Definition with_invalid_date : jsvalue :=
  VObj [(lit "list", VArr [VNum (RInt 1); VDate None])].

Definition sample : jsvalue :=
  VObj [(lit "0", VNum (RInt 42));
        (lit "amount", VBigInt 340282366920938463463374607431768211456);
        (lit "when", VDate (Some 1700000000123%Z));
        (lit "list", VArr [VNull; VBool true; VStr (lit "a" ++ [34; 10; 233; 8364]%N ++ lit "b\c");
                           VObj [(lit "value", VNum (RInt (-7))); (TYPE_KEY, VStr (lit "other"))]])].

End Reference.

(** * Properties *)

(** ** Strings *)

Lemma jsstring_eqb_eq (a b : jsstring) : jsstring_eqb a b = true <-> a = b.
Proof.
  unfold jsstring_eqb. destruct (list_eq_dec N.eq_dec a b); split; congruence.
Qed.

Lemma jsstring_eqb_refl (a : jsstring) : jsstring_eqb a a = true.
Proof. now apply jsstring_eqb_eq. Qed.

Lemma jsstring_eqb_neq (a b : jsstring) : jsstring_eqb a b = false <-> a <> b.
Proof.
  unfold jsstring_eqb. destruct (list_eq_dec N.eq_dec a b); split; congruence.
Qed.

(** ** Account identifiers: examples *)

Example validate_alice : validateAccountId (lit "alice.near") = true.
Proof. reflexivity. Qed.

Example validate_Alice : validateAccountId (lit "Alice.near") = false.
Proof. reflexivity. Qed.

Example validate_a : validateAccountId (lit "a") = false.
Proof. reflexivity. Qed.

Example validate_empty_label : validateAccountId (lit "a..b") = false.
Proof. reflexivity. Qed.

(** ** Characters *)

(** Character tests as comparisons of code units. *)
Ltac chars_step :=
  match goal with
  | |- context [in_range ?lo ?hi ?c] =>
      let l := eval vm_compute in (ch lo) in
      let h := eval vm_compute in (ch hi) in
      change (in_range lo hi c) with ((l <=? c) && (c <=? h))%N
  | H : context [in_range ?lo ?hi ?c] |- _ =>
      let l := eval vm_compute in (ch lo) in
      let h := eval vm_compute in (ch hi) in
      change (in_range lo hi c) with ((l <=? c) && (c <=? h))%N in H
  | |- context [ch ?a] =>
      let v := eval vm_compute in (ch a) in change (ch a) with v
  | H : context [ch ?a] |- _ =>
      let v := eval vm_compute in (ch a) in change (ch a) with v in H
  end.

Ltac chars :=
  unfold is_number_char, is_digit, is_json_ws, cls_lower_digit,
    cls_hyphen_underscore, cls_dot, is_high_surrogate, is_low_surrogate,
    is_char in *;
  repeat chars_step.

Ltac bools :=
  repeat rewrite ?andb_true_iff, ?orb_true_iff, ?andb_false_iff, ?orb_false_iff,
    ?negb_true_iff, ?negb_false_iff, ?N.leb_le, ?N.leb_gt, ?N.ltb_lt, ?N.ltb_ge,
    ?N.eqb_eq, ?N.eqb_neq in *.

Ltac lits :=
  repeat match goal with
  | |- context [lit ?s] =>
      let v := eval vm_compute in (lit s) in change (lit s) with v
  end.

Ltac tests :=
  repeat (match goal with
          | |- context [is_json_ws (N.pos ?p)] =>
              let v := eval vm_compute in (is_json_ws (N.pos p)) in
              change (is_json_ws (N.pos p)) with v
          | |- context [is_char ?a (N.pos ?p)] =>
              let v := eval vm_compute in (is_char a (N.pos p)) in
              change (is_char a (N.pos p)) with v
          | |- context [(N.pos ?p =? N.pos ?q)%N] =>
              let v := eval vm_compute in (N.pos p =? N.pos q)%N in
              change (N.pos p =? N.pos q)%N with v
          end; cbv beta iota).

(** A boolean test that arithmetic decides. *)
Ltac decide_test b :=
  let E := fresh "E" in
  destruct b eqn:E; bools; try lia.

(** ** Decimal strings *)

Lemma digit_of_decimal (d : N) : (d < 10)%N -> digit_of 10 (ch "0" + d)%N = Some d.
Proof.
  intros H. unfold digit_of. chars.
  replace ((48 <=? 48 + d) && (48 + d <=? 57))%N with true
    by (symmetry; bools; lia).
  replace (48 + d - 48)%N with d by lia.
  apply N.ltb_lt in H. now rewrite H.
Qed.

Lemma digits_value_app (r : N) (s t : jsstring) (a : N) :
  digits_value r (s ++ t) a
  = match digits_value r s a with
    | Some a' => digits_value r t a'
    | None => None
    end.
Proof.
  revert a. induction s as [|c s IH]; intros a; simpl; [reflexivity|].
  destruct (digit_of r c); [apply IH | reflexivity].
Qed.

Lemma is_decimal_value (n : N) (s : jsstring) :
  is_decimal n s -> digits_value 10 s 0 = Some n.
Proof.
  induction 1 as [d Hd | n d s _ IH Hn Hd].
  - cbn [digits_value]. rewrite (digit_of_decimal _ Hd). f_equal; lia.
  - rewrite digits_value_app, IH. cbn [digits_value]. now rewrite (digit_of_decimal _ Hd).
Qed.

Lemma is_decimal_digits (n : N) (s : jsstring) :
  is_decimal n s -> s <> [] /\ Forall (fun c => in_range "0" "9" c = true) s.
Proof.
  assert (forall d, (d < 10)%N -> in_range "0" "9" (ch "0" + d)%N = true) as Hr.
  { intros d Hd. chars. bools. lia. }
  induction 1 as [d Hd | n d s _ [IH1 IH2] Hn Hd].
  - split; [discriminate | repeat constructor; auto].
  - split; [destruct s; discriminate|].
    apply Forall_app. split; [assumption | repeat constructor; auto].
Qed.

Lemma digits_fuel_decimal (f : nat) (n : N) (acc : jsstring) :
  (n < 2 ^ N.of_nat f)%N ->
  exists s, digits_fuel f n acc = s ++ acc /\ is_decimal n s.
Proof.
  revert n acc. induction f as [|f IH]; intros n acc Hn.
  - simpl in Hn. assert (n = 0%N) as -> by lia.
    exists [ch "0"]. split; [reflexivity|]. now apply (decimal_digit 0).
  - cbn [digits_fuel]. pose proof (N.mod_lt n 10 ltac:(lia)) as Hm.
    pose proof (N.div_mod n 10 ltac:(lia)) as Hdm.
    destruct (N.eqb_spec (n / 10) 0) as [Hz | Hz].
    + exists [(ch "0" + n mod 10)%N]. split; [reflexivity|].
      replace n with (n mod 10)%N at 1 by lia. now constructor.
    + assert (n / 10 < 2 ^ N.of_nat f)%N as Hlt.
      { rewrite Nat2N.inj_succ, N.pow_succ_r' in Hn.
        apply N.Div0.div_lt_upper_bound. lia. }
      destruct (IH (n / 10)%N ((ch "0" + n mod 10)%N :: acc) Hlt) as (s & Hs & Hd).
      exists (s ++ [(ch "0" + n mod 10)%N]). split.
      * rewrite Hs, <- app_assoc. reflexivity.
      * replace n with (10 * (n / 10) + n mod 10)%N at 1 by lia.
        constructor; [assumption | lia | assumption].
Qed.

Lemma decimal_of_N_decimal (n : N) : is_decimal n (decimal_of_N n).
Proof.
  unfold decimal_of_N.
  destruct (digits_fuel_decimal (N.to_nat (N.size n)) n []) as (s & Hs & Hd).
  - rewrite N2Nat.id. apply N.size_gt.
  - rewrite Hs, app_nil_r. exact Hd.
Qed.

Lemma parse_digits_decimal (n : N) : parse_digits 10 (decimal_of_N n) = Some n.
Proof.
  pose proof (decimal_of_N_decimal n) as H.
  destruct (is_decimal_digits _ _ H) as [Hne _].
  unfold parse_digits. destruct (decimal_of_N n); [congruence|].
  now apply is_decimal_value.
Qed.

Lemma array_index_key (i : nat) :
  (N.of_nat i < 4294967295)%N -> array_index (index_key i) = Some (N.of_nat i).
Proof.
  intros H. unfold array_index, index_key. rewrite parse_digits_decimal.
  rewrite jsstring_eqb_refl. apply N.ltb_lt in H. now rewrite H.
Qed.

(** ** Big integers and their decimal strings *)

Lemma drop_while_head (p : jschar -> bool) (s : jsstring) :
  match s with c :: _ => p c = false | [] => True end -> drop_while p s = s.
Proof. destruct s as [|c s]; simpl; [reflexivity|]. now intros ->. Qed.

Lemma trim_id (s : jsstring) :
  Forall (fun c => is_StrWhiteSpaceChar c = false) s -> trim s = s.
Proof.
  intros H. unfold trim. rewrite (drop_while_head _ s).
  - rewrite drop_while_head; [apply rev_involutive|].
    apply Forall_rev in H. destruct (rev s); [exact I|]. now inversion H.
  - destruct s; [exact I|]. now inversion H.
Qed.

Lemma digit_not_space (c : jschar) :
  in_range "0" "9" c = true -> is_StrWhiteSpaceChar c = false.
Proof.
  unfold is_StrWhiteSpaceChar. cbn [existsb]. chars. bools. lia.
Qed.

Lemma digit_not_prefix (c : jschar) :
  in_range "0" "9" c = true ->
  is_char "+" c = false /\ is_char "-" c = false
  /\ is_char "x" c || is_char "X" c = false
  /\ is_char "o" c || is_char "O" c = false
  /\ is_char "b" c || is_char "B" c = false.
Proof. chars. bools. lia. Qed.

Lemma StringToBigInt_decimal (n : N) :
  StringToBigInt (decimal_of_N n) = Some (Z.of_N n).
Proof.
  pose proof (decimal_of_N_decimal n) as Hd.
  pose proof (parse_digits_decimal n) as Hp.
  destruct (is_decimal_digits _ _ Hd) as [Hne Hall].
  unfold StringToBigInt. rewrite trim_id
    by (revert Hall; apply Forall_impl; intros c; apply digit_not_space).
  destruct (decimal_of_N n) as [|c rest]; [congruence|].
  inversion Hall as [|? ? Hc Hrest]; subst.
  destruct (digit_not_prefix _ Hc) as (-> & -> & _).
  destruct rest as [|p ds]; [now rewrite Hp|].
  inversion Hrest as [|? ? Hp' _]; subst.
  destruct (digit_not_prefix _ Hp') as (_ & _ & -> & -> & ->).
  rewrite !andb_false_r. now rewrite Hp.
Qed.

Lemma StringToBigInt_toString (z : Z) : StringToBigInt (BigInt_toString z) = Some z.
Proof.
  destruct z as [|p|p]; unfold BigInt_toString.
  - apply StringToBigInt_decimal.
  - rewrite StringToBigInt_decimal. now rewrite Z2N.id.
  - pose proof (decimal_of_N_decimal (Npos p)) as Hd.
    destruct (is_decimal_digits _ _ Hd) as [_ Hall].
    unfold StringToBigInt. rewrite trim_id.
    + replace (is_char "+" (ch "-")) with false by reflexivity.
      replace (is_char "-" (ch "-")) with true by reflexivity.
      now rewrite parse_digits_decimal.
    + constructor; [reflexivity|].
      revert Hall. apply Forall_impl. intros c. apply digit_not_space.
Qed.

(** ** JSON strings *)

Lemma digit_of_hex (d : N) : (d < 16)%N -> digit_of 16 (hex_digit d) = Some d.
Proof.
  intros H. unfold digit_of, hex_digit. chars.
  destruct (N.ltb_spec d 10) as [Hd | Hd].
  - replace ((48 <=? 48 + d) && (48 + d <=? 57))%N with true
      by (symmetry; bools; lia).
    replace (48 + d - 48)%N with d by lia.
    apply N.ltb_lt in H. now rewrite H.
  - replace ((48 <=? 97 + (d - 10)) && (97 + (d - 10) <=? 57))%N with false
      by (symmetry; bools; lia).
    replace ((97 <=? 97 + (d - 10)) && (97 + (d - 10) <=? 122))%N with true
      by (symmetry; bools; lia).
    replace (97 + (d - 10) - 97 + 10)%N with d by lia.
    apply N.ltb_lt in H. now rewrite H.
Qed.

Lemma hex4_escape (c : jschar) :
  (c < 65536)%N ->
  hex4 (hex_digit (c / 4096 mod 16)) (hex_digit (c / 256 mod 16))
       (hex_digit (c / 16 mod 16)) (hex_digit (c mod 16)) = Some c.
Proof.
  intros H. unfold hex4.
  rewrite !digit_of_hex by (apply N.mod_lt; lia).
  f_equal.
  pose proof (N.div_mod c 16 ltac:(lia)).
  pose proof (N.div_mod (c / 16) 16 ltac:(lia)).
  pose proof (N.div_mod (c / 16 / 16) 16 ltac:(lia)).
  rewrite !N.Div0.div_div in *.
  change (16 * 16)%N with 256%N in *. change (256 * 16)%N with 4096%N in *.
  assert (c / 4096 < 16)%N by (apply N.Div0.div_lt_upper_bound; lia).
  rewrite (N.mod_small (c / 4096) 16) by assumption.
  replace (c / 4096 / 16)%N with 0%N in * by (symmetry; apply N.div_small; assumption).
  lia.
Qed.

Lemma parse_string_unicode_escape (c : jschar) (tail : jsstring) :
  (c < 65536)%N ->
  parse_string (unicode_escape c ++ tail) = consed c (parse_string tail).
Proof.
  intros H. unfold unicode_escape. cbn [app parse_string].
  replace (ch "\" =? 34)%N with false by reflexivity.
  replace (is_char "\" (ch "\")) with true by reflexivity.
  replace (is_char "u" (ch "u")) with true by reflexivity.
  now rewrite hex4_escape.
Qed.

Lemma parse_string_raw (c : jschar) (tail : jsstring) :
  c <> 34%N -> c <> ch "\" -> (32 <= c)%N ->
  parse_string (c :: tail) = consed c (parse_string tail).
Proof.
  intros H1 H2 H3. cbn [parse_string].
  apply N.eqb_neq in H1. rewrite H1.
  replace (is_char "\" c) with false by (symmetry; chars; bools; chars; lia).
  apply N.ltb_ge in H3. now rewrite H3.
Qed.

Lemma parse_string_quote_char (c : jschar) (tail : jsstring) :
  parse_string (quote_char c ++ tail) = consed c (parse_string tail).
Proof.
  unfold quote_char.
  destruct (N.eqb_spec c 8) as [-> | H8]; [reflexivity|].
  destruct (N.eqb_spec c 9) as [-> | H9]; [reflexivity|].
  destruct (N.eqb_spec c 10) as [-> | H10]; [reflexivity|].
  destruct (N.eqb_spec c 12) as [-> | H12]; [reflexivity|].
  destruct (N.eqb_spec c 13) as [-> | H13]; [reflexivity|].
  destruct (N.eqb_spec c 34) as [-> | H34]; [reflexivity|].
  destruct (N.eqb_spec c (ch "\")) as [-> | H92]; [reflexivity|].
  destruct ((c <? 32)%N || is_low_surrogate c || is_high_surrogate c) eqn:E.
  - apply parse_string_unicode_escape. chars. bools. lia.
  - apply parse_string_raw; auto. chars. bools. lia.
Qed.

Lemma parse_string_quote_body (s : jsstring) :
  (forall rest, parse_string (quote_body s ++ 34%N :: rest) = Some (s, rest))
  /\ (forall c rest,
        parse_string (quote_body (c :: s) ++ 34%N :: rest) = Some (c :: s, rest)).
Proof.
  induction s as [|a s [IH1 IH2]].
  - split; [intros rest; simpl; reflexivity|].
    intros c rest. cbn [quote_body].
    replace (if is_high_surrogate c then quote_char c else quote_char c ++ [])
      with (quote_char c) by (destruct (is_high_surrogate c); now rewrite ?app_nil_r).
    rewrite parse_string_quote_char. reflexivity.
  - split; [apply IH2|].
    intros c rest.
    assert (parse_string ((quote_char c ++ quote_body (a :: s)) ++ 34%N :: rest)
            = Some (c :: a :: s, rest)) as Hplain.
    { rewrite <- app_assoc, parse_string_quote_char, IH2. reflexivity. }
    change (quote_body (c :: a :: s))
      with (if is_high_surrogate c
            then if is_low_surrogate a then c :: a :: quote_body s
                 else quote_char c ++ quote_body (a :: s)
            else quote_char c ++ quote_body (a :: s)).
    destruct (is_high_surrogate c) eqn:Hc; [|exact Hplain].
    destruct (is_low_surrogate a) eqn:Ha; [|exact Hplain].
    cbn [app].
    rewrite parse_string_raw by (chars; bools; lia).
    rewrite parse_string_raw by (chars; bools; lia).
    rewrite IH1. reflexivity.
Qed.

Lemma parse_string_quoted (s rest : jsstring) :
  parse_string (quote_body s ++ 34%N :: rest) = Some (s, rest).
Proof. apply parse_string_quote_body. Qed.

(** ** Number tokens *)

Lemma span_spec (p : jschar -> bool) (s a b : jsstring) :
  span p s = (a, b) -> s = a ++ b /\ forallb p a = true.
Proof.
  revert a b. induction s as [|c s IH]; simpl; intros a b H.
  - injection H as <- <-. auto.
  - destruct (p c) eqn:Hc.
    + destruct (span p s) as [a' b'] eqn:E. injection H as <- <-.
      destruct (IH _ _ eq_refl) as [-> Ha]. simpl. now rewrite Hc.
    + injection H as <- <-. auto.
Qed.

Lemma span_app (p : jschar -> bool) (a b : jsstring) :
  forallb p a = true ->
  match b with [] => True | c :: _ => p c = false end ->
  span p (a ++ b) = (a, b).
Proof.
  intros Ha Hb. induction a as [|c a IH]; simpl.
  - destruct b as [|c b]; [reflexivity|]. simpl. now rewrite Hb.
  - simpl in Ha. apply andb_true_iff in Ha as [Hc Ha]. now rewrite Hc, (IH Ha).
Qed.

Lemma digits_number_chars (s : jsstring) :
  forallb is_digit s = true -> forallb is_number_char s = true.
Proof.
  rewrite !forallb_forall. intros H c Hc. specialize (H c Hc).
  unfold is_number_char. now rewrite H.
Qed.

Lemma json_exponent_chars (s : jsstring) :
  json_exponent s = true -> forallb is_number_char s = true.
Proof.
  destruct s as [|c r]; [reflexivity|]. cbn [json_exponent forallb].
  intros H. apply andb_true_iff in H as [Hc H]. apply andb_true_iff in H as [_ H].
  apply andb_true_iff. split.
  - unfold is_number_char. apply orb_true_iff in Hc as [-> | ->];
      now rewrite ?orb_true_r.
  - destruct r as [|g r']; [reflexivity|].
    destruct (is_char "+" g || is_char "-" g) eqn:Hg.
    + cbn [forallb]. apply andb_true_iff. split; [|now apply digits_number_chars].
      unfold is_number_char. apply orb_true_iff in Hg as [-> | ->];
        now rewrite ?orb_true_r.
    + now apply digits_number_chars.
Qed.

Lemma json_fraction_chars (s : jsstring) :
  json_fraction s = true -> forallb is_number_char s = true.
Proof.
  destruct s as [|c r]; [reflexivity|]. cbn [json_fraction].
  destruct (is_char "." c) eqn:Hc; [|apply json_exponent_chars].
  destruct (span is_digit r) as [ds r'] eqn:E. intros H.
  apply andb_true_iff in H as [_ H].
  apply span_spec in E as [-> Hds]. cbn [forallb]. rewrite forallb_app.
  rewrite (digits_number_chars _ Hds), (json_exponent_chars _ H).
  unfold is_number_char. rewrite Hc. now rewrite ?orb_true_r.
Qed.

Lemma json_number_chars (tok : jsstring) :
  json_number tok = true ->
  forallb is_number_char tok = true
  /\ exists c r, tok = c :: r /\ (is_char "-" c = true \/ is_digit c = true).
Proof.
  assert (forall t, match t with
                    | c :: r =>
                        if is_char "0" c then json_fraction r
                        else is_digit c && json_fraction (snd (span is_digit r))
                    | [] => false
                    end = true ->
                    forallb is_number_char t = true
                    /\ exists c r, t = c :: r /\ is_digit c = true) as Hint.
  { intros [|c r]; [discriminate|]. intros H.
    assert (is_digit c = true) as Hd.
    { destruct (is_char "0" c) eqn:H0.
      - revert H0. chars. bools. lia.
      - now apply andb_true_iff in H as [H _]. }
    split; [|eauto]. cbn [forallb].
    replace (is_number_char c) with true
      by (unfold is_number_char; now rewrite Hd).
    destruct (is_char "0" c); [now apply json_fraction_chars|].
    apply andb_true_iff in H as [_ H].
    destruct (span is_digit r) as [ds r'] eqn:E. cbn [snd] in H.
    apply span_spec in E as [-> Hds]. rewrite forallb_app.
    now rewrite (digits_number_chars _ Hds), (json_fraction_chars _ H). }
  unfold json_number. destruct tok as [|c r]; [discriminate|].
  destruct (is_char "-" c) eqn:Hm; intros H.
  - destruct (Hint r H) as [Hall _]. split; [|eauto].
    cbn [forallb]. rewrite Hall. unfold is_number_char. rewrite Hm.
    now rewrite ?orb_true_r.
  - destruct (Hint (c :: r) H) as [Hall (c' & r' & E & Hd)]. injection E as <- <-.
    split; [assumption | eauto].
Qed.

(** ** Regular expressions *)

Lemma nullable_lang (r : regex) : nullable r = true <-> lang r [].
Proof.
  induction r; simpl.
  - split; [discriminate | inversion 1].
  - split; [constructor | reflexivity].
  - split; [discriminate | inversion 1].
  - rewrite andb_true_iff, IHr1, IHr2. split.
    + intros [H1 H2]. apply (lang_seq _ _ _ _ H1 H2).
    + inversion 1 as [| |? ? s1 s2 H1 H2 E1 E2| | | |]; subst.
      apply app_eq_nil in E2 as [-> ->]. auto.
  - rewrite orb_true_iff, IHr1, IHr2. split.
    + intros [H|H]; [apply lang_alt_l | apply lang_alt_r]; exact H.
    + inversion 1; subst; auto.
  - split; [constructor | reflexivity].
Qed.

Lemma lang_star_cons (r : regex) (c : jschar) (s : jsstring) :
  lang (RStar r) (c :: s) ->
  exists s1 s2, s = s1 ++ s2 /\ lang r (c :: s1) /\ lang (RStar r) s2.
Proof.
  intros H. remember (RStar r) as rs eqn:Er. remember (c :: s) as cs eqn:Ec.
  revert r c s Er Ec.
  induction H as [| | | | | |r0 s1 s2 H1 _ H2 IH2]; intros; try discriminate.
  injection Er as ->.
  destruct s1 as [|c1 s1]; simpl in Ec.
  - apply (IH2 _ _ _ eq_refl Ec).
  - injection Ec as -> <-. exists s1, s2. auto.
Qed.

Lemma deriv_lang (r : regex) (c : jschar) (s : jsstring) :
  lang (deriv c r) s <-> lang r (c :: s).
Proof.
  revert s. induction r; intros s; simpl.
  - split; inversion 1.
  - split; inversion 1.
  - destruct (p c) eqn:Hp; split; intros H; inversion H; subst.
    + now constructor.
    + constructor.
    + congruence.
  - assert (lang (RSeq (deriv c r1) r2) s <->
            exists s1 s2, s = s1 ++ s2 /\ lang r1 (c :: s1) /\ lang r2 s2) as Hseq.
    { split.
      - inversion 1; subst. eexists _, _. split; [reflexivity|].
        split; [apply IHr1|]; assumption.
      - intros (s1 & s2 & -> & H1 & H2). constructor; [apply IHr1|]; assumption. }
    assert (lang (RSeq r1 r2) (c :: s) <->
            (exists s1 s2, s = s1 ++ s2 /\ lang r1 (c :: s1) /\ lang r2 s2)
            \/ (lang r1 [] /\ lang r2 (c :: s))) as Hcons.
    { split.
      - inversion 1 as [| |? ? s1 s2 H1 H2 E1 E2| | | |]; subst.
        destruct s1 as [|c1 s1]; simpl in E2.
        + right. subst. auto.
        + injection E2 as -> <-. left. eauto.
      - intros [(s1 & s2 & -> & H1 & H2) | [H1 H2]].
        + apply (lang_seq _ _ _ _ H1 H2).
        + apply (lang_seq _ _ _ _ H1 H2). }
    rewrite Hcons. destruct (nullable r1) eqn:Hn.
    + split.
      * inversion 1; subst; [left; now apply Hseq|].
        right. split; [now apply nullable_lang | now apply IHr2].
      * intros [H | [_ H]]; [apply lang_alt_l, Hseq, H | apply lang_alt_r, IHr2, H].
    + rewrite Hseq. split; [auto|].
      intros [H | [H _]]; [exact H|].
      apply nullable_lang in H. congruence.
  - split.
    + inversion 1; subst; [apply lang_alt_l, IHr1 | apply lang_alt_r, IHr2]; assumption.
    + inversion 1; subst; [apply lang_alt_l, IHr1 | apply lang_alt_r, IHr2]; assumption.
  - split.
    + inversion 1; subst. apply (lang_star_app r (c :: s1) s2); [apply IHr|]; assumption.
    + intros H. apply lang_star_cons in H as (s1 & s2 & -> & H1 & H2).
      constructor; [apply IHr|]; assumption.
Qed.

Lemma regex_test_lang (r : regex) (s : jsstring) :
  regex_test r s = true <-> lang r s.
Proof.
  revert r. induction s as [|c s IH]; intros r; simpl.
  - apply nullable_lang.
  - rewrite IH. apply deriv_lang.
Qed.

Lemma lang_star_class (p : jschar -> bool) (s : jsstring) :
  lang (RStar (RClass p)) s <-> forallb p s = true.
Proof.
  split.
  - intros H. remember (RStar (RClass p)) as rs eqn:Er. revert Er.
    induction H as [| | | | | |r0 s1 s2 H1 _ H2 IH2]; intros; try discriminate;
      [reflexivity|].
    injection Er as ->. inversion H1; subst. simpl.
    apply andb_true_iff. auto.
  - induction s as [|c s IH]; simpl; intros H; [constructor|].
    apply andb_true_iff in H as [Hc Hs].
    apply (lang_star_app _ [c] s); [now constructor | auto].
Qed.

Lemma lang_plus_class (p : jschar -> bool) (s : jsstring) :
  lang (RPlus (RClass p)) s <-> s <> [] /\ forallb p s = true.
Proof.
  unfold RPlus. split.
  - inversion 1 as [| |? ? s1 s2 H1 H2 E1 E2| | | |]; subst.
    inversion H1; subst. apply lang_star_class in H2. simpl.
    split; [discriminate | apply andb_true_iff; auto].
  - intros [Hne H]. destruct s as [|c s]; [congruence|].
    simpl in H. apply andb_true_iff in H as [Hc Hs].
    apply (lang_seq _ _ [c] s); [now constructor | now apply lang_star_class].
Qed.

Lemma split_on_not_nil (p : jschar -> bool) (s : jsstring) : split_on p s <> [].
Proof.
  destruct s as [|c s]; simpl; [discriminate|].
  destruct (p c); [discriminate|]. destruct (split_on p s); discriminate.
Qed.

Lemma split_on_free (p : jschar -> bool) (s : jsstring) :
  free_of p s -> split_on p s = [s].
Proof.
  unfold free_of. induction s as [|c s IH]; simpl; intros H; [reflexivity|].
  apply andb_true_iff in H as [Hc Hs]. apply negb_true_iff in Hc.
  now rewrite Hc, (IH Hs).
Qed.

Lemma split_on_app (p : jschar -> bool) (x : jsstring) (c : jschar) (rest : jsstring) :
  free_of p x -> p c = true ->
  split_on p (x ++ c :: rest) = x :: split_on p rest.
Proof.
  unfold free_of. induction x as [|a x IH]; simpl; intros H Hc.
  - now rewrite Hc.
  - apply andb_true_iff in H as [Ha Hx]. apply negb_true_iff in Ha.
    now rewrite Ha, (IH Hx Hc).
Qed.

Lemma split_on_inv (p : jschar -> bool) (s x : jsstring) (pieces : list jsstring) :
  split_on p s = x :: pieces ->
  free_of p x
  /\ match pieces with
     | [] => s = x
     | _ :: _ => exists c rest, s = x ++ c :: rest /\ p c = true
                                /\ split_on p rest = pieces
     end.
Proof.
  unfold free_of. revert x pieces. induction s as [|a s IH]; simpl; intros x pieces H.
  - injection H as <- <-. auto.
  - destruct (p a) eqn:Ha.
    + injection H as <- <-. split; [reflexivity|].
      pose proof (split_on_not_nil p s) as Hn.
      destruct (split_on p s) eqn:E; [congruence|].
      exists a, s. auto.
    + destruct (split_on p s) as [|y ys] eqn:E; [now apply split_on_not_nil in E|].
      injection H as <- <-. destruct (IH _ _ eq_refl) as [Hy Hrest].
      split; [simpl; now rewrite Ha|].
      destruct ys.
      * now subst.
      * destruct Hrest as (c & rest & -> & Hc & Hr). exists c, rest. auto.
Qed.

Lemma separated_lang (piece : regex) (p : jschar -> bool) :
  (forall s, lang piece s -> free_of p s) ->
  forall s, lang (separated piece p) s <-> Forall (lang piece) (split_on p s).
Proof.
  intros Hfree s. unfold separated. split.
  - inversion 1 as [| |? ? s1 s2 H1 H2 E1 E2| | | |]; subst. clear H.
    remember (RStar (RSeq piece (RClass p))) as rs eqn:Er. revert Er.
    induction H1 as [| | | | | |r0 x y Hx _ Hy IHy]; intros; try discriminate.
    + simpl. rewrite (split_on_free _ _ (Hfree _ H2)). auto.
    + injection Er as ->. inversion Hx as [| |? ? a b Ha Hb| | | |]; subst.
      inversion Hb; subst. rewrite <- !app_assoc. simpl.
      rewrite split_on_app; auto.
  - remember (split_on p s) as pieces eqn:E. symmetry in E. revert s E.
    induction pieces as [|x pieces IH]; intros s E HF;
      [now apply split_on_not_nil in E|].
    apply split_on_inv in E as [Hx Hs]. inversion HF as [|? ? Hpx Hrest]; subst.
    destruct pieces as [|y ys].
    + subst. apply (lang_seq _ _ [] x); [constructor | assumption].
    + destruct Hs as (c & rest & -> & Hc & Hr).
      specialize (IH rest Hr Hrest).
      inversion IH as [| |? ? s1 s2 H1 H2 E1 E2| | | |]; subst.
      replace (x ++ c :: s1 ++ s2) with (((x ++ [c]) ++ s1) ++ s2)
        by (rewrite <- !app_assoc; reflexivity).
      constructor; [|assumption].
      constructor; [|assumption].
      constructor; [assumption | now constructor].
Qed.

Lemma free_of_class (p q : jschar -> bool) (s : jsstring) :
  (forall c, q c = true -> p c = false) -> forallb q s = true -> free_of p s.
Proof.
  intros Hd. unfold free_of. induction s as [|c s IH]; simpl; [reflexivity|].
  intros H. apply andb_true_iff in H as [Hc Hs].
  now rewrite (Hd _ Hc), (IH Hs).
Qed.

Lemma free_of_app (p : jschar -> bool) (a b : jsstring) :
  free_of p a -> free_of p b -> free_of p (a ++ b).
Proof. unfold free_of. rewrite forallb_app. now intros -> ->. Qed.

Lemma free_of_star (p : jschar -> bool) (r : regex) :
  (forall s, lang r s -> free_of p s) ->
  forall s, lang (RStar r) s -> free_of p s.
Proof.
  intros Hr s H. remember (RStar r) as rs eqn:Er. revert Er.
  induction H; intros; try discriminate; [reflexivity|].
  injection Er as ->. apply free_of_app; auto.
Qed.

Lemma cls_disjoint (c : jschar) :
  (cls_lower_digit c = true -> cls_hyphen_underscore c = false /\ cls_dot c = false)
  /\ (cls_hyphen_underscore c = true -> cls_dot c = false).
Proof.
  unfold cls_lower_digit, cls_hyphen_underscore, cls_dot, is_char, in_range.
  simpl. split; intros H.
  - repeat rewrite ?orb_true_iff, ?andb_true_iff, ?orb_false_iff, ?andb_false_iff,
      ?N.leb_le, ?N.leb_gt in *. lia.
  - repeat rewrite ?orb_true_iff, ?andb_true_iff, ?orb_false_iff, ?andb_false_iff,
      ?N.leb_le, ?N.leb_gt in *. lia.
Qed.

Lemma group_lang (g : jsstring) :
  lang (RPlus (RClass cls_lower_digit)) g <-> valid_group g = true.
Proof.
  rewrite lang_plus_class. unfold valid_group.
  rewrite andb_true_iff, negb_true_iff, jsstring_eqb_neq. reflexivity.
Qed.

Lemma label_lang (l : jsstring) : lang re_label l <-> valid_label l = true.
Proof.
  unfold valid_label. rewrite forallb_forall, <- Forall_forall.
  change re_label with (separated (RPlus (RClass cls_lower_digit)) cls_hyphen_underscore).
  rewrite separated_lang.
  - split; apply Forall_impl; intros g; apply group_lang.
  - intros s H. apply lang_plus_class in H as [_ H].
    apply (free_of_class _ cls_lower_digit); [|assumption].
    intros c Hc. destruct (cls_disjoint c) as [Hd _]. now apply Hd.
Qed.

Lemma label_free_of_dot (l : jsstring) : lang re_label l -> free_of cls_dot l.
Proof.
  assert (forall s, lang (RPlus (RClass cls_lower_digit)) s -> free_of cls_dot s) as Hg.
  { intros s H. apply lang_plus_class in H as [_ H].
    apply (free_of_class _ cls_lower_digit); [|assumption].
    intros c Hc. destruct (cls_disjoint c) as [Hd _]. now apply Hd. }
  unfold re_label. inversion 1 as [| |? ? s1 s2 H1 H2 E1 E2| | | |]; subst.
  apply free_of_app; [|now apply Hg].
  revert H1. apply free_of_star.
  intros s. inversion 1 as [| |? ? a b Ha Hb| | | |]; subst.
  apply free_of_app; [now apply Hg|].
  inversion Hb; subst. unfold free_of. simpl.
  destruct (cls_disjoint c) as [_ Hd]. now rewrite Hd.
Qed.

Lemma account_id_lang (s : jsstring) :
  regex_test ACCOUNT_ID_REGEX s = account_id_grammar s.
Proof.
  apply eq_true_iff_eq. rewrite regex_test_lang.
  unfold account_id_grammar. rewrite forallb_forall, <- Forall_forall.
  change ACCOUNT_ID_REGEX with (separated re_label cls_dot).
  rewrite separated_lang by apply label_free_of_dot.
  split; apply Forall_impl; intros l; apply label_lang.
Qed.

(** C8.  [validateAccountId s] is true exactly when [s] has between 2 and
    64 characters and follows the grammar of dot-separated labels; so
    ["alice.near"] is valid, and ["Alice.near"], ["a"], ["a..b"] and every
    string of 65 characters are not. *)
Theorem validateAccountId_spec (s : jsstring) :
  (validateAccountId s = true <->
     2 <= length s <= 64 /\ account_id_grammar s = true)
  /\ validateAccountId (lit "alice.near") = true
  /\ validateAccountId (lit "Alice.near") = false
  /\ validateAccountId (lit "a") = false
  /\ validateAccountId (lit "a..b") = false
  /\ (length s = 65 -> validateAccountId s = false).
Proof.
  unfold validateAccountId. rewrite account_id_lang.
  repeat split; try reflexivity.
  - apply andb_true_iff in H as [H _]. apply andb_true_iff in H as [H _].
    now apply Nat.leb_le.
  - apply andb_true_iff in H as [H _]. apply andb_true_iff in H as [_ H].
    now apply Nat.leb_le.
  - now apply andb_true_iff in H as [_ H].
  - intros [[H1 H2] H3]. rewrite H3.
    apply Nat.leb_le in H1, H2. now rewrite H1, H2.
  - intros ->. reflexivity.
Qed.

(** ** Account identifiers: further properties *)

Lemma split_on_at (p : jschar -> bool) (a : jsstring) (c : jschar) (b : jsstring) :
  p c = true -> split_on p (a ++ c :: b) = split_on p a ++ split_on p b.
Proof.
  intros Hc. induction a as [|x a IH]; cbn [app split_on].
  - now rewrite Hc.
  - rewrite IH. destruct (p x); [reflexivity|].
    pose proof (split_on_not_nil p a). destruct (split_on p a); [congruence|].
    reflexivity.
Qed.

(** Splitting the pieces of a split is splitting at both classes. *)
Lemma split_on_twice (p q : jschar -> bool) (s : jsstring) :
  flat_map (split_on q) (split_on p s) = split_on (fun c => q c || p c) s.
Proof.
  induction s as [|c s IH]; [reflexivity|]. cbn [split_on].
  destruct (p c) eqn:Hp.
  - rewrite orb_true_r. cbn [flat_map split_on app]. now rewrite IH.
  - rewrite orb_false_r. rewrite <- IH.
    pose proof (split_on_not_nil p s). destruct (split_on p s) as [|y ys]; [congruence|].
    cbn [flat_map split_on]. destruct (q c); [reflexivity|].
    pose proof (split_on_not_nil q y). destruct (split_on q y); [congruence|].
    reflexivity.
Qed.

Lemma split_on_chars (p q : jschar -> bool) (s : jsstring) :
  forallb (forallb q) (split_on p s) = true ->
  forallb (fun c => q c || p c) s = true.
Proof.
  induction s as [|c s IH]; [reflexivity|]. cbn [split_on forallb].
  destruct (p c) eqn:Hp.
  - cbn [forallb andb]. intros H. rewrite orb_true_r. now apply IH.
  - pose proof (split_on_not_nil p s) as Hn.
    destruct (split_on p s) as [|y ys]; [congruence|].
    cbn [forallb]. intros H. apply andb_true_iff in H as [H1 H2].
    apply andb_true_iff in H1 as [-> H1]. cbn [orb andb]. apply IH.
    cbn [forallb]. now rewrite H1, H2.
Qed.

Lemma split_on_ends (p : jschar -> bool) (s : jsstring) :
  forallb (fun g => negb (jsstring_eqb g [])) (split_on p s) = true ->
  p (hd 0%N s) = false /\ p (last s 0%N) = false /\ s <> [].
Proof.
  intros H.
  assert (s <> []) as Hs by (intros ->; discriminate H).
  split; [|split; [|exact Hs]].
  - destruct s as [|c r]; [congruence|]. cbn [hd split_on] in *.
    destruct (p c); [discriminate H | reflexivity].
  - rewrite (app_removelast_last 0%N Hs) in H.
    destruct (p (last s 0%N)) eqn:Hl; [|reflexivity].
    rewrite split_on_at, forallb_app in H by exact Hl.
    apply andb_true_iff in H as [_ H]. discriminate H.
Qed.

Lemma forallb_valid_group (pieces : list jsstring) :
  forallb valid_group pieces = true ->
  forallb (fun g => negb (jsstring_eqb g [])) pieces = true
  /\ forallb (forallb cls_lower_digit) pieces = true.
Proof.
  induction pieces as [|g gs IH]; [auto|]. cbn [forallb]. intros H.
  apply andb_true_iff in H as [Hg Hgs]. unfold valid_group in Hg.
  apply andb_true_iff in Hg as [-> ->]. destruct (IH Hgs) as [-> ->]. auto.
Qed.

(** The grammar without its nesting. *)
Lemma account_id_runs (s : jsstring) :
  account_id_grammar s = forallb valid_group (split_on cls_separator s).
Proof.
  unfold account_id_grammar, valid_label, cls_separator.
  rewrite <- split_on_twice.
  induction (split_on cls_dot s) as [|l ls IH]; [reflexivity|].
  cbn [forallb flat_map]. now rewrite forallb_app, IH.
Qed.

(** X1.  An identifier with a dot in it is valid exactly when both sides
    of the dot match the pattern and the whole has at most 64 characters:
    a sub-account of a valid account is named by any valid label before a
    dot, and what follows a dot of a valid identifier matches the pattern
    again. *)
Theorem validateAccountId_at_dot (a b : jsstring) :
  validateAccountId (a ++ lit "." ++ b)
  = (length a + 1 + length b <=? 64)
    && regex_test ACCOUNT_ID_REGEX a && regex_test ACCOUNT_ID_REGEX b.
Proof.
  unfold validateAccountId. rewrite !account_id_lang.
  unfold account_id_grammar. change (lit "." ++ b) with (ch "." :: b).
  rewrite split_on_at by reflexivity. rewrite forallb_app.
  rewrite length_app. cbn [length].
  replace (length a + S (length b)) with (length a + 1 + length b) by lia.
  destruct (forallb valid_label (split_on cls_dot a)) eqn:Ea;
    [|now rewrite !andb_false_r].
  destruct (forallb valid_label (split_on cls_dot b)) eqn:Eb;
    [|now rewrite !andb_false_r].
  rewrite !andb_true_r.
  replace (2 <=? length a + 1 + length b) with true; [reflexivity|].
  symmetry. apply Nat.leb_le.
  destruct a as [|x a]; [discriminate Ea|]. cbn [length]. lia.
Qed.

(** X2.  [validateAccountId] accepts the strings of 2 to 64 characters
    that are runs of lowercase letters and digits, none empty, with one
    hyphen, underscore or dot between two runs: a separator never begins
    or ends the identifier and never stands next to another, of whatever
    kind. *)
Theorem validateAccountId_runs (s : jsstring) :
  validateAccountId s
  = (2 <=? length s) && (length s <=? 64)
    && forallb valid_group (split_on cls_separator s).
Proof.
  unfold validateAccountId. now rewrite account_id_lang, account_id_runs.
Qed.

(** X3.  A valid identifier is made of lowercase letters, digits, hyphens,
    underscores and dots only, and begins and ends with a letter or a
    digit. *)
Theorem validateAccountId_characters (s : jsstring) :
  validateAccountId s = true ->
  forallb cls_account s = true
  /\ cls_lower_digit (hd 0%N s) = true
  /\ cls_lower_digit (last s 0%N) = true.
Proof.
  unfold validateAccountId. rewrite account_id_lang, account_id_runs.
  intros H. apply andb_true_iff in H as [_ H].
  apply forallb_valid_group in H as [Hne Hall].
  apply split_on_ends in Hne as (Hfirst & Hlast & Hs).
  apply split_on_chars in Hall. rewrite forallb_forall in Hall.
  split; [|split].
  - apply forallb_forall. intros c Hc. specialize (Hall c Hc).
    unfold cls_account. unfold cls_separator in Hall. now rewrite <- orb_assoc.
  - destruct s as [|c r]; [congruence|]. specialize (Hall c (or_introl eq_refl)).
    cbn [hd] in *. rewrite Hfirst in Hall. now rewrite orb_false_r in Hall.
  - specialize (Hall (last s 0%N)).
    rewrite Hlast, orb_false_r in Hall. apply Hall.
    rewrite (app_removelast_last 0%N Hs) at 2. apply in_or_app. right. now left.
Qed.

(** ** Text consumed by the parser *)

(** Case analysis on what a [match] or [if] of a hypothesis examines. *)
Ltac break_hyp H :=
  match type of H with
  | context [match ?x with _ => _ end] =>
      match x with
      | context [match _ with _ => _ end] => fail 1
      | _ => let E := fresh "E" in destruct x eqn:E; try discriminate H
      end
  end.

Lemma drop_while_length (p : N -> bool) (s : jsstring) :
  length (drop_while p s) <= length s.
Proof.
  induction s as [|c s IH]; simpl; [lia|]. destruct (p c); simpl; lia.
Qed.

Lemma skip_ws_cons (s : jsstring) (c : N) (r : jsstring) :
  skip_ws s = c :: r -> length r < length s.
Proof.
  intros H. pose proof (drop_while_length is_json_ws s) as L.
  unfold skip_ws in H. rewrite H in L. simpl in L. lia.
Qed.

Lemma consed_shorter (c : N) (r : option (jsstring * jsstring)) (str rest : jsstring) :
  consed c r = Some (str, rest) -> exists str', r = Some (str', rest).
Proof.
  destruct r as [[a b]|]; simpl; [|discriminate]. intros H. injection H as _ <-. eauto.
Qed.

Lemma parse_string_shorter (n : nat) (s str rest : jsstring) :
  length s <= n -> parse_string s = Some (str, rest) -> length rest < length s.
Proof.
  revert s str rest. induction n as [|n IH]; intros s str rest Hn H.
  - destruct s; [discriminate | simpl in Hn; lia].
  - destruct s as [|c r]; [discriminate|]. cbn [parse_string] in H. cbn [length] in *.
    repeat break_hyp H;
      try (injection H as <- <-; lia);
      apply consed_shorter in H as [str' H];
      apply IH in H; cbn [length] in *; lia.
Qed.

Lemma strip_prefix_length (p s rest : jsstring) :
  strip_prefix p s = Some rest -> length s = length p + length rest.
Proof.
  revert s. induction p as [|a p IH]; intros s H; simpl in H.
  - injection H as ->. reflexivity.
  - destruct s as [|b s]; [discriminate|]. destruct (a =? b)%N; [|discriminate].
    apply IH in H. simpl. lia.
Qed.

Section Properties.
Context {env : Env} {engine : Engine}.

(** ** assert *)

Lemma ToBoolean_falsy (v : jsvalue) : ToBoolean v = false <-> falsy v.
Proof.
  split.
  - destruct v as [| |[]|n|s|z|t|l|l]; simpl; intros H; try discriminate;
      try constructor; auto.
    + destruct s; [constructor | discriminate].
    + apply negb_false_iff, Z.eqb_eq in H. subst. constructor.
  - destruct 1; simpl; auto.
Qed.

(** C9.  [assert e m] throws the error whose message is
    ["assertion failed: " + m] exactly when [e] is falsy; on a truthy [e]
    it returns normally, with nothing ([undefined]). *)
Theorem assert_throws_iff_falsy (e : jsvalue) (m : jsstring) :
  (assert e m = Throw (Error (lit "assertion failed: " ++ m)) <-> falsy e)
  /\ (assert e m = Ok tt <-> ~ falsy e)
  /\ (forall err, assert e m = Throw err ->
        err = Error (lit "assertion failed: " ++ m)).
Proof.
  unfold assert. rewrite <- ToBoolean_falsy.
  destruct (ToBoolean e); simpl; repeat split; intros; try congruence.
Qed.

(** ** The retrieval facade *)

(** C4.  With a default value [D] in the options, absent input gives [D]
    and so do bytes that deserialize to null; with the options [{}] such
    bytes, and absent input, give null. *)
Theorem defaulting_precedence (D : jsvalue) (o : GetOptions) (b : Uint8Array) :
  D <> VUndefined ->
  defaultValue o = D ->
  deserialize b = Ok VNull ->
  returned (getValueWithOptions None (Some o)) = Ok D
  /\ returned (getValueWithOptions (Some b) (Some o)) = Ok D
  /\ returned (getValueWithOptions (Some b) (Some no_options)) = Ok VNull
  /\ returned (getValueWithOptions None (Some no_options)) = Ok VNull.
Proof.
  intros HD Ho Hb. unfold getValueWithOptions. rewrite Hb, Ho. simpl.
  destruct D; try congruence; auto.
Qed.

(** C5.  Absent input or a null or undefined decoded value gives the
    default (or null) and the reconstructor is not called; a decoded value
    that is neither, with a reconstructor in the options, gives exactly the
    reconstructor's result on that value, the only call made.  No call ever
    receives null or undefined. *)
Theorem default_before_reconstruction (value : option Uint8Array) (o : GetOptions) :
  let r := getValueWithOptions value (Some o) in
  ((value = None
    \/ exists b, value = Some b
         /\ (deserialize b = Ok VNull \/ deserialize b = Ok VUndefined)) ->
   reconstructed r = [] /\ returned r = Ok (nullish (defaultValue o) VNull))
  /\ (forall b d rc,
        value = Some b -> deserialize b = Ok d ->
        d <> VNull -> d <> VUndefined ->
        reconstructor o = Some rc ->
        returned r = rc d /\ reconstructed r = [d])
  /\ Forall (fun a => a <> VNull /\ a <> VUndefined) (reconstructed r).
Proof.
  cbv zeta. unfold getValueWithOptions. split; [|split].
  - intros [-> | (b & -> & [H | H])]; try rewrite H; split; reflexivity.
  - intros b d rc -> Hd Hn Hu Hrc. rewrite Hd, Hrc.
    destruct d; try congruence; split; reflexivity.
  - destruct value as [b|]; [|constructor].
    destruct (deserialize b) as [d|e]; [|constructor].
    destruct d; try constructor;
      destruct (reconstructor o); repeat constructor; discriminate.
Qed.

(** The deserializer of the options has no part in the result. *)
Lemma getValueWithOptions_deserializer_unused
    (value : option Uint8Array) (o : GetOptions)
    (d : option (Uint8Array -> result jsvalue)) :
  getValueWithOptions value (Some (with_deserializer d o))
  = getValueWithOptions value (Some o).
Proof. reflexivity. Qed.

(** [serializeValueWithOptions] with a serializer in the options, and with
    the options left out. *)
Lemma serializeValueWithOptions_given (v : jsvalue) (o : GetOptions)
    (f : jsvalue -> result Uint8Array) :
  serializer o = Some f -> serializeValueWithOptions v (Some o) = f v.
Proof. unfold serializeValueWithOptions. now intros ->. Qed.

Lemma serializeValueWithOptions_default (v : jsvalue) :
  serializeValueWithOptions v None = serialize v.
Proof. reflexivity. Qed.

(** C6, at the options [{}]: destructuring finds no serializer and the
    call throws a TypeError; the default serializer is not used. *)
Theorem serializeValueWithOptions_without_serializer (v : jsvalue) :
  serializeValueWithOptions v (Some no_options)
  = Throw (TypeError (lit "serializer is not a function")).
Proof. reflexivity. Qed.

(** ** The reviver *)

Lemma includes_reserved (k : jsstring) :
  includes [lit "value"; TYPE_KEY] k = true <-> k = lit "value" \/ k = TYPE_KEY.
Proof.
  unfold includes. simpl. rewrite !orb_true_iff, !jsstring_eqb_eq. intuition congruence.
Qed.

Lemma envelope_shaped_obj (props : list (jsstring * jsvalue)) :
  envelope_shaped (VObj props) = true <->
  length props = 2
  /\ Forall (fun kv => fst kv = lit "value" \/ fst kv = TYPE_KEY) props.
Proof.
  unfold envelope_shaped. simpl. rewrite length_map.
  rewrite andb_true_iff, Nat.eqb_eq, forallb_forall, Forall_forall.
  split; intros [H1 H2]; split; auto.
  - intros kv Hin. apply includes_reserved, H2, in_map, Hin.
  - intros k Hin. apply in_map_iff in Hin as (kv & <- & Hin).
    apply includes_reserved, H2, Hin.
Qed.

Lemma reviver_plain (name : jsstring) (v : jsvalue) :
  envelope_shaped v = false -> reviver name v = Ok v.
Proof. unfold reviver. now intros ->. Qed.

Lemma reviver_string (name s : jsstring) : reviver name (VStr s) = Ok (VStr s).
Proof. reflexivity. Qed.

Lemma reviver_bigint_envelope (name : jsstring) (v : jsvalue) :
  reviver name (envelope v (VStr TypeBrand.BIGINT)) = BigInt v.
Proof. reflexivity. Qed.

Lemma reviver_date_envelope (name : jsstring) (v : jsvalue) :
  reviver name (envelope v (VStr TypeBrand.DATE)) = new_Date v.
Proof. reflexivity. Qed.

Lemma is_string_other (s : jsstring) (v : jsvalue) :
  v <> VStr s -> is_string s v = false.
Proof.
  destruct v; simpl; auto. intros Hv. apply jsstring_eqb_neq. congruence.
Qed.

(** C10.  Bytes whose text is well-formed JSON, the envelope
    [{"value": s, "typeInfo": "bigint"}], make [deserialize] throw when [s]
    is no integer literal: the error comes from the conversion to BigInt,
    not from the parser. *)
Theorem deserialize_throws_on_valid_text (b : Uint8Array) (s : jsstring) :
  parse_text (decode b) = Parsed (envelope (VStr s) (VStr TypeBrand.BIGINT)) [] ->
  StringToBigInt s = None ->
  deserialize b
  = Throw (SyntaxError (lit "Cannot convert " ++ s ++ lit " to a BigInt")).
Proof.
  intros Hp Hs. unfold deserialize, JSON_parse. rewrite Hp.
  change (BigInt_of_string s = Throw (SyntaxError (lit "Cannot convert " ++ s ++ lit " to a BigInt"))).
  unfold BigInt_of_string. now rewrite Hs.
Qed.

(** ** JSON text of values *)

Lemma parse_value_string f s rest :
  parse_value (S f) (QuoteJSONString s ++ rest) = Parsed (VStr s) rest.
Proof.
  unfold QuoteJSONString. cbn [parse_value app skip_ws drop_while]. tests.
  rewrite <- app_assoc. cbn [app]. rewrite parse_string_quoted. reflexivity.
Qed.

Lemma parse_value_null f rest :
  parse_value (S f) (lit "null" ++ rest) = Parsed VNull rest.
Proof.
  lits. cbn [parse_value app skip_ws drop_while]. tests. reflexivity.
Qed.

Lemma parse_value_bool f (b : bool) rest :
  parse_value (S f) ((if b then lit "true" else lit "false") ++ rest)
  = Parsed (VBool b) rest.
Proof.
  destruct b; lits; cbn [parse_value app skip_ws drop_while]; tests; reflexivity.
Qed.

Lemma number_head (c : jschar) :
  is_char "-" c = true \/ is_digit c = true ->
  is_json_ws c = false /\ is_char "{" c = false /\ is_char "[" c = false
  /\ (c =? 34)%N = false /\ is_char "]" c = false /\ is_char "}" c = false
  /\ (110 =? c)%N = false /\ (116 =? c)%N = false /\ (102 =? c)%N = false.
Proof. chars. bools. lia. Qed.

Lemma parse_value_number f tok rest :
  json_number tok = true -> delimited rest ->
  parse_value (S f) (tok ++ rest) = Parsed (VNum (Number_ofLiteral tok)) rest.
Proof.
  intros Htok Hrest.
  destruct (json_number_chars _ Htok) as [Hall (c & r & -> & Hc)].
  destruct (number_head _ Hc) as (H1 & H2 & H3 & H4 & _ & _ & H5 & H6 & H7).
  cbn [parse_value app skip_ws drop_while]. rewrite H1, H2, H3, H4.
  unfold literal_or_number. lits. cbn [strip_prefix]. rewrite H5, H6, H7.
  change (c :: r ++ rest) with ((c :: r) ++ rest).
  rewrite (span_app _ _ _ Hall Hrest). now rewrite Htok.
Qed.

Lemma json_text_head (t : jsvalue) (rest : jsstring) :
  textual t -> value_head (json_text t ++ rest).
Proof.
  destruct 1 as [|b|n Hn|s|z []|d []|l _ _|props _ _ _]; cbn [json_text];
    try (lits; cbn [app value_head]; repeat split; reflexivity).
  - destruct b; lits; cbn [app value_head]; repeat split; reflexivity.
  - destruct Hn as (_ & Htok & _).
    destruct (json_number_chars _ Htok) as [_ (c & r & -> & Hc)].
    destruct (number_head _ Hc) as (H1 & _ & _ & _ & H2 & H3 & _).
    cbn [app value_head]. auto.
Qed.

Lemma jsvalue_ind (P : jsvalue -> Prop) :
  P VUndefined -> P VNull -> (forall b, P (VBool b)) -> (forall n, P (VNum n)) ->
  (forall s, P (VStr s)) -> (forall z, P (VBigInt z)) -> (forall t, P (VDate t)) ->
  (forall elems, Forall P elems -> P (VArr elems)) ->
  (forall props, Forall (fun kv => P (snd kv)) props -> P (VObj props)) ->
  forall v, P v.
Proof.
  intros Hu Hn Hb Hnum Hs Hz Hd Ha Ho.
  fix IH 1. intros [| |b|n|s|z|t|elems|props].
  - exact Hu.
  - exact Hn.
  - apply Hb.
  - apply Hnum.
  - apply Hs.
  - apply Hz.
  - apply Hd.
  - apply Ha. induction elems as [|e elems IHe]; constructor; [apply IH | exact IHe].
  - apply Ho. induction props as [|[k e] props IHp]; constructor; [apply IH | exact IHp].
Qed.

Lemma has_own_includes (k : jsstring) (props : list (jsstring * jsvalue)) :
  has_own k props = includes (map fst props) k.
Proof.
  unfold has_own, includes. induction props as [|[k' v] props IH]; simpl; [reflexivity|].
  destruct (jsstring_eqb k k'); [reflexivity | exact IH].
Qed.

Lemma insert_index_last (i : N) (k : jsstring) (v : jsvalue)
    (acc : list (jsstring * jsvalue)) :
  forallb (fun k' => match array_index k' with
                     | Some j => (j <? i)%N
                     | None => false
                     end) (map fst acc) = true ->
  insert_index i k v acc = acc ++ [(k, v)].
Proof.
  induction acc as [|[k' v'] acc IH]; cbn [map fst forallb insert_index app];
    [reflexivity|].
  intros H. apply andb_true_iff in H as [Hk Hacc].
  destruct (array_index k') as [j|]; [|discriminate].
  now rewrite Hk, (IH Hacc).
Qed.

Lemma CreateDataProperty_fits (acc : list (jsstring * jsvalue))
    (k : jsstring) (v : jsvalue) :
  key_fits (map fst acc) k = true -> CreateDataProperty acc (k, v) = acc ++ [(k, v)].
Proof.
  unfold key_fits, CreateDataProperty. rewrite has_own_includes.
  intros H. apply andb_true_iff in H as [Hnew Hord].
  apply negb_true_iff in Hnew. rewrite Hnew.
  destruct (array_index k) as [i|]; [|reflexivity].
  now apply insert_index_last.
Qed.

Lemma fold_CreateDataProperty (props acc : list (jsstring * jsvalue)) :
  own_order (map fst acc) (map fst props) = true ->
  fold_left CreateDataProperty props acc = acc ++ props.
Proof.
  revert acc. induction props as [|[k v] props IH]; intros acc; cbn [map fst own_order fold_left].
  - now rewrite app_nil_r.
  - intros H. apply andb_true_iff in H as [Hk Hrest].
    rewrite (CreateDataProperty_fits _ _ _ Hk), IH.
    + now rewrite <- app_assoc.
    + now rewrite map_app.
Qed.

Lemma parse_elements_text (l : list jsvalue) :
  l <> [] -> Forall parses l ->
  forall fuel rest,
    2 * length (join (lit ",") (map json_text l)) + 2 <= fuel ->
    parse_elements fuel (join (lit ",") (map json_text l) ++ 93%N :: rest)
    = Parsed l rest.
Proof.
  induction l as [|t l IH]; [congruence|]. intros _ HF fuel rest Hfuel.
  inversion HF as [|? ? [Ht IHt] HF']; subst.
  destruct fuel as [|f]; [lia|]. cbn [parse_elements].
  destruct l as [|t2 l'].
  - cbn [map join] in *. rewrite IHt by (try reflexivity; lia).
    cbn [skip_ws drop_while]. tests. reflexivity.
  - change (join (lit ",") (map json_text (t :: t2 :: l')))
      with (json_text t ++ lit "," ++ join (lit ",") (map json_text (t2 :: l'))) in *.
    rewrite !length_app in Hfuel. rewrite <- !app_assoc.
    change (lit ",") with [44%N] in *. cbn [app length] in *.
    rewrite IHt by (try reflexivity; lia).
    cbn [skip_ws drop_while]. tests.
    rewrite IH by (try discriminate; try assumption; lia). reflexivity.
Qed.

Lemma parse_members_text (props : list (jsstring * jsvalue)) :
  props <> [] -> Forall (fun kv => parses (snd kv)) props ->
  forall fuel rest,
    2 * length (join (lit ",") (map member_text props)) + 2 <= fuel ->
    parse_members fuel (join (lit ",") (map member_text props) ++ 125%N :: rest)
    = Parsed props rest.
Proof.
  induction props as [|[k t] props IH]; [congruence|]. intros _ HF fuel rest Hfuel.
  inversion HF as [|? ? [Ht IHt] HF']; subst. cbn [snd] in *.
  destruct fuel as [|f]; [lia|]. cbn [parse_members].
  assert (forall tail,
            member_text (k, t) ++ tail
            = 34%N :: quote_body k ++ 34%N :: 58%N :: json_text t ++ tail) as Hm.
  { intros tail. unfold member_text, QuoteJSONString. cbn [fst snd].
    change (lit ":") with [58%N]. cbn [app]. rewrite <- !app_assoc. reflexivity. }
  assert (length (member_text (k, t)) = length (quote_body k) + length (json_text t) + 3) as Hlen.
  { specialize (Hm []). rewrite app_nil_r in Hm. rewrite Hm. cbn [length].
    rewrite !length_app. cbn [length]. rewrite ?length_app. cbn [length]. lia. }
  destruct props as [|kv2 props'].
  - cbn [map join] in *. rewrite Hm. cbn [skip_ws drop_while]. tests.
    rewrite parse_string_quoted. cbn [skip_ws drop_while]. tests.
    rewrite IHt by (try reflexivity; lia).
    cbn [skip_ws drop_while]. tests. reflexivity.
  - change (join (lit ",") (map member_text ((k, t) :: kv2 :: props')))
      with (member_text (k, t) ++ lit "," ++ join (lit ",") (map member_text (kv2 :: props'))) in *.
    rewrite !length_app in Hfuel. rewrite <- !app_assoc, Hm.
    change (lit ",") with [44%N] in *. cbn [app length] in *.
    cbn [skip_ws drop_while]. tests.
    rewrite parse_string_quoted. cbn [skip_ws drop_while]. tests.
    rewrite IHt by (try reflexivity; lia).
    cbn [skip_ws drop_while]. tests.
    rewrite IH by (try discriminate; try assumption; lia). reflexivity.
Qed.

Lemma Forall_parses (l : list jsvalue) :
  Forall (fun t => textual t -> parses t) l -> Forall textual l -> Forall parses l.
Proof.
  induction 1 as [|t l Ht _ IH]; intros HF; constructor; inversion HF; subst; auto.
Qed.

Lemma Forall_parses_members (props : list (jsstring * jsvalue)) :
  Forall (fun kv => textual (snd kv) -> parses (snd kv)) props ->
  Forall (fun kv => textual (snd kv)) props ->
  Forall (fun kv => parses (snd kv)) props.
Proof.
  induction 1 as [|t l Ht _ IH]; intros HF; constructor; inversion HF; subst; auto.
Qed.

Lemma join_head (sep : jsstring) (first : jsstring) (parts : list jsstring) (tail : jsstring) :
  exists more, join sep (first :: parts) ++ tail = first ++ more.
Proof.
  destruct parts as [|p parts]; cbn [join].
  - now exists tail.
  - exists (sep ++ join sep (p :: parts) ++ tail). now rewrite <- !app_assoc.
Qed.

Lemma parse_json_text (t : jsvalue) : textual t -> parses t.
Proof.
  induction t as [| |b|n|s|z|d|elems IH|props IH] using jsvalue_ind;
    intros Ht; (split; [exact Ht|]); intros fuel rest Hfuel Hrest;
    (destruct fuel as [|f]; [lia|]); inversion Ht; subst; try contradiction.
  - apply parse_value_null.
  - apply parse_value_bool.
  - match goal with H : number_exact _ |- _ => destruct H as (_ & Htok & Hlit) end.
    cbn [json_text]. rewrite parse_value_number by assumption. now rewrite Hlit.
  - apply parse_value_string.
  - pose proof (Forall_parses _ IH ltac:(assumption)) as HF.
    cbn [json_text] in *. change (lit "[") with [91%N] in *.
    change (lit "]") with [93%N] in *. rewrite <- !app_assoc. cbn [app] in *.
    cbn [parse_value skip_ws drop_while]. tests.
    destruct elems as [|t1 elems].
    + cbn [map join app skip_ws drop_while]. tests. reflexivity.
    + assert (value_head (join (lit ",") (map json_text (t1 :: elems)) ++ 93%N :: rest)) as Hh.
      { cbn [map]. destruct (join_head (lit ",") (json_text t1) (map json_text elems) (93%N :: rest))
          as [more ->]. apply json_text_head. now inversion HF as [|? ? [? _] _]. }
      cbn [length] in Hfuel. rewrite length_app in Hfuel. cbn [length] in Hfuel.
      pose proof (parse_elements_text (t1 :: elems) ltac:(discriminate) HF f rest ltac:(lia)) as Hp.
      destruct (join (lit ",") (map json_text (t1 :: elems)) ++ 93%N :: rest) as [|c r];
        [contradiction|].
      destruct Hh as (Hws & Hb & _). cbn [skip_ws drop_while]. rewrite Hws, Hb, Hp. reflexivity.
  - pose proof (Forall_parses_members _ IH ltac:(assumption)) as HF.
    cbn [json_text] in *. change (lit "{") with [123%N] in *.
    change (lit "}") with [125%N] in *. rewrite <- !app_assoc. cbn [app] in *.
    cbn [parse_value skip_ws drop_while]. tests.
    destruct props as [|[k1 t1] props].
    + cbn [map join app skip_ws drop_while]. tests. reflexivity.
    + fold member_text in *.
      assert (value_head (join (lit ",") (map member_text ((k1, t1) :: props)) ++ 125%N :: rest)) as Hh.
      { cbn [map]. destruct (join_head (lit ",") (member_text (k1, t1)) (map member_text props) (125%N :: rest))
          as [more ->]. unfold member_text, QuoteJSONString. cbn [app value_head].
        repeat split; reflexivity. }
      cbn [length] in Hfuel. rewrite length_app in Hfuel. cbn [length] in Hfuel.
      pose proof (parse_members_text ((k1, t1) :: props) ltac:(discriminate) HF f rest ltac:(lia)) as Hp.
      destruct (join (lit ",") (map member_text ((k1, t1) :: props)) ++ 125%N :: rest) as [|c r];
        [contradiction|].
      destruct Hh as (Hws & _ & Hb). cbn [skip_ws drop_while]. rewrite Hws, Hb, Hp.
      rewrite fold_CreateDataProperty by assumption. reflexivity.
Qed.

(** *** Writing *)

Lemma sequence_map_ok {A B : Type} (f : A -> result B) (g : A -> B) (l : list A) :
  (forall a, In a l -> f a = Ok (g a)) -> sequence (map f l) = Ok (map g l).
Proof.
  induction l as [|a l IH]; intros H; cbn [map sequence]; [reflexivity|].
  rewrite (H a (or_introl eq_refl)). cbn [bind].
  rewrite IH by (intros x Hx; apply H; now right). reflexivity.
Qed.

Lemma somes_map_Some {A B : Type} (g : A -> B) (l : list A) :
  somes (map (fun a => Some (g a)) l) = map g l.
Proof.
  unfold somes. induction l as [|a l IH]; cbn [map flat_map app]; [reflexivity|].
  now rewrite IH.
Qed.

Lemma own_order_fresh (keys before : list jsstring) :
  own_order before keys = true ->
  forall k, In k keys -> includes before k = false.
Proof.
  revert before. induction keys as [|k1 keys IH]; intros before H k Hin; [contradiction|].
  cbn [own_order] in H. apply andb_true_iff in H as [Hfit Hrest].
  destruct Hin as [-> | Hin].
  - unfold key_fits in Hfit. apply andb_true_iff in Hfit as [Hnew _].
    now apply negb_true_iff in Hnew.
  - specialize (IH _ Hrest k Hin). unfold includes in *.
    rewrite existsb_app in IH. now apply orb_false_iff in IH as [IH _].
Qed.

Lemma own_order_lookup (props : list (jsstring * jsvalue)) (before : list jsstring) :
  own_order before (map fst props) = true ->
  forall k v, In (k, v) props -> lookup k props = Some v.
Proof.
  revert before. induction props as [|[k0 v0] props IH]; intros before H k v Hin;
    [contradiction|].
  cbn [map fst own_order] in H. apply andb_true_iff in H as [_ Hrest].
  cbn [lookup]. destruct Hin as [E | Hin].
  - injection E as -> ->. now rewrite jsstring_eqb_refl.
  - pose proof (own_order_fresh _ _ Hrest k (in_map fst _ _ Hin)) as Hk.
    unfold includes in Hk. rewrite existsb_app in Hk.
    apply orb_false_iff in Hk as [_ Hk]. cbn [existsb] in Hk.
    rewrite orb_false_r in Hk. rewrite Hk. now apply (IH _ Hrest).
Qed.

Lemma Get_index (l : list jsvalue) (i : nat) :
  (N.of_nat (length l) <= 4294967295)%N -> i < length l ->
  Get (VArr l) (index_key i) = nth i l VUndefined.
Proof.
  intros Hl Hi. cbn [Get]. rewrite array_index_key by lia.
  now rewrite Nat2N.id.
Qed.

Lemma map_nth_seq {B : Type} (h : jsvalue -> B) (l : list jsvalue) :
  map (fun i => h (nth i l VUndefined)) (seq 0 (length l)) = map h l.
Proof.
  induction l as [|a l IH]; [reflexivity|].
  cbn [length seq map nth]. f_equal.
  rewrite <- seq_shift, map_map. exact IH.
Qed.

Lemma depth_elem (l : list jsvalue) (e : jsvalue) :
  In e l -> value_depth e <= fold_right (fun e d => Nat.max (value_depth e) d) 0 l.
Proof.
  induction l as [|a l IH]; [contradiction|]. cbn [fold_right].
  intros [-> | H]; [lia|]. specialize (IH H). lia.
Qed.

Lemma depth_member (props : list (jsstring * jsvalue)) (kv : jsstring * jsvalue) :
  In kv props ->
  value_depth (snd kv) <= fold_right (fun kv d => Nat.max (value_depth (snd kv)) d) 0 props.
Proof.
  induction props as [|a l IH]; [contradiction|]. cbn [fold_right].
  intros [-> | H]; [lia|]. specialize (IH H). lia.
Qed.

Lemma serialize_envelope (f : nat) (s tag : jsstring) :
  SerializeJSONObject (SerializeJSONProperty (S f) replacer)
    (envelope (VStr s) (VStr tag))
  = Ok (Some (json_text (envelope (VStr s) (VStr tag)))).
Proof. reflexivity. Qed.

Lemma replacer_unfold (this : jsvalue) (key : jsstring) (v : jsvalue) :
  replacer this key v
  = match v with
    | VBigInt z => Ok (envelope (VStr (BigInt_toString z)) (VStr TypeBrand.BIGINT))
    | _ =>
        match Get this key with
        | VDate t =>
            iso <- toISOString t ;;
            Ok (envelope (VStr iso) (VStr TypeBrand.DATE))
        | _ => Ok v
        end
    end.
Proof. reflexivity. Qed.

Ltac write_step Hget :=
  cbn [SerializeJSONProperty]; rewrite Hget; cbn [bind Date_toJSON];
  rewrite replacer_unfold, ?Hget; cbn [bind toISOString].

Lemma stringify_exact (v : jsvalue) : exact v -> writes v.
Proof.
  induction v as [| |b|n|s|z|d|elems IH|props IH] using jsvalue_ind;
    intros Hv fuel key holder Hfuel Hget;
    (destruct fuel as [|f]; [lia|]); inversion Hv; subst.
  - now write_step Hget.
  - now write_step Hget.
  - match goal with H : number_exact _ |- _ => destruct H as (Hfin & _) end.
    write_step Hget. cbn [tagged_form json_text]. now rewrite Hfin.
  - now write_step Hget.
  - cbn [value_depth] in Hfuel. destruct f as [|f]; [lia|].
    write_step Hget. apply serialize_envelope.
  - match goal with H : date_exact _ |- _ => destruct H as (t & -> & _) end.
    cbn [value_depth] in Hfuel. destruct f as [|f]; [lia|].
    write_step Hget. apply serialize_envelope.
  - write_step Hget.
    unfold SerializeJSONArray. cbn [Object_keys]. rewrite map_map.
    rewrite (sequence_map_ok _
               (fun i => json_text (tagged_form (nth i elems VUndefined)))).
    + cbn [bind tagged_form json_text].
      rewrite (map_nth_seq (fun e => json_text (tagged_form e)) elems), map_map.
      reflexivity.
    + intros i Hi. apply in_seq in Hi.
      assert (In (nth i elems VUndefined) elems) as Hin by (apply nth_In; lia).
      rewrite Forall_forall in IH.
      match goal with H : Forall _ elems |- _ => rewrite Forall_forall in H;
        pose proof (H _ Hin) as Hex end.
      rewrite (IH _ Hin Hex f (index_key i) (VArr elems)).
      * reflexivity.
      * cbn [value_depth] in Hfuel. pose proof (depth_elem _ _ Hin). lia.
      * apply Get_index; [assumption | lia].
  - write_step Hget.
    unfold SerializeJSONObject. cbn [Object_keys].
    assert (forall kv, In kv props ->
              SerializeJSONProperty f replacer (fst kv) (VObj props)
              = Ok (Some (json_text (tagged_form (snd kv))))) as Hmem.
    { intros [k e] Hin. rewrite Forall_forall in IH.
      match goal with H : Forall _ props |- _ => rewrite Forall_forall in H;
        pose proof (H _ Hin) as Hex end.
      apply (IH _ Hin Hex).
      - cbn [value_depth] in Hfuel. pose proof (depth_member _ _ Hin). lia.
      - cbn [Get fst snd]. now rewrite (own_order_lookup _ _ H0 _ _ Hin). }
    rewrite map_map.
    rewrite (sequence_map_ok _
               (fun kv => Some (QuoteJSONString (fst kv) ++ lit ":"
                                ++ json_text (tagged_form (snd kv))))).
    + cbn [bind tagged_form json_text]. rewrite somes_map_Some, map_map. reflexivity.
    + intros kv Hin. rewrite (Hmem _ Hin). reflexivity.
Qed.

(** *** Reviving *)

Lemma envelope_shaped_arr (l : list jsvalue) : envelope_shaped (VArr l) = false.
Proof.
  unfold envelope_shaped. cbn [Object_keys is_null negb typeof].
  destruct l as [|a [|b [|c l]]]; reflexivity.
Qed.

Lemma reviver_untagged (name : jsstring) (v : jsvalue) :
  tagged v = false -> reviver name v = Ok v.
Proof.
  unfold tagged, reviver. destruct (envelope_shaped v); [|reflexivity].
  cbn [andb]. intros H. apply orb_false_iff in H as [-> ->]. reflexivity.
Qed.

Lemma exact_defined (v : jsvalue) : exact v -> v <> VUndefined.
Proof. inversion 1; discriminate. Qed.

Lemma internalize_exact (v : jsvalue) :
  exact v -> forall name, InternalizeJSONProperty reviver name (tagged_form v) = Ok v.
Proof.
  induction v as [| |b|n|s|z|d|elems IH|props IH] using jsvalue_ind;
    intros Hv name; inversion Hv; subst; try reflexivity.
  - change (BigInt_of_string (BigInt_toString z) = Ok (VBigInt z)).
    unfold BigInt_of_string. now rewrite StringToBigInt_toString.
  - match goal with H : date_exact _ |- _ => destruct H as (t & -> & Hr & Hp) end.
    change (new_Date (VStr (Date_toISOString t)) = Ok (VDate (Some t))).
    cbn [new_Date]. rewrite Hp. cbn [TimeClip].
    apply Z.leb_le in Hr. now rewrite Hr.
  - cbn [tagged_form InternalizeJSONProperty].
    match goal with
    | |- bind (?w 0 (map tagged_form elems)) _ = _ =>
        assert (forall i, w i (map tagged_form elems) = Ok elems) as Hwalk
    end.
    { assert (Forall exact elems) as HF by assumption. revert HF.
      clear - IH. induction IH as [|e elems He _ IHl]; intros HF i; [reflexivity|].
      inversion HF; subst. cbn [map]. rewrite He by assumption. cbn [bind].
      rewrite IHl by assumption. reflexivity. }
    rewrite Hwalk. cbn [bind]. apply reviver_plain, envelope_shaped_arr.
  - cbn [tagged_form InternalizeJSONProperty].
    match goal with
    | |- bind (?w (map ?g props)) _ = _ =>
        assert (w (map g props) = Ok props) as Hwalk
    end.
    { assert (Forall (fun kv => exact (snd kv)) props) as HF by assumption. revert HF.
      clear - IH. induction IH as [|[k e] props He _ IHl]; intros HF; [reflexivity|].
      inversion HF; subst. cbn [map fst snd] in *. rewrite He by assumption.
      cbn [bind]. rewrite IHl by assumption. cbn [bind].
      pose proof (exact_defined _ ltac:(eassumption)). destruct e; congruence. }
    rewrite Hwalk. cbn [bind]. now apply reviver_untagged.
Qed.

Lemma exact_textual (v : jsvalue) : exact v -> textual (tagged_form v).
Proof.
  induction v as [| |b|n|s|z|d|elems IH|props IH] using jsvalue_ind;
    intros Hv; inversion Hv; subst; cbn [tagged_form]; try (now constructor).
  - apply built_obj; [reflexivity | exact I | repeat constructor].
  - match goal with H : date_exact _ |- _ => destruct H as (t & -> & _) end.
    cbv beta iota. apply built_obj; [reflexivity | exact I | repeat constructor].
  - assert (Forall exact elems) as HF by assumption.
    constructor; [now rewrite length_map|].
    apply Forall_map. rewrite Forall_forall in *.
    intros x Hx. apply (IH x Hx), (HF x Hx).
  - assert (Forall (fun kv => exact (snd kv)) props) as HF by assumption.
    constructor; [now rewrite map_map | exact I |].
    apply Forall_map. rewrite Forall_forall in *.
    intros x Hx. apply (IH x Hx), (HF x Hx).
Qed.

(** ** The recursion bounds *)

Lemma literal_or_number_shorter (s : jsstring) (v : jsvalue) (rest : jsstring) :
  literal_or_number s = Parsed v rest -> length rest < length s.
Proof.
  unfold literal_or_number. intros H.
  destruct (strip_prefix (lit "null") s) eqn:E1.
  { injection H as _ <-. apply strip_prefix_length in E1. cbn in E1. lia. }
  destruct (strip_prefix (lit "true") s) eqn:E2.
  { injection H as _ <-. apply strip_prefix_length in E2. cbn in E2. lia. }
  destruct (strip_prefix (lit "false") s) eqn:E3.
  { injection H as _ <-. apply strip_prefix_length in E3. cbn in E3. lia. }
  destruct (span is_number_char s) as [tok r] eqn:E.
  destruct (json_number tok) eqn:Hn; [|discriminate]. injection H as _ <-.
  apply span_spec in E as [-> _].
  destruct (json_number_chars _ Hn) as [_ (c & r' & -> & _)].
  rewrite length_app. cbn [length]. lia.
Qed.

(** Parsing consumes text. *)
Lemma parse_shorter (f : nat) :
  (forall s v rest, parse_value f s = Parsed v rest -> length rest < length s)
  /\ (forall s vs rest, parse_elements f s = Parsed vs rest -> length rest < length s)
  /\ (forall s ms rest, parse_members f s = Parsed ms rest -> length rest < length s).
Proof.
  induction f as [|f (IHv & IHe & IHm)]; [repeat split; discriminate|].
  split; [|split].
  - intros s v rest H. cbn [parse_value] in H.
    destruct (skip_ws s) as [|c r] eqn:Es; [discriminate|].
    apply skip_ws_cons in Es.
    destruct (is_char "{" c).
    { destruct (skip_ws r) as [|c' r'] eqn:Er; [discriminate|].
      apply skip_ws_cons in Er.
      destruct (is_char "}" c'); [injection H as _ <-; lia|].
      destruct (parse_members f (c' :: r')) eqn:Ep; try discriminate.
      injection H as _ <-. apply IHm in Ep. cbn [length] in Ep. lia. }
    destruct (is_char "[" c).
    { destruct (skip_ws r) as [|c' r'] eqn:Er; [discriminate|].
      apply skip_ws_cons in Er.
      destruct (is_char "]" c'); [injection H as _ <-; lia|].
      destruct (parse_elements f (c' :: r')) eqn:Ep; try discriminate.
      injection H as _ <-. apply IHe in Ep. cbn [length] in Ep. lia. }
    destruct (c =? 34)%N.
    { destruct (parse_string r) as [[str rest']|] eqn:Ep; [|discriminate].
      injection H as _ <-. apply (parse_string_shorter _ _ _ _ (le_n _)) in Ep. lia. }
    apply literal_or_number_shorter in H. cbn [length] in H. lia.
  - intros s vs rest H. cbn [parse_elements] in H.
    destruct (parse_value f s) as [v r| |] eqn:Ev; try discriminate.
    apply IHv in Ev.
    destruct (skip_ws r) as [|c r'] eqn:Er; [discriminate|].
    apply skip_ws_cons in Er.
    destruct (is_char "," c).
    { destruct (parse_elements f r') eqn:Ep; try discriminate.
      injection H as _ <-. apply IHe in Ep. lia. }
    destruct (is_char "]" c); [|discriminate]. injection H as _ <-. lia.
  - intros s ms rest H. cbn [parse_members] in H.
    destruct (skip_ws s) as [|q r0] eqn:Es; [discriminate|].
    apply skip_ws_cons in Es.
    destruct (q =? 34)%N; [|discriminate].
    destruct (parse_string r0) as [[k r1]|] eqn:Ek; [|discriminate].
    apply (parse_string_shorter _ _ _ _ (le_n _)) in Ek.
    destruct (skip_ws r1) as [|colon r2] eqn:E1; [discriminate|].
    apply skip_ws_cons in E1.
    destruct (is_char ":" colon); [|discriminate].
    destruct (parse_value f r2) as [v r3| |] eqn:Ev; try discriminate.
    apply IHv in Ev.
    destruct (skip_ws r3) as [|c r4] eqn:E3; [discriminate|].
    apply skip_ws_cons in E3.
    destruct (is_char "," c).
    { destruct (parse_members f r4) eqn:Ep; try discriminate.
      injection H as _ <-. apply IHm in Ep. lia. }
    destruct (is_char "}" c); [|discriminate]. injection H as _ <-. lia.
Qed.

(** The recursion bound of [parse_text] is never reached. *)
Lemma parse_enough (f : nat) :
  (forall s, 2 * length s + 1 <= f -> parse_value f s <> Exhausted)
  /\ (forall s, 2 * length s + 2 <= f -> parse_elements f s <> Exhausted)
  /\ (forall s, 2 * length s + 2 <= f -> parse_members f s <> Exhausted).
Proof.
  induction f as [|f (IHv & IHe & IHm)]; [repeat split; intros; lia|].
  destruct (parse_shorter f) as (Sv & Se & Sm).
  split; [|split].
  - intros s Hf. cbn [parse_value].
    destruct (skip_ws s) as [|c r] eqn:Es; [discriminate|].
    apply skip_ws_cons in Es.
    destruct (is_char "{" c).
    { destruct (skip_ws r) as [|c' r'] eqn:Er; [discriminate|].
      apply skip_ws_cons in Er.
      destruct (is_char "}" c'); [discriminate|].
      specialize (IHm (c' :: r')). cbn [length] in IHm.
      destruct (parse_members f (c' :: r')); try discriminate.
      exfalso. apply IHm; [lia | reflexivity]. }
    destruct (is_char "[" c).
    { destruct (skip_ws r) as [|c' r'] eqn:Er; [discriminate|].
      apply skip_ws_cons in Er.
      destruct (is_char "]" c'); [discriminate|].
      specialize (IHe (c' :: r')). cbn [length] in IHe.
      destruct (parse_elements f (c' :: r')); try discriminate.
      exfalso. apply IHe; [lia | reflexivity]. }
    destruct (c =? 34)%N.
    { destruct (parse_string r) as [[str rest']|]; discriminate. }
    unfold literal_or_number.
    destruct (strip_prefix (lit "null") (c :: r)); [discriminate|].
    destruct (strip_prefix (lit "true") (c :: r)); [discriminate|].
    destruct (strip_prefix (lit "false") (c :: r)); [discriminate|].
    destruct (span is_number_char (c :: r)) as [tok rest].
    destruct (json_number tok); discriminate.
  - intros s Hf. cbn [parse_elements].
    specialize (IHv s). destruct (parse_value f s) as [v r| |] eqn:Ev;
      [|discriminate|exfalso; apply IHv; [lia | reflexivity]].
    apply Sv in Ev.
    destruct (skip_ws r) as [|c r'] eqn:Er; [discriminate|].
    apply skip_ws_cons in Er.
    destruct (is_char "," c).
    { specialize (IHe r'). destruct (parse_elements f r'); try discriminate.
      exfalso. apply IHe; [lia | reflexivity]. }
    destruct (is_char "]" c); discriminate.
  - intros s Hf. cbn [parse_members].
    destruct (skip_ws s) as [|q r0] eqn:Es; [discriminate|].
    apply skip_ws_cons in Es.
    destruct (q =? 34)%N; [|discriminate].
    destruct (parse_string r0) as [[k r1]|] eqn:Ek; [|discriminate].
    apply (parse_string_shorter _ _ _ _ (le_n _)) in Ek.
    destruct (skip_ws r1) as [|colon r2] eqn:E1; [discriminate|].
    apply skip_ws_cons in E1.
    destruct (is_char ":" colon); [|discriminate].
    specialize (IHv r2). destruct (parse_value f r2) as [v r3| |] eqn:Ev;
      [|discriminate|exfalso; apply IHv; [lia | reflexivity]].
    apply Sv in Ev.
    destruct (skip_ws r3) as [|c r4] eqn:E3; [discriminate|].
    apply skip_ws_cons in E3.
    destruct (is_char "," c).
    { specialize (IHm r4). destruct (parse_members f r4); try discriminate.
      exfalso. apply IHm; [lia | reflexivity]. }
    destruct (is_char "}" c); discriminate.
Qed.

Lemma parse_text_not_exhausted (text : jsstring) : parse_text text <> Exhausted.
Proof.
  unfold parse_text.
  destruct (parse_enough (2 * length text + 1)) as (Hv & _).
  specialize (Hv text (le_n _)).
  destruct (parse_value (2 * length text + 1) text) as [v rest| |];
    [destruct (skip_ws rest); discriminate | discriminate | congruence].
Qed.

Lemma sequence_throw {A : Type} (l : list (result A)) (e : error) :
  sequence l = Throw e -> In (Throw e) l.
Proof.
  induction l as [|r l IH]; cbn [sequence]; [discriminate|].
  destruct r as [a|e']; cbn [bind].
  - destruct (sequence l); [discriminate|]. intros H. injection H as ->.
    right. now apply IH.
  - intros H. injection H as ->. now left.
Qed.

Lemma Get_cases (holder : jsvalue) (key : jsstring) :
  Get holder key = VUndefined
  \/ (exists l, holder = VArr l /\ In (Get holder key) l)
  \/ (exists props, holder = VObj props /\ In (key, Get holder key) props).
Proof.
  destruct holder as [| |b|n|s|z|t|l|props]; cbn [Get]; auto.
  - destruct (array_index key) as [i|]; [|auto].
    destruct (nth_in_or_default (N.to_nat i) l VUndefined) as [H | H]; [|auto].
    right. left. eauto.
  - destruct (lookup key props) as [v|] eqn:E; [|auto].
    right. right. exists props. split; [reflexivity|].
    induction props as [|[k' v'] props IH]; [discriminate|]. cbn [lookup] in E.
    destruct (jsstring_eqb key k') eqn:Ek.
    + apply jsstring_eqb_eq in Ek. injection E as ->. subst. now left.
    + right. now apply IH.
Qed.

Lemma invalid_time_not_stack :
  RangeError (lit "Invalid time value") <> stack_exceeded.
Proof. intros H. injection H as H. vm_compute in H. discriminate H. Qed.

Lemma bigint_not_stack :
  TypeError (lit "Do not know how to serialize a BigInt") <> stack_exceeded.
Proof. discriminate. Qed.

(** The recursion bound of [serialize] is never reached. *)
Lemma stringify_enough (v : jsvalue) :
  forall f key holder,
    Get holder key = v -> value_depth v <= f ->
    SerializeJSONProperty (S f) replacer key holder <> Throw stack_exceeded.
Proof.
  induction v as [| |b|n|s|z|d|elems IH|props IH] using jsvalue_ind;
    intros f key holder Hget Hf; cbn [SerializeJSONProperty]; rewrite Hget;
    cbn [bind Date_toJSON]; try (rewrite replacer_unfold, ?Hget; cbn [bind]);
    try discriminate.
  - cbn [value_depth] in Hf. destruct f as [|f]; [lia|].
    rewrite serialize_envelope. discriminate.
  - cbn [value_depth] in Hf. destruct f as [|f]; [lia|].
    destruct d as [t|]; cbn [Date_toJSON bind]; rewrite replacer_unfold, Hget;
      cbn [toISOString bind].
    + rewrite serialize_envelope. discriminate.
    + intros H. injection H as H. now apply invalid_time_not_stack.
  - cbn [value_depth] in Hf. destruct f as [|f]; [lia|].
    unfold SerializeJSONArray.
    destruct (sequence _) as [partial|e] eqn:E; cbn [bind]; [discriminate|].
    intros H. injection H as ->. apply sequence_throw in E.
    apply in_map_iff in E as (k & Hk & _).
    destruct (SerializeJSONProperty (S f) replacer k (VArr elems)) as [o|e] eqn:Ep;
      [discriminate|]. cbn [bind] in Hk. injection Hk as ->.
    revert Ep. destruct (Get_cases (VArr elems) k) as [Hu | [(l & E & Hin) | (p & E & _)]];
      [| |discriminate].
    + cbn [SerializeJSONProperty]. rewrite Hu. cbn [bind].
      rewrite replacer_unfold, Hu. discriminate.
    + injection E as <-. rewrite Forall_forall in IH.
      apply (IH _ Hin); [reflexivity|].
      pose proof (depth_elem _ _ Hin). lia.
  - cbn [value_depth] in Hf. destruct f as [|f]; [lia|].
    unfold SerializeJSONObject.
    destruct (sequence _) as [partial|e] eqn:E; cbn [bind]; [discriminate|].
    intros H. injection H as ->. apply sequence_throw in E.
    apply in_map_iff in E as (k & Hk & _).
    destruct (SerializeJSONProperty (S f) replacer k (VObj props)) as [o|e] eqn:Ep;
      [discriminate|]. cbn [bind] in Hk. injection Hk as ->.
    revert Ep. destruct (Get_cases (VObj props) k) as [Hu | [(l & E & _) | (p & E & Hin)]];
      [|discriminate|].
    + cbn [SerializeJSONProperty]. rewrite Hu. cbn [bind].
      rewrite replacer_unfold, Hu. discriminate.
    + injection E as <-. rewrite Forall_forall in IH.
      apply (IH _ Hin); [reflexivity|].
      pose proof (depth_member _ _ Hin). cbn [snd] in *. lia.
Qed.

Lemma JSON_stringify_not_exhausted (v : jsvalue) :
  JSON_stringify (S (value_depth v)) v replacer <> Throw stack_exceeded.
Proof.
  unfold JSON_stringify. apply (stringify_enough v); [reflexivity | lia].
Qed.

(** ** The round trip *)

Lemma stringify_text (v : jsvalue) :
  exact v ->
  JSON_stringify (S (value_depth v)) v replacer
  = Ok (Some (json_text (tagged_form v))).
Proof.
  intros Hv. unfold JSON_stringify.
  apply (stringify_exact v Hv); [lia | reflexivity].
Qed.

Lemma parse_text_json_text (t : jsvalue) :
  textual t -> parse_text (json_text t) = Parsed t [].
Proof.
  intros Ht. unfold parse_text.
  destruct (parse_json_text t Ht) as [_ Hp].
  rewrite <- (app_nil_r (json_text t)) at 2.
  rewrite Hp by (try exact I; lia). reflexivity.
Qed.

(** C2, amended.  A supported value whose numbers are exact, whose
    timestamps are valid and in which no mapping has just the keys
    ["value"] and ["typeInfo"] with the tag ["bigint"] or ["date"] comes
    back from [deserialize (serialize v)] as it was — a big integer of any
    size as the same integer, a timestamp as the same millisecond —
    provided the host codec returns the serialized text unchanged. *)
Theorem exact_round_trip (v : jsvalue) :
  exact v ->
  (forall text,
     JSON_stringify (S (value_depth v)) v replacer = Ok (Some text) ->
     decode (encode text) = text) ->
  (b <- serialize v ;; deserialize b) = Ok v.
Proof.
  intros Hv Hcodec. pose proof (stringify_text v Hv) as Ht.
  unfold serialize. rewrite Ht. cbn [bind].
  unfold deserialize, JSON_parse. rewrite (Hcodec _ Ht).
  rewrite (parse_text_json_text _ (exact_textual v Hv)).
  apply internalize_exact, Hv.
Qed.

(** The mapping [{"value": "5", "typeInfo": "bigint"}] on any host whose
    codec returns its text: written as it is, read as the integer 5. *)
Example envelope_like_text :
  JSON_stringify (S (value_depth envelope_like)) envelope_like replacer
  = Ok (Some (json "{'value':'5','typeInfo':'bigint'}")).
Proof. reflexivity. Qed.

Example envelope_like_parsed :
  JSON_parse (json "{'value':'5','typeInfo':'bigint'}") reviver = Ok (VBigInt 5).
Proof. reflexivity. Qed.

Lemma envelope_like_round_trip :
  decode (encode (json "{'value':'5','typeInfo':'bigint'}"))
  = json "{'value':'5','typeInfo':'bigint'}" ->
  (b <- serialize envelope_like ;; deserialize b) = Ok (VBigInt 5).
Proof.
  intros H. unfold serialize. rewrite envelope_like_text. cbn [bind].
  unfold deserialize. rewrite H. apply envelope_like_parsed.
Qed.

(** ** Byte arrays and text decoders *)

Lemma Uint8Array_set_fits (target source : Uint8Array) (offset : nat) :
  length source + offset <= length target ->
  Uint8Array_set target source offset
  = Ok (firstn offset target ++ source ++ skipn (offset + length source) target).
Proof.
  intros H. unfold Uint8Array_set. apply Nat.leb_le in H. now rewrite H.
Qed.

(** X4.  [concat] never throws: both copies fit the array it allocates,
    and the result is the bytes of the first array followed by the bytes
    of the second, with nothing left of the zeros. *)
Theorem concat_appends (array1 array2 : Uint8Array) :
  concat array1 array2 = Ok (array1 ++ array2).
Proof.
  unfold concat, Uint8Array_new.
  rewrite Uint8Array_set_fits by (rewrite repeat_length; lia).
  cbn [bind firstn app Nat.add]. rewrite repeat_app, skipn_app, repeat_length.
  rewrite Nat.sub_diag, (skipn_all2 (repeat x00 (length array1)))
    by (rewrite repeat_length; lia).
  cbn [skipn app].
  rewrite Uint8Array_set_fits by (rewrite length_app, repeat_length; lia).
  cbn [bind]. rewrite firstn_app, Nat.sub_diag, firstn_all. cbn [firstn].
  rewrite app_nil_r, skipn_all2 by (rewrite length_app, repeat_length; lia).
  now rewrite app_nil_r.
Qed.

(** X5.  A [TextDecoder] made without an argument, or with ["utf-8"],
    decodes as [decode] does, one made with ["latin1"] as [str] does; with
    any other name, also another spelling of these two, [decode] throws
    the error that names the encoding, and there is no fallback. *)
Theorem TextDecoder_decode_supported (e : option jsstring) (a : Uint8Array) :
  let this := new_TextDecoder e in
  (e = None \/ e = Some (lit "utf-8") -> TextDecoder_decode this a = Ok (decode a))
  /\ (e = Some (lit "latin1") -> TextDecoder_decode this a = Ok (str a))
  /\ (forall name, e = Some name -> name <> lit "utf-8" -> name <> lit "latin1" ->
      TextDecoder_decode this a = Throw (Error (lit "unsupported encoding: " ++ name))).
Proof.
  cbv zeta. split; [|split].
  - intros [-> | ->]; reflexivity.
  - intros ->; reflexivity.
  - intros name -> H1 H2. unfold TextDecoder_decode, new_TextDecoder. cbn [encoding].
    apply jsstring_eqb_neq in H1, H2. now rewrite H1, H2.
Qed.

(** ** What [serialize] writes *)

Lemma quote_char_plain (c : jschar) : plain_char c = true -> quote_char c = [c].
Proof.
  unfold plain_char, quote_char. intros H. bools. destruct H as (((H1 & H2) & H3) & H4).
  destruct (N.eqb_spec c 8) as [-> | H8]; [lia|].
  destruct (N.eqb_spec c 9) as [-> | H9]; [lia|].
  destruct (N.eqb_spec c 10) as [-> | H10]; [lia|].
  destruct (N.eqb_spec c 12) as [-> | H12]; [lia|].
  destruct (N.eqb_spec c 13) as [-> | H13]; [lia|].
  destruct (N.eqb_spec c 34) as [-> | H34]; [lia|].
  destruct (N.eqb_spec c (ch "\")) as [-> | H92]; [exfalso; apply H3; reflexivity|].
  destruct ((c <? 32)%N || is_low_surrogate c || is_high_surrogate c) eqn:E;
    [|reflexivity].
  exfalso. chars. bools. lia.
Qed.

Lemma quote_body_plain (s : jsstring) :
  forallb plain_char s = true -> quote_body s = s.
Proof.
  induction s as [|c s IH]; [reflexivity|]. cbn [forallb]. intros H.
  apply andb_true_iff in H as [Hc Hs]. specialize (IH Hs).
  cbn [quote_body]. rewrite IH, (quote_char_plain c Hc).
  assert (is_high_surrogate c = false) as ->; [|reflexivity].
  unfold plain_char in Hc. chars. bools. lia.
Qed.

Lemma is_decimal_plain (n : N) (s : jsstring) :
  is_decimal n s -> forallb plain_char s = true.
Proof.
  induction 1 as [d Hd | n d s _ IH _ Hd].
  - cbn [forallb]. rewrite andb_true_r. unfold plain_char. chars. bools. lia.
  - rewrite forallb_app, IH. cbn [forallb andb]. rewrite andb_true_r.
    unfold plain_char. chars. bools. lia.
Qed.

Lemma BigInt_toString_plain (z : Z) : forallb plain_char (BigInt_toString z) = true.
Proof.
  destruct z as [|p|p]; cbn [BigInt_toString].
  - apply (is_decimal_plain _ _ (decimal_of_N_decimal _)).
  - apply (is_decimal_plain _ _ (decimal_of_N_decimal _)).
  - cbn [forallb]. rewrite (is_decimal_plain _ _ (decimal_of_N_decimal _)).
    reflexivity.
Qed.

Lemma bigint_text (z : Z) :
  json_text (tagged_form (VBigInt z))
  = json "{'value':'" ++ BigInt_toString z ++ json "','typeInfo':'bigint'}".
Proof.
  cbn [tagged_form envelope json_text map fst snd join]. unfold QuoteJSONString.
  rewrite (quote_body_plain _ (BigInt_toString_plain z)).
  cbn. rewrite <- !app_assoc. reflexivity.
Qed.

(** X6.  The bytes of a big integer, of any sign and size, are the UTF-8
    of the envelope, [value] before [typeInfo] and no white space, around
    the decimal digits of the integer, none of them escaped. *)
Theorem serialize_bigint_bytes (z : Z) :
  serialize (VBigInt z)
  = Ok (encode (json "{'value':'" ++ BigInt_toString z ++ json "','typeInfo':'bigint'}")).
Proof.
  unfold serialize. rewrite stringify_text by (now constructor).
  cbn [bind]. now rewrite bigint_text.
Qed.

Lemma sequence_map_cases {A B : Type} (g : A -> result B) (bad : A -> bool)
    (e : error) (l : list A) :
  (forall a, In a l -> if bad a then g a = Throw e else exists b, g a = Ok b) ->
  if existsb bad l then sequence (map g l) = Throw e
  else exists bs, sequence (map g l) = Ok bs.
Proof.
  induction l as [|a l IH]; intros H; cbn [existsb map sequence]; [eauto|].
  pose proof (H a (or_introl eq_refl)) as Ha.
  specialize (IH (fun x Hx => H x (or_intror Hx))).
  destruct (bad a); cbn [orb].
  - now rewrite Ha.
  - destruct Ha as [b ->]. cbn [bind].
    destruct (existsb bad l).
    + now rewrite IH.
    + destruct IH as [bs ->]. cbn [bind]. eauto.
Qed.

Lemma existsb_nth_seq (p : jsvalue -> bool) (l : list jsvalue) :
  existsb (fun i => p (nth i l VUndefined)) (seq 0 (length l)) = existsb p l.
Proof.
  induction l as [|a l IH]; [reflexivity|].
  cbn [length seq existsb nth]. f_equal.
  rewrite <- seq_shift. rewrite <- IH. clear IH.
  induction (seq 0 (length l)) as [|i s IHs]; [reflexivity|].
  cbn [map existsb nth]. now rewrite IHs.
Qed.

(** Writing a supported value fails on an invalid [Date] and on nothing
    else. *)
Lemma stringify_supported (v : jsvalue) :
  supported v ->
  forall fuel key holder,
    value_depth v < fuel -> Get holder key = v ->
    if has_invalid_date v
    then SerializeJSONProperty fuel replacer key holder = Throw invalid_time
    else exists text, SerializeJSONProperty fuel replacer key holder = Ok (Some text).
Proof.
  induction v as [| |b|n|s|z|d|elems IH|props IH] using jsvalue_ind;
    intros Hv fuel key holder Hfuel Hget;
    (destruct fuel as [|f]; [lia|]); inversion Hv; subst; cbn [has_invalid_date].
  - eexists. now write_step Hget.
  - eexists. now write_step Hget.
  - eexists. now write_step Hget.
  - eexists. now write_step Hget.
  - cbn [value_depth] in Hfuel. destruct f as [|f]; [lia|].
    eexists. write_step Hget. apply serialize_envelope.
  - cbn [value_depth] in Hfuel. destruct f as [|f]; [lia|].
    destruct d as [t|]; [eexists|]; write_step Hget; [|reflexivity].
    apply serialize_envelope.
  - write_step Hget. unfold SerializeJSONArray. cbn [Object_keys]. rewrite map_map.
    rewrite <- existsb_nth_seq.
    match goal with
    | |- context [sequence (map ?g ?l)] =>
        pose proof (sequence_map_cases g
                      (fun i => has_invalid_date (nth i elems VUndefined))
                      invalid_time l) as Hseq
    end.
    cbv beta in Hseq.
    match type of Hseq with
    | ?P -> _ => assert P as HP; [|specialize (Hseq HP); clear HP]
    end.
    { intros i Hi. apply in_seq in Hi.
      assert (In (nth i elems VUndefined) elems) as Hin by (apply nth_In; lia).
      rewrite Forall_forall in IH.
      match goal with H : Forall _ elems |- _ => rewrite Forall_forall in H;
        pose proof (H _ Hin) as Hex end.
      specialize (IH _ Hin Hex f (index_key i) (VArr elems)).
      cbn [value_depth] in Hfuel. pose proof (depth_elem _ _ Hin).
      specialize (IH ltac:(lia) ltac:(apply Get_index; [assumption | lia])).
      destruct (has_invalid_date (nth i elems VUndefined)).
      - now rewrite IH.
      - destruct IH as [text ->]. cbn [bind]. eauto. }
    destruct (existsb _ (seq 0 (length elems))).
    + now rewrite Hseq.
    + destruct Hseq as [bs ->]. cbn [bind]. eauto.
  - write_step Hget. unfold SerializeJSONObject. cbn [Object_keys]. rewrite map_map.
    match goal with
    | |- context [sequence (map ?g ?l)] =>
        pose proof (sequence_map_cases g
                      (fun kv => has_invalid_date (snd kv))
                      invalid_time l) as Hseq
    end.
    cbv beta in Hseq.
    match type of Hseq with
    | ?P -> _ => assert P as HP; [|specialize (Hseq HP); clear HP]
    end.
    { intros [k e] Hin. rewrite Forall_forall in IH.
      match goal with H : Forall _ props |- _ => rewrite Forall_forall in H;
        pose proof (H _ Hin) as Hex end.
      specialize (IH _ Hin Hex f k (VObj props)).
      cbn [value_depth] in Hfuel. pose proof (depth_member _ _ Hin).
      cbn [fst snd] in *.
      assert (Get (VObj props) k = e) as Hg.
      { cbn [Get]. now rewrite (own_order_lookup _ _ ltac:(eassumption) _ _ Hin). }
      specialize (IH ltac:(lia) Hg).
      destruct (has_invalid_date e).
      - now rewrite IH.
      - destruct IH as [text ->]. cbn [bind]. eauto. }
    destruct (existsb _ props).
    + now rewrite Hseq.
    + destruct Hseq as [bs ->]. cbn [bind]. eauto.
Qed.

(** X7.  On a supported value [serialize] throws exactly when there is an
    invalid [Date] somewhere in the value, and then the RangeError of
    [toISOString]; on every other supported value it returns the bytes of
    a text: no number, string, big integer or nesting makes it fail. *)
Theorem serialize_throws_on_invalid_dates_only (v : jsvalue) :
  supported v ->
  if has_invalid_date v then serialize v = Throw invalid_time
  else exists text, serialize v = Ok (encode text).
Proof.
  intros Hv. unfold serialize, JSON_stringify.
  pose proof (stringify_supported v Hv (S (value_depth v)) [] (VObj [([], v)])
                (Nat.lt_succ_diag_r _) eq_refl) as H.
  destruct (has_invalid_date v).
  - now rewrite H.
  - destruct H as [text ->]. cbn [bind]. eauto.
Qed.

(** X8.  The serialized text is JSON text: read without a reviver, it is
    the value with an envelope in the place of each big integer and each
    timestamp, and nothing follows it. *)
Theorem serialize_writes_json (v : jsvalue) :
  exact v ->
  exists text,
    serialize v = Ok (encode text)
    /\ parse_text text = Parsed (tagged_form v) [].
Proof.
  intros Hv. exists (json_text (tagged_form v)). split.
  - unfold serialize. now rewrite (stringify_text v Hv).
  - apply parse_text_json_text, exact_textual, Hv.
Qed.

Lemma deserialize_serialized (v : jsvalue) :
  exact v -> codec_carries v ->
  serialize v = Ok (encode (json_text (tagged_form v)))
  /\ deserialize (encode (json_text (tagged_form v))) = Ok v.
Proof.
  intros Hv Hcodec. pose proof (stringify_text v Hv) as Ht. split.
  - unfold serialize. now rewrite Ht.
  - unfold deserialize, JSON_parse. rewrite (Hcodec _ Ht).
    rewrite (parse_text_json_text _ (exact_textual v Hv)).
    apply internalize_exact, Hv.
Qed.

(** X9.  Values that survive the round trip and are different have
    different bytes, on a host whose codec returns their texts. *)
Theorem serialize_injective (v w : jsvalue) :
  exact v -> exact w -> codec_carries v -> codec_carries w ->
  serialize v = serialize w -> v = w.
Proof.
  intros Hv Hw Cv Cw E.
  destruct (deserialize_serialized v Hv Cv) as [Sv Dv].
  destruct (deserialize_serialized w Hw Cw) as [Sw Dw].
  rewrite Sv, Sw in E. injection E as E. rewrite E in Dv. congruence.
Qed.

(** X10.  What [serializeValueWithOptions] wrote without options,
    [getValueWithOptions] reads back: the value itself, handed once to the
    reconstructor if there is one; the default is not used, also when the
    value is falsy ([false], [0], the empty string). *)
Theorem facade_round_trip (v : jsvalue) (o : GetOptions) :
  exact v -> v <> VNull -> codec_carries v ->
  exists b,
    serializeValueWithOptions v None = Ok b
    /\ getValueWithOptions (Some b) (Some o)
       = match reconstructor o with
         | Some r => {| reconstructed := [v]; returned := r v |}
         | None => {| reconstructed := []; returned := Ok v |}
         end.
Proof.
  intros Hv Hn Hc. destruct (deserialize_serialized v Hv Hc) as [Sv Dv].
  eexists. split; [exact Sv|].
  unfold getValueWithOptions. rewrite Dv.
  pose proof (exact_defined v Hv). destruct v; congruence.
Qed.

(** X11.  A number that is not finite is written as [null]; read back
    through the facade it is the default, or [null] without one, and the
    reconstructor is not called. *)
Theorem non_finite_number_reads_as_default (n : number) (o : GetOptions) :
  Number_isFinite n = false ->
  decode (encode (lit "null")) = lit "null" ->
  serialize (VNum n) = Ok (encode (lit "null"))
  /\ getValueWithOptions (Some (encode (lit "null"))) (Some o)
     = {| reconstructed := []; returned := Ok (nullish (defaultValue o) VNull) |}.
Proof.
  intros Hn Hc. split.
  - unfold serialize, JSON_stringify. cbn [value_depth SerializeJSONProperty].
    change (Get (VObj [([], VNum n)]) []) with (VNum n). cbn [bind].
    rewrite replacer_unfold. change (Get (VObj [([], VNum n)]) []) with (VNum n).
    cbn [bind]. now rewrite Hn.
  - unfold getValueWithOptions, deserialize. rewrite Hc. reflexivity.
Qed.

(** ** What [deserialize] reads *)

Lemma skip_ws_blank (s : jsstring) : forallb is_json_ws s = true -> skip_ws s = [].
Proof.
  unfold skip_ws. induction s as [|c s IH]; [reflexivity|]. cbn [forallb drop_while].
  intros H. apply andb_true_iff in H as [-> H]. now apply IH.
Qed.

(** X12.  Bytes that hold no value, only white space or nothing at all,
    are not read as an absent value: [deserialize] throws a SyntaxError,
    and so does the facade, whatever the options, without the default and
    without the reconstructor. *)
Theorem blank_bytes_are_an_error (b : Uint8Array) (o : option GetOptions) :
  forallb is_json_ws (decode b) = true ->
  exists message,
    deserialize b = Throw (SyntaxError message)
    /\ getValueWithOptions (Some b) o
       = {| reconstructed := []; returned := Throw (SyntaxError message) |}.
Proof.
  intros H. exists (JSON_parse_message (decode b)).
  assert (deserialize b = Throw (SyntaxError (JSON_parse_message (decode b)))) as E.
  { unfold deserialize, JSON_parse, parse_text.
    rewrite Nat.add_1_r. cbn [parse_value]. now rewrite (skip_ws_blank _ H). }
  split; [exact E|]. unfold getValueWithOptions. now rewrite E.
Qed.

(** X13.  An envelope with the tag ["date"] around a string that
    [Date.parse] does not read is read without an error, as an invalid
    [Date]; what was read cannot be written again, [serialize] throws on
    it. *)
Theorem unreadable_date_is_read_as_invalid (b : Uint8Array) (s : jsstring) :
  parse_text (decode b) = Parsed (envelope (VStr s) (VStr TypeBrand.DATE)) [] ->
  Date_parse s = None ->
  deserialize b = Ok (VDate None)
  /\ (v <- deserialize b ;; serialize v) = Throw invalid_time.
Proof.
  intros Hp Hd.
  assert (deserialize b = Ok (VDate None)) as E.
  { unfold deserialize, JSON_parse. rewrite Hp.
    cbn [envelope InternalizeJSONProperty bind].
    rewrite !reviver_string. cbn [bind].
    change (new_Date (VStr s) = Ok (VDate None)). cbn [new_Date].
    now rewrite Hd. }
  split; [exact E|]. rewrite E. reflexivity.
Qed.

(** X14.  An envelope with the tag ["bigint"] is read whatever way its
    string writes the integer (a sign, white space around it, another
    radix, the empty string for zero), and is written again in decimal
    digits. *)
Theorem bigint_envelope_is_normalised (b : Uint8Array) (s : jsstring) (z : Z) :
  parse_text (decode b) = Parsed (envelope (VStr s) (VStr TypeBrand.BIGINT)) [] ->
  StringToBigInt s = Some z ->
  deserialize b = Ok (VBigInt z)
  /\ (v <- deserialize b ;; serialize v)
     = Ok (encode (json "{'value':'" ++ BigInt_toString z
                   ++ json "','typeInfo':'bigint'}")).
Proof.
  intros Hp Hz.
  assert (deserialize b = Ok (VBigInt z)) as E.
  { unfold deserialize, JSON_parse. rewrite Hp.
    cbn [envelope InternalizeJSONProperty bind].
    rewrite !reviver_string. cbn [bind].
    change (BigInt_of_string s = Ok (VBigInt z)). unfold BigInt_of_string.
    now rewrite Hz. }
  split; [exact E|]. rewrite E. cbn [bind].
  unfold serialize. rewrite stringify_text by (now constructor).
  cbn [bind]. now rewrite bigint_text.
Qed.

Lemma replace_prop_json (k : jsstring) (v : jsvalue) (props : list (jsstring * jsvalue)) :
  json_value v -> Forall (fun kv => json_value (snd kv)) props ->
  Forall (fun kv => json_value (snd kv)) (replace_prop k v props).
Proof.
  intros Hv. induction 1 as [|[k' v'] props Hk Hp IH]; cbn [replace_prop]; [constructor|].
  destruct (jsstring_eqb k k'); constructor; cbn [snd] in *; auto.
Qed.

Lemma insert_index_json (i : N) (k : jsstring) (v : jsvalue)
    (props : list (jsstring * jsvalue)) :
  json_value v -> Forall (fun kv => json_value (snd kv)) props ->
  Forall (fun kv => json_value (snd kv)) (insert_index i k v props).
Proof.
  intros Hv. induction 1 as [|[k' v'] props Hk Hp IH]; cbn [insert_index];
    [repeat constructor; exact Hv|].
  destruct (array_index k') as [j|]; [destruct (j <? i)%N|];
    repeat (constructor; auto).
Qed.

Lemma CreateDataProperty_json (props : list (jsstring * jsvalue)) (kv : jsstring * jsvalue) :
  Forall (fun kv => json_value (snd kv)) props -> json_value (snd kv) ->
  Forall (fun kv => json_value (snd kv)) (CreateDataProperty props kv).
Proof.
  destruct kv as [k v]. cbn [snd]. intros Hp Hv. unfold CreateDataProperty.
  destruct (has_own k props); [now apply replace_prop_json|].
  destruct (array_index k); [now apply insert_index_json|].
  apply Forall_app. split; [exact Hp | repeat constructor; exact Hv].
Qed.

Lemma fold_CreateDataProperty_json (ms acc : list (jsstring * jsvalue)) :
  Forall (fun kv => json_value (snd kv)) ms ->
  Forall (fun kv => json_value (snd kv)) acc ->
  Forall (fun kv => json_value (snd kv)) (fold_left CreateDataProperty ms acc).
Proof.
  intros Hms. revert acc. induction Hms as [|kv ms Hkv _ IH]; intros acc Hacc; [exact Hacc|].
  cbn [fold_left]. apply IH. now apply CreateDataProperty_json.
Qed.

Lemma literal_or_number_json (s : jsstring) (v : jsvalue) (rest : jsstring) :
  literal_or_number s = Parsed v rest -> json_value v.
Proof.
  unfold literal_or_number. intros H.
  destruct (strip_prefix (lit "null") s); [injection H as <- _; constructor|].
  destruct (strip_prefix (lit "true") s); [injection H as <- _; constructor|].
  destruct (strip_prefix (lit "false") s); [injection H as <- _; constructor|].
  destruct (span is_number_char s) as [tok r].
  destruct (json_number tok); [|discriminate]. injection H as <- _. constructor.
Qed.

(** What the parser gives is made of null, booleans, numbers, strings,
    arrays and mappings. *)
Lemma parse_json_value (f : nat) :
  (forall s v rest, parse_value f s = Parsed v rest -> json_value v)
  /\ (forall s vs rest, parse_elements f s = Parsed vs rest -> Forall json_value vs)
  /\ (forall s ms rest, parse_members f s = Parsed ms rest ->
        Forall (fun kv => json_value (snd kv)) ms).
Proof.
  induction f as [|f (IHv & IHe & IHm)]; [repeat split; discriminate|].
  split; [|split].
  - intros s v rest H. cbn [parse_value] in H.
    destruct (skip_ws s) as [|c r]; [discriminate|].
    destruct (is_char "{" c).
    { destruct (skip_ws r) as [|c' r']; [discriminate|].
      destruct (is_char "}" c'); [injection H as <- _; repeat constructor|].
      destruct (parse_members f (c' :: r')) eqn:Ep; try discriminate.
      injection H as <- _. constructor.
      apply fold_CreateDataProperty_json; [now apply IHm in Ep | constructor]. }
    destruct (is_char "[" c).
    { destruct (skip_ws r) as [|c' r']; [discriminate|].
      destruct (is_char "]" c'); [injection H as <- _; repeat constructor|].
      destruct (parse_elements f (c' :: r')) eqn:Ep; try discriminate.
      injection H as <- _. constructor. now apply IHe in Ep. }
    destruct (c =? 34)%N.
    { destruct (parse_string r) as [[str rest']|]; [|discriminate].
      injection H as <- _. constructor. }
    now apply literal_or_number_json in H.
  - intros s vs rest H. cbn [parse_elements] in H.
    destruct (parse_value f s) as [v r| |] eqn:Ev; try discriminate.
    apply IHv in Ev.
    destruct (skip_ws r) as [|c r']; [discriminate|].
    destruct (is_char "," c).
    { destruct (parse_elements f r') eqn:Ep; try discriminate.
      injection H as <- _. constructor; [exact Ev | now apply IHe in Ep]. }
    destruct (is_char "]" c); [|discriminate]. injection H as <- _.
    repeat constructor. exact Ev.
  - intros s ms rest H. cbn [parse_members] in H.
    destruct (skip_ws s) as [|q r0]; [discriminate|].
    destruct (q =? 34)%N; [|discriminate].
    destruct (parse_string r0) as [[k r1]|]; [|discriminate].
    destruct (skip_ws r1) as [|colon r2]; [discriminate|].
    destruct (is_char ":" colon); [|discriminate].
    destruct (parse_value f r2) as [v r3| |] eqn:Ev; try discriminate.
    apply IHv in Ev.
    destruct (skip_ws r3) as [|c r4]; [discriminate|].
    destruct (is_char "," c).
    { destruct (parse_members f r4) eqn:Ep; try discriminate.
      injection H as <- _. constructor; [exact Ev | now apply IHm in Ep]. }
    destruct (is_char "}" c); [|discriminate]. injection H as <- _.
    repeat constructor. exact Ev.
Qed.

Lemma parse_text_json_value (text : jsstring) (t : jsvalue) (rest : jsstring) :
  parse_text text = Parsed t rest -> json_value t.
Proof.
  unfold parse_text. intros H.
  destruct (parse_value (2 * length text + 1) text) as [v r| |] eqn:E; try discriminate.
  destruct (skip_ws r); [|discriminate]. injection H as <- _.
  now apply (parse_json_value _) in E.
Qed.

Lemma json_value_defined (v : jsvalue) : json_value v -> v <> VUndefined.
Proof. inversion 1; discriminate. Qed.

(** The reviver leaves a parsed value as it is when no mapping in it is
    one that it converts. *)
Lemma internalize_untagged (t : jsvalue) :
  json_value t -> no_tagged t = true ->
  forall name, InternalizeJSONProperty reviver name t = Ok t.
Proof.
  induction t as [| |b|n|s|z|d|elems IH|props IH] using jsvalue_ind;
    intros Ht Hn name; inversion Ht; subst; try reflexivity.
  - cbn [InternalizeJSONProperty]. cbn [no_tagged] in Hn.
    match goal with
    | |- bind (?w 0 elems) _ = _ =>
        assert (forall i, w i elems = Ok elems) as Hwalk
    end.
    { assert (Forall json_value elems) as HF by assumption. revert HF Hn.
      clear - IH. induction IH as [|e elems He _ IHl]; intros HF Hn i; [reflexivity|].
      inversion HF; subst. cbn [forallb] in Hn. apply andb_true_iff in Hn as [Hn1 Hn2].
      rewrite He by assumption. cbn [bind].
      rewrite IHl by assumption. reflexivity. }
    rewrite Hwalk. cbn [bind]. apply reviver_plain, envelope_shaped_arr.
  - cbn [InternalizeJSONProperty]. cbn [no_tagged] in Hn.
    apply andb_true_iff in Hn as [Htag Hn]. apply negb_true_iff in Htag.
    match goal with
    | |- bind (?w props) _ = _ => assert (w props = Ok props) as Hwalk
    end.
    { assert (Forall (fun kv => json_value (snd kv)) props) as HF by assumption.
      revert HF Hn.
      clear - IH. induction IH as [|[k e] props He _ IHl]; intros HF Hn; [reflexivity|].
      inversion HF; subst. cbn [forallb fst snd] in *.
      apply andb_true_iff in Hn as [Hn1 Hn2].
      rewrite He by assumption. cbn [bind]. rewrite IHl by assumption. cbn [bind].
      pose proof (json_value_defined _ ltac:(eassumption)). destruct e; congruence. }
    rewrite Hwalk. cbn [bind]. now apply reviver_untagged.
Qed.

(** X15.  Bytes whose JSON text holds no mapping with just the keys
    ["value"] and ["typeInfo"] and the tag ["bigint"] or ["date"] are read
    as [JSON.parse] without a reviver reads them: nothing is converted,
    nothing removed. *)
Theorem deserialize_plain_json (b : Uint8Array) (t : jsvalue) :
  parse_text (decode b) = Parsed t [] ->
  no_tagged t = true ->
  deserialize b = Ok t.
Proof.
  intros Hp Hn. unfold deserialize, JSON_parse. rewrite Hp.
  apply internalize_untagged; [|exact Hn]. now apply parse_text_json_value in Hp.
Qed.

Lemma BigInt_gives_bigint (x v : jsvalue) : BigInt x = Ok v -> exists z, v = VBigInt z.
Proof.
  assert (forall s, BigInt_of_string s = Ok v -> exists z, v = VBigInt z) as Hs.
  { intros s. unfold BigInt_of_string. destruct (StringToBigInt s); [|discriminate].
    intros H. injection H as <-. eauto. }
  destruct x as [| |b|n|s|z|[t|]|l|props]; cbn [BigInt]; try discriminate;
    try (intros H; injection H as <-; eauto; fail); try apply Hs.
  - unfold NumberToBigInt. destruct (Number_isIntegral n); [|discriminate].
    intros H. injection H as <-. eauto.
  - destruct (ToString (VArr l)); cbn [bind]; [apply Hs | discriminate].
  - destruct (ToString (VObj props)); cbn [bind]; [apply Hs | discriminate].
Qed.

Lemma new_Date_gives_date (x v : jsvalue) : new_Date x = Ok v -> exists t, v = VDate t.
Proof.
  destruct x as [| |b|n|s|z|t|l|props]; cbn [new_Date]; try discriminate;
    try (intros H; injection H as <-; eauto; fail).
  - destruct (ToString (VArr l)); cbn [bind]; [|discriminate].
    intros H; injection H as <-; eauto.
  - destruct (ToString (VObj props)); cbn [bind]; [|discriminate].
    intros H; injection H as <-; eauto.
Qed.

(** What the reviver returns for a node whose members hold no mapping
    that it converts holds none either, and is not [undefined]. *)
Lemma reviver_converts (name : jsstring) (node v : jsvalue) :
  reviver name node = Ok v ->
  node <> VUndefined ->
  (forall props, node = VObj props ->
     forallb (fun kv => no_tagged (snd kv)) props = true) ->
  (forall elems, node = VArr elems -> forallb no_tagged elems = true) ->
  no_tagged v = true /\ v <> VUndefined.
Proof.
  intros H Hd Hobj Harr. unfold reviver in H.
  destruct (envelope_shaped node) eqn:Es.
  - destruct (is_string TypeBrand.BIGINT (Get node TYPE_KEY)) eqn:Eb.
    { apply BigInt_gives_bigint in H as [z ->]. split; [reflexivity | discriminate]. }
    destruct (is_string TypeBrand.DATE (Get node TYPE_KEY)) eqn:Ed.
    { apply new_Date_gives_date in H as [t ->]. split; [reflexivity | discriminate]. }
    injection H as <-. split; [|exact Hd].
    destruct node; try reflexivity.
    + cbn [no_tagged]. now apply Harr.
    + cbn [no_tagged]. rewrite (Hobj _ eq_refl), andb_true_r.
      unfold tagged. now rewrite Es, Eb, Ed.
  - injection H as <-. split; [|exact Hd].
    destruct node; try reflexivity.
    + cbn [no_tagged]. now apply Harr.
    + cbn [no_tagged]. rewrite (Hobj _ eq_refl), andb_true_r.
      unfold tagged. now rewrite Es.
Qed.

Lemma internalize_converts (t : jsvalue) :
  json_value t ->
  forall name v, InternalizeJSONProperty reviver name t = Ok v ->
  no_tagged v = true /\ v <> VUndefined.
Proof.
  induction t as [| |b|n|s|z|d|elems IH|props IH] using jsvalue_ind;
    intros Ht name v H; inversion Ht; subst;
    try (cbn [InternalizeJSONProperty] in H;
         apply (reviver_converts _ _ _ H); discriminate).
  - cbn [InternalizeJSONProperty] in H.
    match type of H with
    | bind (?w 0 elems) _ = _ =>
        assert (forall i l', w i elems = Ok l' -> forallb no_tagged l' = true) as Hwalk
    end.
    { assert (Forall json_value elems) as HF by assumption. revert HF.
      clear - IH. induction IH as [|e elems He _ IHl]; intros HF i l' Hw.
      - injection Hw as <-. reflexivity.
      - inversion HF; subst.
        destruct (InternalizeJSONProperty reviver (index_key i) e) as [e'|] eqn:Ee;
          [|discriminate]. cbn [bind] in Hw.
        match type of Hw with
        | bind ?r _ = _ => destruct r as [rest'|] eqn:Er; [|discriminate]
        end.
        cbn [bind] in Hw. injection Hw as <-. cbn [forallb].
        destruct (He ltac:(assumption) _ _ Ee) as [-> _].
        now rewrite (IHl ltac:(assumption) _ _ Er). }
    match type of H with
    | bind ?r _ = _ => destruct r as [l'|] eqn:Er; [|discriminate]
    end.
    cbn [bind] in H. apply (reviver_converts _ _ _ H); try discriminate.
    intros ? E. injection E as <-. now apply (Hwalk 0).
  - cbn [InternalizeJSONProperty] in H.
    match type of H with
    | bind (?w props) _ = _ =>
        assert (forall p', w props = Ok p' ->
                forallb (fun kv => no_tagged (snd kv)) p' = true) as Hwalk
    end.
    { assert (Forall (fun kv => json_value (snd kv)) props) as HF by assumption.
      revert HF.
      clear - IH. induction IH as [|[k e] props He _ IHl]; intros HF p' Hw.
      - injection Hw as <-. reflexivity.
      - inversion HF; subst. cbn [fst snd] in *.
        destruct (InternalizeJSONProperty reviver k e) as [e'|] eqn:Ee;
          [|discriminate]. cbn [bind] in Hw.
        match type of Hw with
        | bind ?r _ = _ => destruct r as [rest'|] eqn:Er; [|discriminate]
        end.
        cbn [bind] in Hw. injection Hw as <-.
        destruct (He ltac:(assumption) _ _ Ee) as [Hn Hd].
        pose proof (IHl ltac:(assumption) _ eq_refl) as Hrest.
        destruct e'; try congruence; cbn [forallb snd]; rewrite ?Hn, Hrest;
          reflexivity. }
    match type of H with
    | bind ?r _ = _ => destruct r as [p'|] eqn:Er; [|discriminate]
    end.
    cbn [bind] in H. apply (reviver_converts _ _ _ H); try discriminate.
    intros ? E. injection E as <-. now apply Hwalk.
Qed.

(** X16.  A value that [deserialize] returns is never [undefined], and at
    no depth is there a mapping left in it that has just the two keys of
    an envelope and one of the two tags: every one of them was converted,
    the inner ones first.  So the test for [undefined] in
    [getValueWithOptions] never holds. *)
Theorem deserialize_converts_every_envelope (b : Uint8Array) (v : jsvalue) :
  deserialize b = Ok v -> v <> VUndefined /\ no_tagged v = true.
Proof.
  unfold deserialize, JSON_parse. intros H.
  destruct (parse_text (decode b)) as [t rest| |] eqn:Ep; try discriminate.
  apply parse_text_json_value in Ep.
  destruct (internalize_converts t Ep _ _ H). auto.
Qed.

(** ** Mapping nodes under [deserialize] *)

(** Only a string is revived into a string. *)
Lemma internalize_string (name : jsstring) (v : jsvalue) (s : jsstring) :
  InternalizeJSONProperty reviver name v = Ok (VStr s) -> v = VStr s.
Proof.
  destruct v as [| |b|n|s'|z|d|elems|props]; cbn [InternalizeJSONProperty];
    try (rewrite reviver_plain by reflexivity; congruence).
  - match goal with
    | |- bind ?r _ = _ -> _ => destruct r as [l'|]; [|discriminate]
    end.
    cbn [bind]. rewrite reviver_plain by apply envelope_shaped_arr. discriminate.
  - match goal with
    | |- bind ?r _ = _ -> _ => destruct r as [p'|]; [|discriminate]
    end.
    cbn [bind]. unfold reviver.
    destruct (envelope_shaped (VObj p')); [|discriminate].
    destruct (is_string TypeBrand.BIGINT (Get (VObj p') TYPE_KEY)).
    { intros H. apply BigInt_gives_bigint in H as [z H]. discriminate H. }
    destruct (is_string TypeBrand.DATE (Get (VObj p') TYPE_KEY)); [|discriminate].
    intros H. apply new_Date_gives_date in H as [t H]. discriminate H.
Qed.

Lemma members_revived_keys (props q : list (jsstring * jsvalue)) :
  members_revived props q -> map fst q = map fst props.
Proof.
  induction 1 as [|kv kv' props q [Hk _] _ IH]; [reflexivity|].
  cbn [map]. now rewrite Hk, IH.
Qed.

Lemma members_revived_lookup (props q : list (jsstring * jsvalue)) (k : jsstring) :
  members_revived props q ->
  match lookup k props with
  | Some v => exists v', lookup k q = Some v'
                         /\ InternalizeJSONProperty reviver k v = Ok v'
  | None => lookup k q = None
  end.
Proof.
  induction 1 as [|[k0 v0] [k0' v0'] props q [Hk Hv] _ IH]; [reflexivity|].
  cbn [fst snd] in Hk, Hv. subst k0'. cbn [lookup].
  destruct (jsstring_eqb k k0) eqn:E; [|exact IH].
  apply jsstring_eqb_eq in E. subst k0. eauto.
Qed.

(** The tag of a mapping is a given string after the pass exactly when it
    was before. *)
Lemma members_revived_tag (props q : list (jsstring * jsvalue)) (s : jsstring) :
  members_revived props q ->
  Get (VObj props) TYPE_KEY = VStr s <-> Get (VObj q) TYPE_KEY = VStr s.
Proof.
  intros H. pose proof (members_revived_lookup props q TYPE_KEY H) as Hl.
  cbn [Get]. destruct (lookup TYPE_KEY props) as [v|].
  - destruct Hl as (v' & -> & Hv). split; intros E.
    + subst v. cbn in Hv. congruence.
    + subst v'. now apply internalize_string in Hv.
  - rewrite Hl. reflexivity.
Qed.

Lemma members_revived_shape (props q : list (jsstring * jsvalue)) :
  members_revived props q ->
  envelope_shaped (VObj q) = envelope_shaped (VObj props).
Proof.
  intros H. unfold envelope_shaped. cbn [Object_keys is_null typeof].
  now rewrite (members_revived_keys _ _ H).
Qed.

Lemma members_revived_defined (props q : list (jsstring * jsvalue)) :
  Forall (fun kv => json_value (snd kv)) props ->
  members_revived props q ->
  Forall (fun kv => snd kv <> VUndefined) q.
Proof.
  intros HF H. induction H as [|kv kv' props q [_ Hv] _ IH]; [constructor|].
  inversion HF; subst. constructor; [|now apply IH].
  now destruct (internalize_converts _ ltac:(eassumption) _ _ Hv).
Qed.

Lemma members_revived_plain (props q : list (jsstring * jsvalue)) :
  Forall (fun kv => json_value (snd kv)) props ->
  forallb (fun kv => no_tagged (snd kv)) props = true ->
  members_revived props q -> q = props.
Proof.
  intros HF Hn H. induction H as [|[k v] [k' v'] props q [Hk Hv] _ IH]; [reflexivity|].
  inversion HF; subst. cbn [forallb fst snd] in *.
  apply andb_true_iff in Hn as [Hn1 Hn2].
  rewrite internalize_untagged in Hv by assumption. injection Hv as <-.
  subst k'. f_equal. now apply IH.
Qed.

(** The bottom-up pass at a mapping: the reviver on the mapping of the
    revived members. *)
Lemma internalize_members (name : jsstring) (props q : list (jsstring * jsvalue)) :
  members_revived props q ->
  Forall (fun kv => snd kv <> VUndefined) q ->
  InternalizeJSONProperty reviver name (VObj props) = reviver name (VObj q).
Proof.
  intros H Hd. cbn [InternalizeJSONProperty].
  match goal with
  | |- bind (?w props) _ = _ => assert (w props = Ok q) as ->; [|reflexivity]
  end.
  induction H as [|[k v] [k' v'] props q [Hk Hv] _ IH]; [reflexivity|].
  inversion Hd; subst. cbn [fst snd] in *. subst k'.
  rewrite Hv. cbn [bind]. rewrite IH by assumption. cbn [bind].
  destruct v'; congruence.
Qed.

Lemma deserialize_mapping (b : Uint8Array) (props q : list (jsstring * jsvalue)) :
  parse_text (decode b) = Parsed (VObj props) [] ->
  members_revived props q ->
  deserialize b = reviver [] (VObj q).
Proof.
  intros Hp H. unfold deserialize, JSON_parse. rewrite Hp.
  apply internalize_members; [exact H|].
  apply parse_text_json_value in Hp. inversion Hp; subst.
  now apply (members_revived_defined props).
Qed.


Lemma is_string_eq (s : jsstring) (v : jsvalue) :
  is_string s v = true <-> v = VStr s.
Proof.
  destruct v; cbn [is_string]; try (split; [discriminate | discriminate]).
  rewrite jsstring_eqb_eq. split; congruence.
Qed.

Lemma members_revived_tagged (props q : list (jsstring * jsvalue)) :
  members_revived props q -> tagged (VObj q) = tagged (VObj props).
Proof.
  intros H. unfold tagged. rewrite (members_revived_shape _ _ H).
  f_equal. f_equal; apply eq_true_iff_eq; rewrite !is_string_eq; symmetry;
    apply (members_revived_tag _ _ _ H).
Qed.

Lemma internalize_name (n1 n2 : jsstring) (v : jsvalue) :
  InternalizeJSONProperty reviver n1 v = InternalizeJSONProperty reviver n2 v.
Proof. destruct v; reflexivity. Qed.

(** The members that the pass over a mapping returns are the revived
    members. *)
Lemma internalize_members_inv (name : jsstring) (props : list (jsstring * jsvalue))
    (r : jsvalue) :
  Forall (fun kv => json_value (snd kv)) props ->
  InternalizeJSONProperty reviver name (VObj props) = Ok r ->
  exists q, members_revived props q /\ reviver name (VObj q) = Ok r.
Proof.
  intros HF. cbn [InternalizeJSONProperty].
  match goal with
  | |- bind (?w props) _ = _ -> _ =>
      assert (forall q, w props = Ok q -> members_revived props q) as Hwalk
  end.
  { clear r. induction HF as [|[k v] props Hv _ IH]; intros q Hw.
    - injection Hw as <-. constructor.
    - cbn [snd] in Hv.
      destruct (InternalizeJSONProperty reviver k v) as [v'|] eqn:Ev; [|discriminate].
      cbn [bind] in Hw.
      match type of Hw with
      | bind ?w _ = _ => destruct w as [rest'|] eqn:Er; [|discriminate]
      end.
      cbn [bind] in Hw. injection Hw as <-.
      destruct (internalize_converts v Hv _ _ Ev) as [_ Hd].
      specialize (IH _ eq_refl).
      destruct v'; try congruence; constructor; auto. }
  match goal with
  | |- bind ?w _ = _ -> _ => destruct w as [q|] eqn:Er; [|discriminate]
  end.
  cbn [bind]. intros H. exists q. split; [now apply Hwalk | exact H].
Qed.

Lemma internalize_elements (elems : list jsvalue) (name : jsstring) (r : jsvalue) :
  InternalizeJSONProperty reviver name (VArr elems) = Ok r ->
  exists l, r = VArr l
            /\ forall i, i < length elems ->
                 InternalizeJSONProperty reviver name (nth i elems VUndefined)
                 = Ok (nth i l VUndefined).
Proof.
  cbn [InternalizeJSONProperty].
  match goal with
  | |- bind (?w 0 elems) _ = _ -> _ =>
      assert (forall j l, w j elems = Ok l ->
              forall i, i < length elems ->
                InternalizeJSONProperty reviver name (nth i elems VUndefined)
                = Ok (nth i l VUndefined)) as Hwalk
  end.
  { clear r. induction elems as [|e elems IH]; intros j l Hw i Hi; [cbn in Hi; lia|].
    destruct (InternalizeJSONProperty reviver (index_key j) e) as [e'|] eqn:Ee;
      [|discriminate]. cbn [bind] in Hw.
    match type of Hw with
    | bind ?w _ = _ => destruct w as [rest'|] eqn:Er; [|discriminate]
    end.
    cbn [bind] in Hw. injection Hw as <-.
    destruct i as [|i]; cbn [nth].
    - now rewrite (internalize_name name (index_key j)).
    - apply (IH _ _ Er). cbn [length] in Hi. lia. }
  match goal with
  | |- bind ?w _ = _ -> _ => destruct w as [l|] eqn:Er; [|discriminate]
  end.
  cbn [bind]. rewrite reviver_plain by apply envelope_shaped_arr.
  intros H. injection H as <-. exists l. split; [reflexivity|]. now apply (Hwalk 0).
Qed.

Lemma json_value_Get (t : jsvalue) (k : jsstring) :
  json_value t -> Get t k <> VUndefined -> json_value (Get t k).
Proof.
  intros Ht Hg. inversion Ht as [| | | |elems HF|props HF]; subst;
    try (now cbn [Get] in Hg); rewrite Forall_forall in HF; cbn [Get] in *.
  - destruct (array_index k) as [i|]; [|congruence].
    destruct (Nat.lt_ge_cases (N.to_nat i) (length elems)) as [Hi|Hge].
    + apply HF, nth_In, Hi.
    + now rewrite nth_overflow in Hg by exact Hge.
  - destruct (lookup k props) as [v|] eqn:E; [|congruence].
    clear - E HF. induction props as [|[k' v0] props IH]; [discriminate|].
    cbn [lookup] in E. destruct (jsstring_eqb k k').
    + injection E as ->. apply (HF (k', v)). now left.
    + apply IH; [exact E|]. intros x Hx. apply HF. now right.
Qed.

(** One step down a path: the member of the result is the revived member. *)
Lemma internalize_step (t r : jsvalue) (name k : jsstring) :
  json_value t ->
  InternalizeJSONProperty reviver name t = Ok r ->
  tagged t = false ->
  Get t k <> VUndefined ->
  InternalizeJSONProperty reviver k (Get t k) = Ok (Get r k).
Proof.
  intros Ht H Hn Hg. inversion Ht as [| | | |elems HF|props HF]; subst;
    try (now cbn [Get] in Hg).
  - apply (internalize_elements elems k) in H as (l & -> & Hl).
    cbn [Get] in *. destruct (array_index k) as [i|]; [|congruence].
    apply Hl.
    destruct (Nat.lt_ge_cases (N.to_nat i) (length elems)) as [|Hge]; [assumption|].
    now rewrite nth_overflow in Hg by exact Hge.
  - apply (internalize_members_inv name props r HF) in H as (q & Hq & Hr).
    rewrite reviver_untagged in Hr by (now rewrite (members_revived_tagged _ _ Hq)).
    injection Hr as <-.
    pose proof (members_revived_lookup props q k Hq) as Hl.
    cbn [Get] in *. destruct (lookup k props) as [v|] eqn:E; [|congruence].
    now destruct Hl as (v' & -> & Hv).
Qed.

Lemma at_path_undefined (path : list jsstring) : at_path VUndefined path = VUndefined.
Proof. induction path as [|k path IH]; [reflexivity | exact IH]. Qed.

Lemma json_value_at_path (path : list jsstring) :
  forall t, json_value t -> at_path t path <> VUndefined -> json_value (at_path t path).
Proof.
  induction path as [|k path IH]; intros t Ht Hd; [exact Ht|].
  change (at_path t (k :: path)) with (at_path (Get t k) path) in *.
  apply IH; [|exact Hd]. apply json_value_Get; [exact Ht|].
  intros E. rewrite E, at_path_undefined in Hd. congruence.
Qed.

(** Down a path under which nothing is converted, the node of the result
    is the revived node. *)
Lemma internalize_at_path (path : list jsstring) :
  forall t r name,
    json_value t ->
    InternalizeJSONProperty reviver name t = Ok r ->
    enclosed_plainly t path = true ->
    at_path t path <> VUndefined ->
    InternalizeJSONProperty reviver name (at_path t path) = Ok (at_path r path).
Proof.
  induction path as [|k path IH]; intros t r name Ht H He Hd; [auto|].
  cbn [enclosed_plainly] in He. apply andb_true_iff in He as [Hn He].
  apply negb_true_iff in Hn.
  change (at_path t (k :: path)) with (at_path (Get t k) path) in *.
  change (at_path r (k :: path)) with (at_path (Get r k) path).
  assert (Get t k <> VUndefined) as Hg.
  { intros E. rewrite E, at_path_undefined in Hd. congruence. }
  pose proof (internalize_step t r name k Ht H Hn Hg) as Hs.
  rewrite (internalize_name name k).
  apply (IH _ _ k (json_value_Get t k Ht Hg) Hs He Hd).
Qed.

(** The outcome at a mapping node: the reviver on the mapping of the
    revived members. *)
Lemma mapping_decoded_at (b : Uint8Array) (t : jsvalue) (path : list jsstring)
    (props q : list (jsstring * jsvalue)) :
  parse_text (decode b) = Parsed t [] ->
  at_path t path = VObj props ->
  enclosed_plainly t path = true ->
  members_revived props q ->
  decoded_at b path (reviver [] (VObj q)).
Proof.
  intros Hp Hat He Hq.
  pose proof (parse_text_json_value _ _ _ Hp) as Ht.
  assert (forall r, deserialize b = Ok r -> reviver [] (VObj q) = Ok (at_path r path)) as Hr.
  { unfold deserialize, JSON_parse. rewrite Hp. intros r H.
    pose proof (internalize_at_path path t r [] Ht H He) as Hs.
    rewrite Hat in Hs. rewrite <- Hs by discriminate. symmetry.
    apply internalize_members; [exact Hq|].
    pose proof (json_value_at_path path t Ht) as Hj. rewrite Hat in Hj.
    specialize (Hj ltac:(discriminate)).
    inversion Hj; subst. now apply (members_revived_defined props). }
  split; [|exact Hr].
  intros ->. cbn [at_path fold_left] in Hat. subst t.
  now apply (deserialize_mapping b props q).
Qed.

(** C3.  A mapping in the text of the bytes, at any depth under which
    nothing is converted, is taken for an envelope exactly when it has two
    keys, both among ["value"] and ["typeInfo"].  Without this shape it is
    decoded as the mapping, its members revived, whatever its tag.  With
    this shape, in either order of the keys, and the tag ["bigint"] it is
    decoded as what [BigInt] makes of the member ["value"], with the tag
    ["date"] as what [new Date] makes of it, whatever that member is, and
    never as the mapping; with another tag it stays the mapping.  So the
    plain mapping [{"value": x, "typeInfo": "bigint"}] is read as a tagged
    integer: for a string [x] that writes an integer the result is that
    integer, for any other string the conversion throws. *)
Theorem envelope_recognition (b : Uint8Array) (t : jsvalue) (path : list jsstring)
    (props q : list (jsstring * jsvalue)) :
  parse_text (decode b) = Parsed t [] ->
  at_path t path = VObj props ->
  enclosed_plainly t path = true ->
  members_revived props q ->
  (~ envelope_keys props -> decoded_at b path (Ok (VObj q)))
  /\ (envelope_keys props ->
      Get (VObj props) TYPE_KEY = VStr TypeBrand.BIGINT ->
      decoded_at b path (BigInt (Get (VObj q) (lit "value")))
      /\ BigInt (Get (VObj q) (lit "value")) <> Ok (VObj q))
  /\ (envelope_keys props ->
      Get (VObj props) TYPE_KEY = VStr TypeBrand.DATE ->
      decoded_at b path (new_Date (Get (VObj q) (lit "value")))
      /\ new_Date (Get (VObj q) (lit "value")) <> Ok (VObj q))
  /\ (envelope_keys props ->
      Get (VObj props) TYPE_KEY <> VStr TypeBrand.BIGINT ->
      Get (VObj props) TYPE_KEY <> VStr TypeBrand.DATE ->
      decoded_at b path (Ok (VObj q)))
  /\ (forall x,
        props = [(lit "value", VStr x); (TYPE_KEY, VStr TypeBrand.BIGINT)] ->
        decoded_at b path
          match StringToBigInt x with
          | Some z => Ok (VBigInt z)
          | None => Throw (SyntaxError (lit "Cannot convert " ++ x ++ lit " to a BigInt"))
          end).
Proof.
  intros Hp Hat He H.
  pose proof (mapping_decoded_at b t path props q Hp Hat He H) as Hnode.
  pose proof (members_revived_shape _ _ H) as Hs.
  assert (forall tag, envelope_keys props -> Get (VObj props) TYPE_KEY = VStr tag ->
          envelope_shaped (VObj q) = true /\ Get (VObj q) TYPE_KEY = VStr tag) as Htag.
  { intros tag Hk Ht. split.
    - rewrite Hs. now apply envelope_shaped_obj.
    - now apply (members_revived_tag props q tag H). }
  split; [|split; [|split; [|split]]].
  - intros Hk. rewrite reviver_plain in Hnode; [exact Hnode|]. rewrite Hs.
    destruct (envelope_shaped (VObj props)) eqn:E; [|reflexivity].
    now apply envelope_shaped_obj in E.
  - intros Hk Ht. destruct (Htag _ Hk Ht) as [E1 E2].
    unfold reviver in Hnode. rewrite E1, E2 in Hnode. split; [exact Hnode|].
    intros E. apply BigInt_gives_bigint in E as [z E]. discriminate E.
  - intros Hk Ht. destruct (Htag _ Hk Ht) as [E1 E2].
    unfold reviver in Hnode. rewrite E1, E2 in Hnode. split; [exact Hnode|].
    intros E. apply new_Date_gives_date in E as [d E]. discriminate E.
  - intros Hk Hb Hd. unfold reviver in Hnode. rewrite Hs in Hnode.
    replace (envelope_shaped (VObj props)) with true in Hnode
      by (symmetry; now apply envelope_shaped_obj).
    rewrite !is_string_other in Hnode; [exact Hnode| |].
    + intros E. now apply (members_revived_tag props q _ H) in E.
    + intros E. now apply (members_revived_tag props q _ H) in E.
  - intros x ->.
    inversion H as [|kv1 kv1' r1 q1 [Hk1 Hv1] H1]; subst.
    inversion H1 as [|kv2 kv2' r2 q2 [Hk2 Hv2] H2]; subst.
    inversion H2; subst.
    destruct kv1' as [k1 v1], kv2' as [k2 v2]. cbn [fst snd] in *. subst.
    cbn in Hv1, Hv2. injection Hv1 as <-. injection Hv2 as <-.
    exact Hnode.
Qed.

(** C7.  A mapping in the text of the bytes, at any depth under which
    nothing is converted, that has the two keys of an envelope, in either
    order, and a tag that is neither ["bigint"] nor ["date"] is left a
    mapping by [deserialize], without an error: it is the result itself
    where the mapping is the whole text, and stands in the result at its
    place otherwise, with the same keys and its members revived; when no
    member holds a mapping that the reviver converts, it is as it was
    read. *)
Theorem unknown_tag_left_as_mapping (b : Uint8Array) (t : jsvalue)
    (path : list jsstring) (props q : list (jsstring * jsvalue)) :
  parse_text (decode b) = Parsed t [] ->
  at_path t path = VObj props ->
  enclosed_plainly t path = true ->
  members_revived props q ->
  envelope_keys props ->
  Get (VObj props) TYPE_KEY <> VStr TypeBrand.BIGINT ->
  Get (VObj props) TYPE_KEY <> VStr TypeBrand.DATE ->
  (path = [] -> deserialize b = Ok (VObj q))
  /\ (forall r, deserialize b = Ok r -> at_path r path = VObj q)
  /\ map fst q = map fst props
  /\ (forallb (fun kv => no_tagged (snd kv)) props = true -> q = props).
Proof.
  intros Hp Hat He H Hk Hb Hd.
  destruct (mapping_decoded_at b t path props q Hp Hat He H) as [Htop Hdeep].
  assert (reviver [] (VObj q) = Ok (VObj q)) as Hr.
  { unfold reviver. rewrite (members_revived_shape _ _ H).
    replace (envelope_shaped (VObj props)) with true
      by (symmetry; now apply envelope_shaped_obj).
    rewrite !is_string_other; [reflexivity| |].
    + intros E. now apply (members_revived_tag props q _ H) in E.
    + intros E. now apply (members_revived_tag props q _ H) in E. }
  rewrite Hr in Htop, Hdeep.
  split; [exact Htop|]. split.
  { intros r Hdes. specialize (Hdeep r Hdes). congruence. }
  split; [now apply members_revived_keys|].
  intros Hn. apply (members_revived_plain props q); [|exact Hn | exact H].
  apply parse_text_json_value in Hp.
  pose proof (json_value_at_path path t Hp) as Hj. rewrite Hat in Hj.
  specialize (Hj ltac:(discriminate)). now inversion Hj.
Qed.

End Properties.

(** ** Examples on the reference host and engine *)

Module Examples.
Import Reference.

(** C1, at the bytes of [1] and a deserializer that answers 2: the result
    is the 1 of the default deserializer, not the 2 of the options. *)
Theorem getValueWithOptions_ignores_deserializer :
  returned (getValueWithOptions (Some one)
              (Some (with_deserializer (Some two_deserializer) no_options)))
  = Ok (VNum (RInt 1))
  /\ two_deserializer one = Ok (VNum (RInt 2)).
Proof. split; reflexivity. Qed.

(** C2 as stated fails: the mapping [{"value": "5", "typeInfo": "bigint"}]
    is a supported value, and it comes back as the big integer 5. *)
Lemma round_trip_fails_on_envelope_like_mapping :
  ~ (forall v : jsvalue,
       supported v -> (b <- serialize v ;; deserialize b) = Ok v).
Proof.
  intros H. specialize (H envelope_like).
  assert (supported envelope_like) as Hs.
  { apply built_obj; [reflexivity | exact I | repeat constructor]. }
  specialize (H Hs).
  assert ((b <- serialize envelope_like ;; deserialize b) = Ok (VBigInt 5)) as E
    by reflexivity.
  rewrite E in H. discriminate H.
Qed.

Example envelope_like_decodes_to_bigint :
  (b <- serialize envelope_like ;; deserialize b) = Ok (VBigInt 5).
Proof. reflexivity. Qed.

Lemma whole_number_exact (z : Z) :
  json_number (BigInt_toString z) = true ->
  ref_ofLiteral (BigInt_toString z) = RInt z ->
  number_exact (RInt z).
Proof. intros H1 H2. repeat split; assumption. Qed.

Lemma sample_exact : exact sample.
Proof.
  apply built_obj; [reflexivity | reflexivity |].
  apply Forall_cons; [|apply Forall_cons; [|apply Forall_cons; [|apply Forall_cons; [|apply Forall_nil]]]];
    cbn [snd].
  - apply built_num, whole_number_exact; reflexivity.
  - apply built_bigint. exact I.
  - apply built_date. exists 1700000000123%Z.
    split; [reflexivity|]. split; [discriminate|]. vm_compute. reflexivity.
  - apply built_arr; [discriminate|].
    apply Forall_cons; [apply built_null|].
    apply Forall_cons; [apply built_bool|].
    apply Forall_cons; [apply built_str|].
    apply Forall_cons; [|apply Forall_nil].
    apply built_obj; [reflexivity | reflexivity |].
    apply Forall_cons; [|apply Forall_cons; [apply built_str | apply Forall_nil]].
    apply built_num, whole_number_exact; reflexivity.
Qed.

Lemma sample_codec (text : jsstring) :
  JSON_stringify (S (value_depth sample)) sample replacer = Ok (Some text) ->
  decode (encode text) = text.
Proof.
  intros H. vm_compute in H. injection H as <-. vm_compute. reflexivity.
Qed.

Lemma exact_round_trip_witness :
  exact sample
  /\ (forall text,
        JSON_stringify (S (value_depth sample)) sample replacer = Ok (Some text) ->
        decode (encode text) = text)
  /\ (b <- serialize sample ;; deserialize b) = Ok sample.
Proof.
  split; [exact sample_exact|]. split; [exact sample_codec|].
  exact (exact_round_trip sample sample_exact sample_codec).
Defined.

Lemma defaulting_precedence_witness :
  VStr (lit "D") <> VUndefined
  /\ defaultValue (default_options (VStr (lit "D"))) = VStr (lit "D")
  /\ deserialize null_bytes = Ok VNull
  /\ returned (getValueWithOptions None (Some (default_options (VStr (lit "D")))))
     = Ok (VStr (lit "D"))
  /\ returned (getValueWithOptions (Some null_bytes)
                 (Some (default_options (VStr (lit "D")))))
     = Ok (VStr (lit "D"))
  /\ returned (getValueWithOptions (Some null_bytes) (Some no_options)) = Ok VNull
  /\ returned (getValueWithOptions None (Some no_options)) = Ok VNull.
Proof.
  split; [discriminate|]. split; [reflexivity|]. split; [reflexivity|].
  apply (defaulting_precedence (VStr (lit "D")) (default_options (VStr (lit "D")))
           null_bytes); [discriminate | reflexivity | reflexivity].
Defined.

Example unknown_tag_decodes_as_mapping :
  deserialize (encode (json "{'value':'1','typeInfo':'decimal'}"))
  = Ok (VObj unknown_tag).
Proof. reflexivity. Qed.

Lemma deserialize_throws_on_valid_text_witness :
  parse_text (decode not_an_integer)
  = Parsed (envelope (VStr (lit "x")) (VStr TypeBrand.BIGINT)) []
  /\ StringToBigInt (lit "x") = None
  /\ deserialize not_an_integer
     = Throw (SyntaxError (lit "Cannot convert " ++ lit "x" ++ lit " to a BigInt")).
Proof.
  split; [reflexivity|]. split; [reflexivity|].
  apply (deserialize_throws_on_valid_text not_an_integer (lit "x")); reflexivity.
Defined.

Example malformed_text_is_a_syntax_error :
  exists message, deserialize (encode (json "{'value':")) = Throw (SyntaxError message).
Proof. eexists. reflexivity. Qed.

Example envelope_bytes_decode_to_bigint :
  deserialize (encode (json "{'value':'5','typeInfo':'bigint'}")) = Ok (VBigInt 5).
Proof. reflexivity. Qed.

Example reconstructor_composition :
  let r := fun v => Ok (VArr [v]) in
  getValueWithOptions (Some (encode (json "{'a':1}")))
    (Some {| reconstructor := Some r; defaultValue := VUndefined;
             serializer := None; deserializer := None |})
  = {| reconstructed := [VObj [(lit "a", VNum (RInt 1))]];
       returned := Ok (VArr [VObj [(lit "a", VNum (RInt 1))]]) |}.
Proof. reflexivity. Qed.

Example negative_zero_is_not_exact :
  (b <- serialize (VNum RNegZero) ;; deserialize b) = Ok (VNum (RInt 0)).
Proof. reflexivity. Qed.

Example invalid_date_throws :
  serialize (VDate None) = Throw (RangeError (lit "Invalid time value")).
Proof. reflexivity. Qed.

(** ** Mapping nodes at concrete inputs *)

Lemma envelope_like_revived : members_revived envelope_like_members envelope_like_members.
Proof. repeat constructor. Qed.

Lemma envelope_like_bytes_read :
  parse_text (decode envelope_like_bytes) = Parsed (VObj envelope_like_members) [].
Proof. reflexivity. Qed.

Lemma envelope_recognition_witness :
  parse_text (decode envelope_like_bytes) = Parsed (VObj envelope_like_members) []
  /\ at_path (VObj envelope_like_members) [] = VObj envelope_like_members
  /\ enclosed_plainly (VObj envelope_like_members) [] = true
  /\ members_revived envelope_like_members envelope_like_members
  /\ deserialize envelope_like_bytes = Ok (VBigInt 5).
Proof.
  split; [exact envelope_like_bytes_read|]. split; [reflexivity|].
  split; [reflexivity|]. split; [exact envelope_like_revived|].
  destruct (envelope_recognition envelope_like_bytes (VObj envelope_like_members) []
              envelope_like_members envelope_like_members
              envelope_like_bytes_read (eq_refl (VObj envelope_like_members))
              (eq_refl true) envelope_like_revived)
    as (_ & _ & _ & _ & Hx).
  exact (proj1 (Hx (lit "5") eq_refl) eq_refl).
Defined.

Example envelope_with_reversed_keys :
  deserialize reversed_envelope = Ok (VBigInt 1).
Proof. reflexivity. Qed.

Lemma unknown_tag_members_revived : members_revived unknown_tag_read unknown_tag_revived.
Proof. repeat constructor. Qed.

Lemma unknown_tag_keys : envelope_keys unknown_tag_read.
Proof.
  split; [reflexivity|].
  apply Forall_cons; [now right|]. apply Forall_cons; [now left|]. apply Forall_nil.
Qed.

Lemma unknown_tag_bytes_read :
  parse_text (decode unknown_tag_bytes) = Parsed (VObj unknown_tag_read) [].
Proof. reflexivity. Qed.

Lemma unknown_tag_is_unknown :
  Get (VObj unknown_tag_read) TYPE_KEY <> VStr TypeBrand.BIGINT
  /\ Get (VObj unknown_tag_read) TYPE_KEY <> VStr TypeBrand.DATE.
Proof. split; discriminate. Qed.

Lemma unknown_tag_left_as_mapping_witness :
  parse_text (decode unknown_tag_bytes) = Parsed (VObj unknown_tag_read) []
  /\ at_path (VObj unknown_tag_read) [] = VObj unknown_tag_read
  /\ enclosed_plainly (VObj unknown_tag_read) [] = true
  /\ members_revived unknown_tag_read unknown_tag_revived
  /\ envelope_keys unknown_tag_read
  /\ Get (VObj unknown_tag_read) TYPE_KEY <> VStr TypeBrand.BIGINT
  /\ Get (VObj unknown_tag_read) TYPE_KEY <> VStr TypeBrand.DATE
  /\ deserialize unknown_tag_bytes = Ok (VObj unknown_tag_revived).
Proof.
  split; [exact unknown_tag_bytes_read|]. split; [reflexivity|].
  split; [reflexivity|].
  split; [exact unknown_tag_members_revived|]. split; [exact unknown_tag_keys|].
  split; [exact (proj1 unknown_tag_is_unknown)|].
  split; [exact (proj2 unknown_tag_is_unknown)|].
  exact (proj1 (unknown_tag_left_as_mapping unknown_tag_bytes (VObj unknown_tag_read) []
                  unknown_tag_read unknown_tag_revived
                  unknown_tag_bytes_read (eq_refl (VObj unknown_tag_read)) (eq_refl true)
                  unknown_tag_members_revived unknown_tag_keys
                  (proj1 unknown_tag_is_unknown) (proj2 unknown_tag_is_unknown))
           (eq_refl (@nil (list N)))).
Defined.

Example unknown_tag_at_depth :
  deserialize nested_unknown_tag
  = Ok (VObj [(lit "a", VArr [VObj [(lit "value", VNum (RInt 1));
                                    (TYPE_KEY, VNum (RInt 5))]])]).
Proof. reflexivity. Qed.

(** ** The further properties at concrete inputs *)

Lemma validateAccountId_characters_witness :
  validateAccountId (lit "alice.near") = true
  /\ forallb cls_account (lit "alice.near") = true
  /\ cls_lower_digit (hd 0%N (lit "alice.near")) = true
  /\ cls_lower_digit (last (lit "alice.near") 0%N) = true.
Proof.
  split; [reflexivity|].
  apply (validateAccountId_characters (lit "alice.near")); reflexivity.
Defined.

Lemma with_invalid_date_supported : supported with_invalid_date.
Proof.
  apply built_obj; [reflexivity | exact I |].
  repeat constructor; discriminate.
Qed.

Lemma serialize_throws_on_invalid_dates_only_witness :
  supported with_invalid_date
  /\ serialize with_invalid_date = Throw invalid_time.
Proof.
  split; [exact with_invalid_date_supported|].
  exact (serialize_throws_on_invalid_dates_only with_invalid_date
           with_invalid_date_supported).
Defined.

Lemma serialize_writes_json_witness :
  exact sample
  /\ exists text,
       serialize sample = Ok (encode text)
       /\ parse_text text = Parsed (tagged_form sample) [].
Proof.
  split; [exact sample_exact|].
  exact (serialize_writes_json sample sample_exact).
Defined.

Lemma serialize_injective_witness :
  exact sample /\ codec_carries sample
  /\ serialize sample = serialize sample /\ sample = sample.
Proof.
  split; [exact sample_exact|]. split; [exact sample_codec|]. split; [reflexivity|].
  exact (serialize_injective sample sample sample_exact sample_exact
           sample_codec sample_codec eq_refl).
Defined.

Lemma sample_not_null : sample <> VNull.
Proof. discriminate. Qed.

Lemma facade_round_trip_witness :
  exact sample /\ sample <> VNull /\ codec_carries sample
  /\ exists b,
       serializeValueWithOptions sample None = Ok b
       /\ getValueWithOptions (Some b) (Some wrapping)
          = {| reconstructed := [sample]; returned := Ok (VArr [sample]) |}.
Proof.
  split; [exact sample_exact|]. split; [exact sample_not_null|].
  split; [exact sample_codec|].
  exact (facade_round_trip sample wrapping sample_exact sample_not_null sample_codec).
Defined.

Lemma non_finite_number_reads_as_default_witness :
  Number_isFinite RNaN = false
  /\ decode (encode (lit "null")) = lit "null"
  /\ serialize (VNum RNaN) = Ok (encode (lit "null"))
  /\ getValueWithOptions (Some (encode (lit "null"))) (Some wrapping)
     = {| reconstructed := []; returned := Ok (VStr (lit "none")) |}.
Proof.
  split; [reflexivity|]. split; [reflexivity|].
  exact (non_finite_number_reads_as_default RNaN wrapping eq_refl eq_refl).
Defined.

Lemma blank_bytes_are_an_error_witness :
  forallb is_json_ws (decode blank) = true
  /\ exists message,
       deserialize blank = Throw (SyntaxError message)
       /\ getValueWithOptions (Some blank) (Some wrapping)
          = {| reconstructed := []; returned := Throw (SyntaxError message) |}.
Proof.
  split; [reflexivity|].
  exact (blank_bytes_are_an_error blank (Some wrapping) eq_refl).
Defined.

Lemma unreadable_date_is_read_as_invalid_witness :
  parse_text (decode not_a_date)
  = Parsed (envelope (VStr (lit "x")) (VStr TypeBrand.DATE)) []
  /\ Date_parse (lit "x") = None
  /\ deserialize not_a_date = Ok (VDate None)
  /\ (v <- deserialize not_a_date ;; serialize v) = Throw invalid_time.
Proof.
  split; [reflexivity|]. split; [reflexivity|].
  exact (unreadable_date_is_read_as_invalid not_a_date (lit "x") eq_refl eq_refl).
Defined.

Lemma bigint_envelope_is_normalised_witness :
  parse_text (decode hexadecimal)
  = Parsed (envelope (VStr (lit " 0x10 ")) (VStr TypeBrand.BIGINT)) []
  /\ StringToBigInt (lit " 0x10 ") = Some 16%Z
  /\ deserialize hexadecimal = Ok (VBigInt 16)
  /\ (v <- deserialize hexadecimal ;; serialize v)
     = Ok (encode (json "{'value':'16','typeInfo':'bigint'}")).
Proof.
  split; [reflexivity|]. split; [reflexivity|].
  exact (bigint_envelope_is_normalised hexadecimal (lit " 0x10 ") 16 eq_refl eq_refl).
Defined.

Lemma deserialize_plain_json_witness :
  parse_text (decode plain_json) = Parsed plain_tree []
  /\ no_tagged plain_tree = true
  /\ deserialize plain_json = Ok plain_tree.
Proof.
  split; [reflexivity|]. split; [reflexivity|].
  exact (deserialize_plain_json plain_json plain_tree eq_refl eq_refl).
Defined.

Lemma deserialize_converts_every_envelope_witness :
  deserialize nested_envelopes = Ok (VArr [VBigInt 5])
  /\ VArr [VBigInt 5] <> VUndefined
  /\ no_tagged (VArr [VBigInt 5]) = true.
Proof.
  split; [reflexivity|].
  exact (deserialize_converts_every_envelope nested_envelopes (VArr [VBigInt 5]) eq_refl).
Defined.

End Examples.
